(** * QwtPlotLayout: a shallow embedding of qwt_plot_layout.cpp

    The layout engine of a Qwt plot computes the rectangles of title,
    footer, legend, the four axis scales and the canvas.  This file embeds
    the C++ member functions of [QwtPlotLayout] as Rocq functions over an
    explicit [PrivateData] record (the object behind [m_data]) and proves
    properties of them.

    Conventions of the embedding:
    - [int] is a 32-bit two's complement integer: a [Z] on which every
      arithmetic result is passed through [wrap_int]; [unsigned int] is a
      [Z] reduced by [wrap_uint].
    - [double]/[qreal] is an exact rational ([Q]).  Rounding of binary64
      arithmetic, infinities and NaN are outside the model, and so is a
      conversion to [int] of a value beyond the range of [int] (undefined
      in C++, wrapped here).  The model computes what the code computes
      where the arithmetic of the code is exact: on integers far below
      2^53, hence for rectangles on the pixel grid ([pixelAligned]).
      Statements that compare edges of rectangles, or bound an [int]
      taken from a product of doubles, are made for such rectangles;
      statements that only say which members are written, or that two
      runs compute the same, do not depend on the arithmetic.
    - The widgets of the plot (legend, labels, scale widgets, canvas) are
      records of the values and measuring functions the layout reads. *)

From Stdlib Require Import ZArith QArith Qround Lia Lqa Bool List.
Import ListNotations.

Local Open Scope Z_scope.

(** ** Machine numbers *)

Definition wrap_int (z : Z) : Z :=
  (z + 2147483648) mod 4294967296 - 2147483648.

Definition wrap_uint (z : Z) : Z := z mod 4294967296.

Definition INT_MAX : Z := 2147483647.
Definition INT_MIN : Z := -2147483648.

Definition iadd (a b : Z) : Z := wrap_int (a + b).
Definition isub (a b : Z) : Z := wrap_int (a - b).
Definition imul (a b : Z) : Z := wrap_int (a * b).

(** [int + unsigned]: the usual arithmetic conversions make the sum
    unsigned. *)
Definition uadd (a b : Z) : Z := wrap_uint (a + b).

Definition double := Q.

Definition Qltb (a b : Q) : bool := (Qnum a * QDen b <? Qnum b * QDen a)%Z.
Definition Qleb (a b : Q) : bool := (Qnum a * QDen b <=? Qnum b * QDen a)%Z.

(** [int( x )] for a double [x]: truncation towards zero. *)
Definition Qtrunc (q : Q) : Z := Z.quot (Qnum q) (QDen q).
Definition int_of_double (q : Q) : Z := wrap_int (Qtrunc q).

(** qwt_math.h / qglobal.h helpers. *)
Definition qMin (a b : Z) : Z := if a <? b then a else b.
Definition qMax (a b : Z) : Z := if a <? b then b else a.
Definition qMinF (a b : Q) : Q := if Qltb a b then a else b.
Definition qwtMinF (a b : Q) : Q := if Qltb a b then a else b.
Definition qwtMaxF (a b : Q) : Q := if Qltb a b then b else a.
Definition qwtCeil (q : Q) : Z := wrap_int (Qceiling q).
Definition qwtFloor (q : Q) : Z := wrap_int (Qfloor q).

(** [qRound] of Qt 5:
    [d >= 0.0 ? int(d + 0.5) : int(d - double(int(d-1)) + 0.5) + int(d-1)],
    a half is rounded up.  (Qt 6 rounds a negative half away from zero;
    the two agree everywhere else.) *)
Definition qRound (d : Q) : Z :=
  if Qleb 0 d then int_of_double (d + (1 # 2))%Q
  else
    let k := int_of_double (d - 1)%Q in
    iadd (int_of_double (d - inject_Z k + (1 # 2))%Q) k.

(** ** Qt geometry *)

Record QSize := mkQSize { sz_width : Z; sz_height : Z }.

Record QMargins := mkQMargins
  { m_left : Z; m_top : Z; m_right : Z; m_bottom : Z }.

(** [QRect] stores its corner pixels. *)
Record QRect := mkQRect { x1 : Z; y1 : Z; x2 : Z; y2 : Z }.

Definition QRect_null : QRect := mkQRect 0 0 (-1) (-1).
Definition QRect_isEmpty (r : QRect) : bool := (x2 r <? x1 r) || (y2 r <? y1 r).
Definition QRect_width (r : QRect) : Z := iadd (isub (x2 r) (x1 r)) 1.
Definition QRect_height (r : QRect) : Z := iadd (isub (y2 r) (y1 r)) 1.

(** [QRectF] stores position and size. *)
Record QRectF := mkQRectF { xp : Q; yp : Q; w : Q; h : Q }.

Definition QRectF_null : QRectF := mkQRectF 0 0 0 0.

Definition QRectF_of_QRect (r : QRect) : QRectF :=
  mkQRectF (inject_Z (x1 r)) (inject_Z (y1 r))
           (inject_Z (QRect_width r)) (inject_Z (QRect_height r)).

Definition left (r : QRectF) : Q := xp r.
Definition top (r : QRectF) : Q := yp r.
Definition right (r : QRectF) : Q := (xp r + w r)%Q.
Definition bottom (r : QRectF) : Q := (yp r + h r)%Q.
Definition x (r : QRectF) : Q := xp r.
Definition y (r : QRectF) : Q := yp r.
Definition width (r : QRectF) : Q := w r.
Definition height (r : QRectF) : Q := h r.

Definition isValid (r : QRectF) : bool := Qltb 0 (w r) && Qltb 0 (h r).
Definition isEmpty (r : QRectF) : bool := Qleb (w r) 0 || Qleb (h r) 0.

Definition setLeft (pos : Q) (r : QRectF) : QRectF :=
  let diff := (pos - xp r)%Q in
  mkQRectF (xp r + diff)%Q (yp r) (w r - diff)%Q (h r).
Definition setTop (pos : Q) (r : QRectF) : QRectF :=
  let diff := (pos - yp r)%Q in
  mkQRectF (xp r) (yp r + diff)%Q (w r) (h r - diff)%Q.
Definition setRight (pos : Q) (r : QRectF) : QRectF :=
  mkQRectF (xp r) (yp r) (pos - xp r)%Q (h r).
Definition setBottom (pos : Q) (r : QRectF) : QRectF :=
  mkQRectF (xp r) (yp r) (w r) (pos - yp r)%Q.
Definition setX (pos : Q) (r : QRectF) : QRectF := setLeft pos r.
Definition setY (pos : Q) (r : QRectF) : QRectF := setTop pos r.
Definition setWidth (aw : Q) (r : QRectF) : QRectF :=
  mkQRectF (xp r) (yp r) aw (h r).
Definition setHeight (ah : Q) (r : QRectF) : QRectF :=
  mkQRectF (xp r) (yp r) (w r) ah.
Definition setRect (ax ay aw ah : Q) (_ : QRectF) : QRectF :=
  mkQRectF ax ay aw ah.

Definition normalized (r : QRectF) : QRectF :=
  let r1 := if Qltb (w r) 0
            then mkQRectF (xp r + w r)%Q (yp r) (- w r)%Q (h r) else r in
  if Qltb (h r1) 0
  then mkQRectF (xp r1) (yp r1 + h r1)%Q (w r1) (- h r1)%Q else r1.

(** [QRectF::toRect]: the corners are rounded to pixels. *)
Definition toRect (r : QRectF) : QRect :=
  mkQRect (qRound (xp r)) (qRound (yp r))
          (isub (qRound (xp r + w r)%Q) 1) (isub (qRound (yp r + h r)%Q) 1).

(** [QRectF::intersects]: both rectangles are taken normalized; a
    rectangle without extent in one direction intersects nothing, and
    rectangles that only share an edge do not intersect. *)
Definition intersects (a b : QRectF) : bool :=
  let l1 := if Qltb (w a) 0 then (xp a + w a)%Q else xp a in
  let r1 := if Qltb (w a) 0 then xp a else (xp a + w a)%Q in
  let l2 := if Qltb (w b) 0 then (xp b + w b)%Q else xp b in
  let r2 := if Qltb (w b) 0 then xp b else (xp b + w b)%Q in
  let t1 := if Qltb (h a) 0 then (yp a + h a)%Q else yp a in
  let b1 := if Qltb (h a) 0 then yp a else (yp a + h a)%Q in
  let t2 := if Qltb (h b) 0 then (yp b + h b)%Q else yp b in
  let b2 := if Qltb (h b) 0 then yp b else (yp b + h b)%Q in
  if Qeq_bool l1 r1 then false
  else if Qeq_bool l2 r2 then false
  else if Qleb r2 l1 || Qleb r1 l2 then false
  else if Qeq_bool t1 b1 then false
  else if Qeq_bool t2 b2 then false
  else if Qleb b2 t1 || Qleb b1 t2 then false
  else true.

(** [QRegion( r ).subtracted( l ).boundingRect()] for two rectangles: the
    bounding rectangle of the pixels of [r] that are not in [l].  Only a
    rectangle that spans [r] in one direction and covers one of its edges
    moves the bounding rectangle. *)
Definition subtractedBoundingRect (r l : QRect) : QRect :=
  if QRect_isEmpty r then QRect_null
  else if QRect_isEmpty l then r
  else if (x2 l <? x1 r) || (x2 r <? x1 l) || (y2 l <? y1 r) || (y2 r <? y1 l)
  then r
  else
    let spansX := (x1 l <=? x1 r) && (x2 r <=? x2 l) in
    let spansY := (y1 l <=? y1 r) && (y2 r <=? y2 l) in
    if spansX && spansY then QRect_null
    else if spansY then
      mkQRect (if x1 l <=? x1 r then x2 l + 1 else x1 r) (y1 r)
              (if x2 r <=? x2 l then x1 l - 1 else x2 r) (y2 r)
    else if spansX then
      mkQRect (x1 r) (if y1 l <=? y1 r then y2 l + 1 else y1 r)
              (x2 r) (if y2 r <=? y2 l then y1 l - 1 else y2 r)
    else r.

(** ** Enumerations of qwt_plot.h and qwt_plot_layout.h

    The headers are not among the sources at hand; the enumerators are
    taken in their declaration order. *)

Inductive Axis := yLeft | yRight | xBottom | xTop.

Definition axisCnt : Z := 4.

Definition allAxes : list Axis := [yLeft; yRight; xBottom; xTop].

Definition axisOfInt (i : Z) : option Axis :=
  if (0 <=? i) && (i <? axisCnt) then
    Some (if i =? 0 then yLeft else if i =? 1 then yRight
          else if i =? 2 then xBottom else xTop)
  else None.

Definition isXAxis (a : Axis) : bool :=
  match a with xBottom | xTop => true | _ => false end.
Definition isYAxis (a : Axis) : bool :=
  match a with yLeft | yRight => true | _ => false end.

Definition LeftLegend : Z := 0.
Definition RightLegend : Z := 1.
Definition BottomLegend : Z := 2.
Definition TopLegend : Z := 3.

Definition isLegendPosition (pos : Z) : bool :=
  (pos =? LeftLegend) || (pos =? RightLegend)
  || (pos =? BottomLegend) || (pos =? TopLegend).

Definition Options := Z.
Definition AlignScales : Z := 1.
Definition IgnoreScrollbars : Z := 2.
Definition IgnoreFrames : Z := 4.
Definition IgnoreLegend : Z := 8.
Definition IgnoreTitle : Z := 16.
Definition IgnoreFooter : Z := 32.

(** [options & flag] used as a condition. *)
Definition hasOption (options flag : Z) : bool :=
  negb (Z.land options flag =? 0).

(** Arrays indexed by [QwtPlot::Axis]. *)
Record PerAxis (A : Type) := mkPerAxis
  { atYLeft : A; atYRight : A; atXBottom : A; atXTop : A }.
Arguments mkPerAxis {A}.
Arguments atYLeft {A}.
Arguments atYRight {A}.
Arguments atXBottom {A}.
Arguments atXTop {A}.

Definition pget {A} (p : PerAxis A) (a : Axis) : A :=
  match a with
  | yLeft => atYLeft p | yRight => atYRight p
  | xBottom => atXBottom p | xTop => atXTop p
  end.

Definition pset {A} (p : PerAxis A) (a : Axis) (v : A) : PerAxis A :=
  match a with
  | yLeft => mkPerAxis v (atYRight p) (atXBottom p) (atXTop p)
  | yRight => mkPerAxis (atYLeft p) v (atXBottom p) (atXTop p)
  | xBottom => mkPerAxis (atYLeft p) (atYRight p) v (atXTop p)
  | xTop => mkPerAxis (atYLeft p) (atYRight p) (atXBottom p) v
  end.

Definition pfill {A} (v : A) : PerAxis A := mkPerAxis v v v v.

(** ** The collaborators of the layout

    What the layout reads from the widgets of a plot.  Values returned
    as [int] by a widget are passed through [wrap_int] where they are
    read. *)

Definition QFont := Z.
Definition defaultFont : QFont := 0.

Inductive Orientation := Horizontal | Vertical.

(** [QwtText]: whether it is empty, the [PaintUsingTextFont] attribute,
    its font, and the height its layout needs for a width in a font. *)
Record QwtText := mkQwtText
  { text_isEmpty : bool;
    text_paintUsingTextFont : bool;
    text_font : QFont;
    text_measure : QFont -> Q -> Q }.

(** [QwtText()] *)
Definition QwtText_null : QwtText :=
  mkQwtText true false defaultFont (fun _ _ => 0%Q).

(** [QwtText::setFont] stores the font and sets [PaintUsingTextFont]. *)
Definition text_setFont (f : QFont) (t : QwtText) : QwtText :=
  mkQwtText (text_isEmpty t) true f (text_measure t).

(** [QwtText::heightForWidth( width )] with the default font argument. *)
Definition text_heightForWidth (t : QwtText) (width : Q) : Q :=
  text_measure t
    (if text_paintUsingTextFont t then text_font t else defaultFont) width.

Record QwtTextLabel := mkQwtTextLabel
  { label_text : QwtText;
    label_font : QFont;
    label_frameWidth : Z;
    label_heightForWidth : Z -> Z }.

Record QwtAbstractLegend := mkQwtAbstractLegend
  { legend_isEmpty : bool;
    legend_frameWidth : Z;
    legend_scrollExtent : Orientation -> Z;
    legend_sizeHint : QSize;
    legend_heightForWidth : Z -> Z }.

Record QwtScaleWidget := mkQwtScaleWidget
  { scale_font : QFont;
    scale_startBorderDist : Z;
    scale_endBorderDist : Z;
    scale_margin : Z;
    scale_hasTicks : bool;         (* scaleDraw()->hasComponent( Ticks ) *)
    scale_maxTickLength : Q;       (* scaleDraw()->maxTickLength() *)
    scale_dimForLength : Z -> QFont -> Z;
    scale_titleIsEmpty : bool;     (* title().isEmpty() *)
    scale_titleHeightForWidth : Z -> Z;
    scale_minimumSizeHint : QSize;
    scale_borderDistHint : Z * Z }.

Record QwtPlot := mkQwtPlot
  { plot_legend : option QwtAbstractLegend;
    plot_titleLabel : option QwtTextLabel;
    plot_footerLabel : option QwtTextLabel;
    plot_axisEnabled : Axis -> bool;
    plot_axisWidget : Axis -> QwtScaleWidget;
    canvas_contentsMargins : QMargins;
    canvas_minimumSize : QSize }.

Definition QWIDGETSIZE_MAX : Z := 16777215.

(** ** QwtPlotLayout::LayoutData *)

Record t_legendData := mkLegendData
  { lg_frameWidth : Z;
    lg_hScrollExtent : Z;
    lg_vScrollExtent : Z;
    lg_hint : QSize }.

Record t_titleData := mkTitleData
  { tl_text : QwtText; tl_frameWidth : Z }.

Record t_footerData := mkFooterData
  { ft_text : QwtText; ft_frameWidth : Z }.

Record t_scaleData := mkScaleData
  { isEnabled : bool;
    scaleWidget : QwtScaleWidget;
    scaleFont : QFont;
    start : Z;
    end_ : Z;
    baseLineOffset : Z;
    tickOffset : Q;
    dimWithoutTitle : Z }.

Record t_canvasData := mkCanvasData { contentsMargins : PerAxis Z }.

Record LayoutData := mkLayoutData
  { legend : t_legendData;
    title : t_titleData;
    footer : t_footerData;
    scale : PerAxis t_scaleData;
    canvas : t_canvasData }.

Definition init_legend (plot : QwtPlot) (rect : QRectF) (old : t_legendData)
  : t_legendData :=
  match plot_legend plot with
  | Some lgd =>
      let hint := legend_sizeHint lgd in
      let wd := qMin (wrap_int (sz_width hint)) (qwtFloor (width rect)) in
      let ht := wrap_int (legend_heightForWidth lgd wd) in
      let ht := if ht <=? 0 then wrap_int (sz_height hint) else ht in
      mkLegendData (wrap_int (legend_frameWidth lgd))
                   (wrap_int (legend_scrollExtent lgd Horizontal))
                   (wrap_int (legend_scrollExtent lgd Vertical))
                   (mkQSize wd ht)
  | None => old
  end.

Definition init_label (lbl : option QwtTextLabel) : QwtText * Z :=
  match lbl with
  | Some label =>
      let text := label_text label in
      let text := if negb (text_paintUsingTextFont text)
                  then text_setFont (label_font label) text else text in
      (text, wrap_int (label_frameWidth label))
  | None => (QwtText_null, 0)
  end.

Definition init_scale (plot : QwtPlot) (axis : Axis) (old : t_scaleData)
  : t_scaleData :=
  if plot_axisEnabled plot axis then
    let sw := plot_axisWidget plot axis in
    let font := scale_font sw in
    let margin := wrap_int (scale_margin sw) in
    let tickOffset : Q :=
      if scale_hasTicks sw
      then (inject_Z margin + scale_maxTickLength sw)%Q
      else inject_Z margin in
    let dim := wrap_int (scale_dimForLength sw QWIDGETSIZE_MAX font) in
    let dim :=
      if negb (scale_titleIsEmpty sw)
      then isub dim (wrap_int (scale_titleHeightForWidth sw QWIDGETSIZE_MAX))
      else dim in
    mkScaleData true sw font
                (wrap_int (scale_startBorderDist sw))
                (wrap_int (scale_endBorderDist sw))
                margin tickOffset dim
  else
    mkScaleData false (scaleWidget old) (scaleFont old) 0 0 0 0%Q 0.

(** [LayoutData::init]: extract all layout relevant data from the plot
    components.  Members that are not assigned keep their old values
    ([old]). *)
Definition LayoutData_init (plot : QwtPlot) (rect : QRectF) (old : LayoutData)
  : LayoutData :=
  let t := init_label (plot_titleLabel plot) in
  let f := init_label (plot_footerLabel plot) in
  let m := canvas_contentsMargins plot in
  mkLayoutData
    (init_legend plot rect (legend old))
    (mkTitleData (fst t) (snd t))
    (mkFooterData (fst f) (snd f))
    (mkPerAxis (init_scale plot yLeft (pget (scale old) yLeft))
               (init_scale plot yRight (pget (scale old) yRight))
               (init_scale plot xBottom (pget (scale old) xBottom))
               (init_scale plot xTop (pget (scale old) xTop)))
    (mkCanvasData
       (mkPerAxis (wrap_int (m_left m)) (wrap_int (m_right m))
                  (wrap_int (m_bottom m)) (wrap_int (m_top m)))).

(** ** QwtPlotLayout::PrivateData *)

Record PrivateData := mkPrivateData
  { d_titleRect : QRectF;
    d_footerRect : QRectF;
    d_legendRect : QRectF;
    d_scaleRect : PerAxis QRectF;
    d_canvasRect : QRectF;
    d_layoutData : LayoutData;
    d_legendPos : Z;
    d_legendRatio : Q;
    d_spacing : Z;                      (* unsigned int *)
    d_canvasMargin : PerAxis Z;         (* unsigned int [axisCnt] *)
    d_alignCanvasToScales : PerAxis bool }.

Definition with_titleRect (r : QRectF) (d : PrivateData) : PrivateData :=
  mkPrivateData r (d_footerRect d) (d_legendRect d) (d_scaleRect d)
    (d_canvasRect d) (d_layoutData d) (d_legendPos d) (d_legendRatio d)
    (d_spacing d) (d_canvasMargin d) (d_alignCanvasToScales d).
Definition with_footerRect (r : QRectF) (d : PrivateData) : PrivateData :=
  mkPrivateData (d_titleRect d) r (d_legendRect d) (d_scaleRect d)
    (d_canvasRect d) (d_layoutData d) (d_legendPos d) (d_legendRatio d)
    (d_spacing d) (d_canvasMargin d) (d_alignCanvasToScales d).
Definition with_legendRect (r : QRectF) (d : PrivateData) : PrivateData :=
  mkPrivateData (d_titleRect d) (d_footerRect d) r (d_scaleRect d)
    (d_canvasRect d) (d_layoutData d) (d_legendPos d) (d_legendRatio d)
    (d_spacing d) (d_canvasMargin d) (d_alignCanvasToScales d).
Definition with_scaleRect (r : PerAxis QRectF) (d : PrivateData)
  : PrivateData :=
  mkPrivateData (d_titleRect d) (d_footerRect d) (d_legendRect d) r
    (d_canvasRect d) (d_layoutData d) (d_legendPos d) (d_legendRatio d)
    (d_spacing d) (d_canvasMargin d) (d_alignCanvasToScales d).
Definition with_canvasRect (r : QRectF) (d : PrivateData) : PrivateData :=
  mkPrivateData (d_titleRect d) (d_footerRect d) (d_legendRect d)
    (d_scaleRect d) r (d_layoutData d) (d_legendPos d) (d_legendRatio d)
    (d_spacing d) (d_canvasMargin d) (d_alignCanvasToScales d).
Definition with_layoutData (l : LayoutData) (d : PrivateData) : PrivateData :=
  mkPrivateData (d_titleRect d) (d_footerRect d) (d_legendRect d)
    (d_scaleRect d) (d_canvasRect d) l (d_legendPos d) (d_legendRatio d)
    (d_spacing d) (d_canvasMargin d) (d_alignCanvasToScales d).
Definition with_legend (pos : Z) (ratio : Q) (d : PrivateData) : PrivateData :=
  mkPrivateData (d_titleRect d) (d_footerRect d) (d_legendRect d)
    (d_scaleRect d) (d_canvasRect d) (d_layoutData d) pos ratio
    (d_spacing d) (d_canvasMargin d) (d_alignCanvasToScales d).
Definition with_spacing (s : Z) (d : PrivateData) : PrivateData :=
  mkPrivateData (d_titleRect d) (d_footerRect d) (d_legendRect d)
    (d_scaleRect d) (d_canvasRect d) (d_layoutData d) (d_legendPos d)
    (d_legendRatio d) s (d_canvasMargin d) (d_alignCanvasToScales d).
Definition with_canvasMargin (m : PerAxis Z) (d : PrivateData) : PrivateData :=
  mkPrivateData (d_titleRect d) (d_footerRect d) (d_legendRect d)
    (d_scaleRect d) (d_canvasRect d) (d_layoutData d) (d_legendPos d)
    (d_legendRatio d) (d_spacing d) m (d_alignCanvasToScales d).
Definition with_alignCanvasToScales (a : PerAxis bool) (d : PrivateData)
  : PrivateData :=
  mkPrivateData (d_titleRect d) (d_footerRect d) (d_legendRect d)
    (d_scaleRect d) (d_canvasRect d) (d_layoutData d) (d_legendPos d)
    (d_legendRatio d) (d_spacing d) (d_canvasMargin d) a.

(** ** Configuration *)

(** [setCanvasMargin( margin, axis )]; the array holds [unsigned int]. *)
Definition setCanvasMargin (margin axis : Z) (d : PrivateData) : PrivateData :=
  let margin := if margin <? -1 then -1 else margin in
  if axis =? -1 then
    with_canvasMargin
      (fold_left (fun m a => pset m a (wrap_uint margin)) allAxes
                 (d_canvasMargin d)) d
  else
    match axisOfInt axis with
    | Some a =>
        with_canvasMargin (pset (d_canvasMargin d) a (wrap_uint margin)) d
    | None => d
    end.

Definition canvasMargin (axisId : Z) (d : PrivateData) : Z :=
  if (axisId <? 0) || (axisCnt <=? axisId) then 0
  else match axisOfInt axisId with
       | Some a => wrap_int (pget (d_canvasMargin d) a)
       | None => 0
       end.

Definition setAlignCanvasToScales (on : bool) (d : PrivateData)
  : PrivateData :=
  with_alignCanvasToScales
    (fold_left (fun m a => pset m a on) allAxes (d_alignCanvasToScales d)) d.

Definition setAlignCanvasToScale (axisId : Z) (on : bool) (d : PrivateData)
  : PrivateData :=
  match axisOfInt axisId with
  | Some a =>
      with_alignCanvasToScales (pset (d_alignCanvasToScales d) a on) d
  | None => d
  end.

Definition alignCanvasToScale (axisId : Z) (d : PrivateData) : bool :=
  if (axisId <? 0) || (axisCnt <=? axisId) then false
  else match axisOfInt axisId with
       | Some a => pget (d_alignCanvasToScales d) a
       | None => false
       end.

Definition setSpacing (spacing : Z) (d : PrivateData) : PrivateData :=
  with_spacing (wrap_uint (qMax 0 spacing)) d.

Definition spacing (d : PrivateData) : Z := wrap_int (d_spacing d).

(** [setLegendPosition( pos, ratio )] *)
Definition setLegendPosition (pos : Z) (ratio : Q) (d : PrivateData)
  : PrivateData :=
  let ratio := if Qltb 1 ratio then 1%Q else ratio in
  if (pos =? TopLegend) || (pos =? BottomLegend) then
    let ratio := if Qleb ratio 0 then (33 # 100)%Q else ratio in
    with_legend pos ratio d
  else if (pos =? LeftLegend) || (pos =? RightLegend) then
    let ratio := if Qleb ratio 0 then (1 # 2)%Q else ratio in
    with_legend pos ratio d
  else d.

(** [setLegendPosition( pos )] *)
Definition setLegendPosition1 (pos : Z) (d : PrivateData) : PrivateData :=
  setLegendPosition pos 0%Q d.

Definition legendPosition (d : PrivateData) : Z := d_legendPos d.

Definition setLegendRatio (ratio : Q) (d : PrivateData) : PrivateData :=
  setLegendPosition (legendPosition d) ratio d.

Definition legendRatio (d : PrivateData) : Q := d_legendRatio d.

Definition setTitleRect (rect : QRectF) (d : PrivateData) := with_titleRect rect d.
Definition titleRect (d : PrivateData) : QRectF := d_titleRect d.
Definition setFooterRect (rect : QRectF) (d : PrivateData) := with_footerRect rect d.
Definition footerRect (d : PrivateData) : QRectF := d_footerRect d.
Definition setLegendRect (rect : QRectF) (d : PrivateData) := with_legendRect rect d.
Definition legendRect (d : PrivateData) : QRectF := d_legendRect d.

Definition setScaleRect (axis : Z) (rect : QRectF) (d : PrivateData)
  : PrivateData :=
  match axisOfInt axis with
  | Some a => with_scaleRect (pset (d_scaleRect d) a rect) d
  | None => d
  end.

Definition scaleRect (axis : Z) (d : PrivateData) : QRectF :=
  if (axis <? 0) || (axisCnt <=? axis) then QRectF_null
  else match axisOfInt axis with
       | Some a => pget (d_scaleRect d) a
       | None => QRectF_null
       end.

Definition setCanvasRect (rect : QRectF) (d : PrivateData) := with_canvasRect rect d.
Definition canvasRect (d : PrivateData) : QRectF := d_canvasRect d.

(** [invalidate()]: every rectangle becomes [QRect()]. *)
Definition invalidate (d : PrivateData) : PrivateData :=
  let nul := QRectF_of_QRect QRect_null in
  with_scaleRect
    (fold_left (fun m a => pset m a nul) allAxes (d_scaleRect d))
    (with_titleRect nul (with_footerRect nul
       (with_legendRect nul (with_canvasRect nul d)))).

(** The constructor.  [PrivateData()] initialises the ratio and the
    spacing only; [raw] stands for the members it leaves as they are. *)
Definition QwtPlotLayout_new (raw : PrivateData) : PrivateData :=
  let d := mkPrivateData QRectF_null QRectF_null QRectF_null
             (pfill QRectF_null) QRectF_null (d_layoutData raw)
             (d_legendPos raw) 1%Q 5 (d_canvasMargin raw)
             (d_alignCanvasToScales raw) in
  invalidate
    (setAlignCanvasToScales false
       (setCanvasMargin 4 (-1) (setLegendPosition1 BottomLegend d))).

(** ** QwtPlotLayout::minimumSizeHint *)

(** The local class [ScaleData]. *)
Record ScaleData := mkSD
  { sd_w : Z; sd_h : Z; minLeft : Z; minRight : Z; sd_tickOffset : Z }.

Definition ScaleData_new : ScaleData := mkSD 0 0 0 0 0.

Definition set_sd_w (v : Z) (sd : ScaleData) : ScaleData :=
  mkSD v (sd_h sd) (minLeft sd) (minRight sd) (sd_tickOffset sd).
Definition set_sd_h (v : Z) (sd : ScaleData) : ScaleData :=
  mkSD (sd_w sd) v (minLeft sd) (minRight sd) (sd_tickOffset sd).

(** First loop: the hints of the enabled axes. *)
Definition readScaleData (plot : QwtPlot) (axis : Axis) : ScaleData :=
  if plot_axisEnabled plot axis then
    let scl := plot_axisWidget plot axis in
    let hint := scale_minimumSizeHint scl in
    let tick := wrap_int (scale_margin scl) in
    let tick := if scale_hasTicks scl
                then iadd tick (qwtCeil (scale_maxTickLength scl)) else tick in
    mkSD (wrap_int (sz_width hint)) (wrap_int (sz_height hint))
         (wrap_int (fst (scale_borderDistHint scl)))
         (wrap_int (snd (scale_borderDistHint scl))) tick
  else ScaleData_new.

(** [canvasBorder[axis] = fw + m_data->canvasMargin[axis] + 1] *)
Definition canvasBorderOf (fw : Z) (d : PrivateData) (axis : Axis) : Z :=
  wrap_int (uadd (uadd fw (pget (d_canvasMargin d) axis)) 1).

(** One round of the second loop (lines 605-651), on the array. *)
Definition shiftAxis (canvasBorder : PerAxis Z)
    (scaleData : PerAxis ScaleData) (axis : Axis) : PerAxis ScaleData :=
  let sd := pget scaleData axis in
  let sd :=
    if negb (sd_w sd =? 0) && isXAxis axis then
      let sd :=
        if (pget canvasBorder yLeft <? minLeft sd)
           && negb (sd_w (pget scaleData yLeft) =? 0)
        then
          let shiftLeft := isub (minLeft sd) (pget canvasBorder yLeft) in
          let shiftLeft :=
            if sd_w (pget scaleData yLeft) <? shiftLeft
            then sd_w (pget scaleData yLeft) else shiftLeft in
          set_sd_w (isub (sd_w sd) shiftLeft) sd
        else sd in
      if (pget canvasBorder yRight <? minRight sd)
         && negb (sd_w (pget scaleData yRight) =? 0)
      then
        let shiftRight := isub (minRight sd) (pget canvasBorder yRight) in
        let shiftRight :=
          if sd_w (pget scaleData yRight) <? shiftRight
          then sd_w (pget scaleData yRight) else shiftRight in
        set_sd_w (isub (sd_w sd) shiftRight) sd
      else sd
    else sd in
  let scaleData := pset scaleData axis sd in
  let sd :=
    if negb (sd_h sd =? 0) && isYAxis axis then
      let sd :=
        if (pget canvasBorder xBottom <? minLeft sd)
           && negb (sd_h (pget scaleData xBottom) =? 0)
        then
          let shiftBottom := isub (minLeft sd) (pget canvasBorder xBottom) in
          let shiftBottom :=
            if sd_tickOffset (pget scaleData xBottom) <? shiftBottom
            then sd_tickOffset (pget scaleData xBottom) else shiftBottom in
          set_sd_h (isub (sd_h sd) shiftBottom) sd
        else sd in
      if (pget canvasBorder xTop <? minLeft sd)
         && negb (sd_h (pget scaleData xTop) =? 0)
      then
        let shiftTop := isub (minRight sd) (pget canvasBorder xTop) in
        let shiftTop :=
          if sd_tickOffset (pget scaleData xTop) <? shiftTop
          then sd_tickOffset (pget scaleData xTop) else shiftTop in
        set_sd_h (isub (sd_h sd) shiftTop) sd
      else sd
    else sd in
  pset scaleData axis sd.

(** The second loop. *)
Definition shiftScaleData (canvasBorder : PerAxis Z)
    (scaleData : PerAxis ScaleData) : PerAxis ScaleData :=
  fold_left (shiftAxis canvasBorder) allAxes scaleData.

(** The array [scaleData] after both loops. *)
Definition minimumSizeHint_scaleData (plot : QwtPlot) (d : PrivateData)
  : PerAxis ScaleData :=
  let fw := wrap_int (m_left (canvas_contentsMargins plot)) in
  let canvasBorder :=
    mkPerAxis (canvasBorderOf fw d yLeft) (canvasBorderOf fw d yRight)
              (canvasBorderOf fw d xBottom) (canvasBorderOf fw d xTop) in
  shiftScaleData canvasBorder
    (mkPerAxis (readScaleData plot yLeft) (readScaleData plot yRight)
               (readScaleData plot xBottom) (readScaleData plot xTop)).

(** One round of the loop over title and footer label. *)
Definition addLabel (plot : QwtPlot) (d : PrivateData)
    (scaleData : PerAxis ScaleData) (wh : Z * Z)
    (lbl : option QwtTextLabel) : Z * Z :=
  let '(wd, ht) := wh in
  match lbl with
  | Some label =>
      if negb (text_isEmpty (label_text label)) then
        let centerOnCanvas :=
          negb (plot_axisEnabled plot yLeft && plot_axisEnabled plot yRight) in
        let yw := iadd (sd_w (pget scaleData yLeft))
                       (sd_w (pget scaleData yRight)) in
        let labelW := if centerOnCanvas then isub wd yw else wd in
        let labelH := wrap_int (label_heightForWidth label labelW) in
        let '(wd, labelH) :=
          if labelW <? labelH then
            let labelW := labelH in
            let wd := if centerOnCanvas then iadd labelW yw else labelW in
            (wd, wrap_int (label_heightForWidth label labelW))
          else (wd, labelH) in
        (wd, wrap_int (uadd ht (uadd labelH (d_spacing d))))
      else wh
  | None => wh
  end.

Definition addLegend (plot : QwtPlot) (d : PrivateData) (wh : Z * Z) : Z * Z :=
  let '(wd, ht) := wh in
  match plot_legend plot with
  | Some lgd =>
      if negb (legend_isEmpty lgd) then
        if (d_legendPos d =? LeftLegend) || (d_legendPos d =? RightLegend) then
          let legendW := wrap_int (sz_width (legend_sizeHint lgd)) in
          let legendH := wrap_int (legend_heightForWidth lgd legendW) in
          let wd := if 0 <? wrap_int (legend_frameWidth lgd)
                    then wrap_int (uadd wd (d_spacing d)) else wd in
          let legendW :=
            if ht <? legendH
            then iadd legendW (wrap_int (legend_scrollExtent lgd Horizontal))
            else legendW in
          let legendW :=
            if Qltb (d_legendRatio d) 1
            then qMin legendW
                   (int_of_double (inject_Z wd / (1 - d_legendRatio d))%Q)
            else legendW in
          (wrap_int (uadd wd (uadd legendW (d_spacing d))), ht)
        else
          let legendW := qMin (wrap_int (sz_width (legend_sizeHint lgd))) wd in
          let legendH := wrap_int (legend_heightForWidth lgd legendW) in
          let ht := if 0 <? wrap_int (legend_frameWidth lgd)
                    then wrap_int (uadd ht (d_spacing d)) else ht in
          let legendH :=
            if Qltb (d_legendRatio d) 1
            then qMin legendH
                   (int_of_double (inject_Z ht / (1 - d_legendRatio d))%Q)
            else legendH in
          (wd, wrap_int (uadd ht (uadd legendH (d_spacing d))))
      else wh
  | None => wh
  end.

Definition minimumSizeHint (plot : QwtPlot) (d : PrivateData) : QSize :=
  let scaleData := minimumSizeHint_scaleData plot d in
  let m := canvas_contentsMargins plot in
  let minCanvasSize := canvas_minimumSize plot in
  let wd := iadd (sd_w (pget scaleData yLeft)) (sd_w (pget scaleData yRight)) in
  let cw := iadd (iadd (iadd (iadd
              (qMax (sd_w (pget scaleData xBottom)) (sd_w (pget scaleData xTop)))
              (wrap_int (m_left m))) 1) (wrap_int (m_right m))) 1 in
  let wd := iadd wd (qMax cw (wrap_int (sz_width minCanvasSize))) in
  let ht := iadd (sd_h (pget scaleData xBottom)) (sd_h (pget scaleData xTop)) in
  let ch := iadd (iadd (iadd (iadd
              (qMax (sd_h (pget scaleData yLeft)) (sd_h (pget scaleData yRight)))
              (wrap_int (m_top m))) 1) (wrap_int (m_bottom m))) 1 in
  let ht := iadd ht (qMax ch (wrap_int (sz_height minCanvasSize))) in
  let wh := fold_left (addLabel plot d scaleData)
              [plot_titleLabel plot; plot_footerLabel plot] (wd, ht) in
  let wh := addLegend plot d wh in
  mkQSize (fst wh) (snd wh).

(** ** QwtPlotLayout::layoutLegend and alignLegend *)

(** The extent [dim] that [layoutLegend] gives the legend. *)
Definition layoutLegend_dim (options : Z) (rect : QRectF) (d : PrivateData)
  : Z :=
  let hint := lg_hint (legend (d_layoutData d)) in
  if (d_legendPos d =? LeftLegend) || (d_legendPos d =? RightLegend) then
    let dim := qMin (sz_width hint)
                 (int_of_double (width rect * d_legendRatio d)%Q) in
    if negb (hasOption options IgnoreScrollbars) then
      if Qltb (height rect) (inject_Z (sz_height hint))
      then iadd dim (lg_hScrollExtent (legend (d_layoutData d)))
      else dim
    else dim
  else
    let dim := qMin (sz_height hint)
                 (int_of_double (height rect * d_legendRatio d)%Q) in
    qMax dim (lg_vScrollExtent (legend (d_layoutData d))).

Definition layoutLegend (options : Z) (rect : QRectF) (d : PrivateData)
  : QRectF :=
  let dim := layoutLegend_dim options rect d in
  let legendRect := rect in
  if d_legendPos d =? LeftLegend then
    setWidth (inject_Z dim) legendRect
  else if d_legendPos d =? RightLegend then
    setWidth (inject_Z dim) (setX (right rect - inject_Z dim)%Q legendRect)
  else if d_legendPos d =? TopLegend then
    setHeight (inject_Z dim) legendRect
  else if d_legendPos d =? BottomLegend then
    setHeight (inject_Z dim) (setY (bottom rect - inject_Z dim)%Q legendRect)
  else legendRect.

Definition alignLegend (canvasRect legendRect : QRectF) (d : PrivateData)
  : QRectF :=
  let alignedRect := legendRect in
  let hint := lg_hint (legend (d_layoutData d)) in
  if (d_legendPos d =? BottomLegend) || (d_legendPos d =? TopLegend) then
    if Qltb (inject_Z (sz_width hint)) (width canvasRect)
    then setWidth (width canvasRect) (setX (x canvasRect) alignedRect)
    else alignedRect
  else
    if Qltb (inject_Z (sz_height hint)) (height canvasRect)
    then setHeight (height canvasRect) (setY (y canvasRect) alignedRect)
    else alignedRect.

(** ** QwtPlotLayout::expandLineBreaks *)

(** The three results [dimTitle], [dimFooter], [dimAxis]. *)
Record Dims := mkDims
  { dimTitle : Z; dimFooter : Z; dimAxis : PerAxis Z }.

Definition Dims_zero : Dims := mkDims 0 0 (pfill 0).

Definition expand_backboneOffset (options : Z) (d : PrivateData) (axis : Axis)
  : Z :=
  let b := 0 in
  let b := if negb (hasOption options IgnoreFrames)
           then iadd b (pget (contentsMargins (canvas (d_layoutData d))) axis)
           else b in
  if negb (pget (d_alignCanvasToScales d) axis)
  then wrap_int (uadd b (pget (d_canvasMargin d) axis))
  else b.

(** Width offered to title and footer: centered to the canvas when
    exactly one of the y axes is enabled. *)
Definition labelWidth (rect : QRectF) (d : PrivateData) (dims : Dims) : Q :=
  let sc := scale (d_layoutData d) in
  if negb (Bool.eqb (isEnabled (pget sc yLeft)) (isEnabled (pget sc yRight)))
  then (width rect
        - inject_Z (iadd (pget (dimAxis dims) yLeft)
                         (pget (dimAxis dims) yRight)))%Q
  else width rect.

Definition expandTitle (options : Z) (rect : QRectF) (d : PrivateData)
    (st : Dims * bool) : Dims * bool :=
  let '(dims, done) := st in
  let ld := d_layoutData d in
  if negb (hasOption options IgnoreTitle || text_isEmpty (tl_text (title ld)))
  then
    let dd := qwtCeil (text_heightForWidth (tl_text (title ld))
                         (labelWidth rect d dims)) in
    let dd := if negb (hasOption options IgnoreFrames)
              then iadd dd (imul 2 (tl_frameWidth (title ld))) else dd in
    if dimTitle dims <? dd
    then (mkDims dd (dimFooter dims) (dimAxis dims), false)
    else st
  else st.

Definition expandFooter (options : Z) (rect : QRectF) (d : PrivateData)
    (st : Dims * bool) : Dims * bool :=
  let '(dims, done) := st in
  let ld := d_layoutData d in
  if negb (hasOption options IgnoreFooter || text_isEmpty (ft_text (footer ld)))
  then
    let dd := qwtCeil (text_heightForWidth (ft_text (footer ld))
                         (labelWidth rect d dims)) in
    let dd := if negb (hasOption options IgnoreFrames)
              then iadd dd (imul 2 (ft_frameWidth (footer ld))) else dd in
    if dimFooter dims <? dd
    then (mkDims (dimTitle dims) dd (dimAxis dims), false)
    else st
  else st.

(** Length of the backbone that is left for the title of an axis. *)
Definition axisLength (rect : QRectF) (d : PrivateData)
    (backboneOffset : PerAxis Z) (dims : Dims) (axis : Axis) : Q :=
  let ld := d_layoutData d in
  let scaleData := pget (scale ld) axis in
  let da := dimAxis dims in
  if isXAxis axis then
    let length := (width rect - inject_Z (pget da yLeft)
                   - inject_Z (pget da yRight))%Q in
    let length :=
      (length - inject_Z (iadd (start scaleData) (end_ scaleData)))%Q in
    let length := if 0 <? pget da yRight then (length - 1)%Q else length in
    let length :=
      (length + inject_Z (qMin (pget da yLeft)
                            (isub (start scaleData)
                                  (pget backboneOffset yLeft))))%Q in
    (length + inject_Z (qMin (pget da yRight)
                          (isub (end_ scaleData)
                                (pget backboneOffset yRight))))%Q
  else
    let length := (height rect - inject_Z (pget da xTop)
                   - inject_Z (pget da xBottom))%Q in
    let length :=
      (length - inject_Z (iadd (start scaleData) (end_ scaleData)))%Q in
    let length := (length - 1)%Q in
    let length := if pget da xBottom <=? 0 then (length - 1)%Q else length in
    let length := if pget da xTop <=? 0 then (length - 1)%Q else length in
    let length :=
      if 0 <? pget da xBottom
      then (length + qMinF (tickOffset (pget (scale ld) xBottom))
                       (inject_Z (isub (start scaleData)
                                       (pget backboneOffset xBottom))))%Q
      else length in
    let length :=
      if 0 <? pget da xTop
      then (length + qMinF (tickOffset (pget (scale ld) xTop))
                       (inject_Z (isub (end_ scaleData)
                                       (pget backboneOffset xTop))))%Q
      else length in
    if 0 <? dimTitle dims
    then (length - inject_Z (uadd (dimTitle dims) (d_spacing d)))%Q
    else length.

Definition expandAxis (rect : QRectF) (d : PrivateData)
    (backboneOffset : PerAxis Z) (st : Dims * bool) (axis : Axis)
  : Dims * bool :=
  let '(dims, done) := st in
  let scaleData := pget (scale (d_layoutData d)) axis in
  if isEnabled scaleData then
    let length := axisLength rect d backboneOffset dims axis in
    let dd := dimWithoutTitle scaleData in
    let dd :=
      if negb (scale_titleIsEmpty (scaleWidget scaleData))
      then iadd dd (wrap_int (scale_titleHeightForWidth
                                (scaleWidget scaleData) (qwtFloor length)))
      else dd in
    if pget (dimAxis dims) axis <? dd
    then (mkDims (dimTitle dims) (dimFooter dims)
                 (pset (dimAxis dims) axis dd), false)
    else st
  else st.

(** The body of [while ( !done )]: the expanded dimensions and [done]. *)
Definition expandBody (options : Z) (rect : QRectF) (d : PrivateData)
    (backboneOffset : PerAxis Z) (dims : Dims) : Dims * bool :=
  let st := (dims, true) in
  let st := expandTitle options rect d st in
  let st := expandFooter options rect d st in
  fold_left (expandAxis rect d backboneOffset) allAxes st.

(** The loop; [None] when [fuel] rounds did not reach [done]. *)
Fixpoint expandLoop (fuel : nat) (options : Z) (rect : QRectF)
    (d : PrivateData) (backboneOffset : PerAxis Z) (dims : Dims)
  : option Dims :=
  match fuel with
  | O => None
  | S n =>
      let '(dims', done) := expandBody options rect d backboneOffset dims in
      if done then Some dims'
      else expandLoop n options rect d backboneOffset dims'
  end.

Definition expandLineBreaks (fuel : nat) (options : Z) (rect : QRectF)
    (d : PrivateData) : option Dims :=
  let backboneOffset :=
    mkPerAxis (expand_backboneOffset options d yLeft)
              (expand_backboneOffset options d yRight)
              (expand_backboneOffset options d xBottom)
              (expand_backboneOffset options d xTop) in
  expandLoop fuel options rect d backboneOffset Dims_zero.

(** ** QwtPlotLayout::alignScales *)

Definition align_backboneOffset (options : Z) (d : PrivateData) (axis : Axis)
  : Z :=
  let b := 0 in
  let b := if negb (pget (d_alignCanvasToScales d) axis)
           then wrap_int (uadd b (pget (d_canvasMargin d) axis)) else b in
  if negb (hasOption options IgnoreFrames)
  then iadd b (pget (contentsMargins (canvas (d_layoutData d))) axis)
  else b.

(** The state of the pass: [canvasRect] and the array [scaleRect]. *)
Definition AlignState := (QRectF * PerAxis QRectF)%type.

(** Left end of a horizontal axis (lines 1042-1077). *)
Definition alignLeft (d : PrivateData) (backboneOffset : PerAxis Z)
    (startDist : Z) (leftScaleRect : QRectF) (cr_ar : QRectF * QRectF)
  : QRectF * QRectF :=
  let '(canvasRect, axisRect) := cr_ar in
  let leftOffset := isub (pget backboneOffset yLeft) startDist in
  if isValid leftScaleRect then
    let dx := (inject_Z leftOffset + width leftScaleRect)%Q in
    if pget (d_alignCanvasToScales d) yLeft && Qltb dx 0 then
      let cLeft := left canvasRect in
      (setLeft (qwtMaxF cLeft (left axisRect - dx)%Q) canvasRect, axisRect)
    else
      let minLeft := left leftScaleRect in
      let left_ := (left axisRect + inject_Z leftOffset)%Q in
      (canvasRect, setLeft (qwtMaxF left_ minLeft) axisRect)
  else
    if pget (d_alignCanvasToScales d) yLeft && (leftOffset <? 0) then
      (setLeft (qwtMaxF (left canvasRect)
                        (left axisRect - inject_Z leftOffset)%Q) canvasRect,
       axisRect)
    else if 0 <? leftOffset then
      (canvasRect, setLeft (left axisRect + inject_Z leftOffset)%Q axisRect)
    else cr_ar.

(** Right end of a horizontal axis (lines 1079-1112). *)
Definition alignRight (d : PrivateData) (backboneOffset : PerAxis Z)
    (endDist : Z) (rightScaleRect : QRectF) (cr_ar : QRectF * QRectF)
  : QRectF * QRectF :=
  let '(canvasRect, axisRect) := cr_ar in
  let rightOffset := iadd (isub (pget backboneOffset yRight) endDist) 1 in
  if isValid rightScaleRect then
    let dx := (inject_Z rightOffset + width rightScaleRect)%Q in
    let canvasRect :=
      if pget (d_alignCanvasToScales d) yRight && Qltb dx 0 then
        let cRight := right canvasRect in
        setRight (qwtMinF cRight (right axisRect + dx)%Q) canvasRect
      else canvasRect in
    let maxRight := right rightScaleRect in
    let right_ := (right axisRect - inject_Z rightOffset)%Q in
    (canvasRect, setRight (qwtMinF right_ maxRight) axisRect)
  else
    if pget (d_alignCanvasToScales d) yRight && (rightOffset <? 0) then
      (setRight (qwtMinF (right canvasRect)
                         (right axisRect + inject_Z rightOffset)%Q) canvasRect,
       axisRect)
    else if 0 <? rightOffset then
      (canvasRect, setRight (right axisRect - inject_Z rightOffset)%Q axisRect)
    else cr_ar.

(** Bottom end of a vertical axis (lines 1116-1152). *)
Definition alignBottom (d : PrivateData) (backboneOffset : PerAxis Z)
    (endDist : Z) (bottomScaleRect : QRectF) (cr_ar : QRectF * QRectF)
  : QRectF * QRectF :=
  let '(canvasRect, axisRect) := cr_ar in
  let bottomOffset := iadd (isub (pget backboneOffset xBottom) endDist) 1 in
  if isValid bottomScaleRect then
    let dy := (inject_Z bottomOffset + height bottomScaleRect)%Q in
    if pget (d_alignCanvasToScales d) xBottom && Qltb dy 0 then
      let cBottom := bottom canvasRect in
      (setBottom (qwtMinF cBottom (bottom axisRect + dy)%Q) canvasRect,
       axisRect)
    else
      let maxBottom :=
        (top bottomScaleRect
         + tickOffset (pget (scale (d_layoutData d)) xBottom))%Q in
      let bottom_ := (bottom axisRect - inject_Z bottomOffset)%Q in
      (canvasRect, setBottom (qwtMinF bottom_ maxBottom) axisRect)
  else
    if pget (d_alignCanvasToScales d) xBottom && (bottomOffset <? 0) then
      (setBottom (qwtMinF (bottom canvasRect)
                          (bottom axisRect + inject_Z bottomOffset)%Q)
                 canvasRect,
       axisRect)
    else if 0 <? bottomOffset then
      (canvasRect,
       setBottom (bottom axisRect - inject_Z bottomOffset)%Q axisRect)
    else cr_ar.

(** Top end of a vertical axis (lines 1154-1189). *)
Definition alignTop (d : PrivateData) (backboneOffset : PerAxis Z)
    (startDist : Z) (topScaleRect : QRectF) (cr_ar : QRectF * QRectF)
  : QRectF * QRectF :=
  let '(canvasRect, axisRect) := cr_ar in
  let topOffset := isub (pget backboneOffset xTop) startDist in
  if isValid topScaleRect then
    let dy := (inject_Z topOffset + height topScaleRect)%Q in
    if pget (d_alignCanvasToScales d) xTop && Qltb dy 0 then
      let cTop := top canvasRect in
      (setTop (qwtMaxF cTop (top axisRect - dy)%Q) canvasRect, axisRect)
    else
      let minTop :=
        (bottom topScaleRect
         - tickOffset (pget (scale (d_layoutData d)) xTop))%Q in
      let top_ := (top axisRect + inject_Z topOffset)%Q in
      (canvasRect, setTop (qwtMaxF top_ minTop) axisRect)
  else
    if pget (d_alignCanvasToScales d) xTop && (topOffset <? 0) then
      (setTop (qwtMaxF (top canvasRect)
                       (top axisRect - inject_Z topOffset)%Q) canvasRect,
       axisRect)
    else if 0 <? topOffset then
      (canvasRect, setTop (top axisRect + inject_Z topOffset)%Q axisRect)
    else cr_ar.

(** One round of the first loop of [alignScales]. *)
Definition alignAxis1 (d : PrivateData) (backboneOffset : PerAxis Z)
    (st : AlignState) (axis : Axis) : AlignState :=
  let '(canvasRect, scaleRect) := st in
  if negb (isValid (pget scaleRect axis)) then st
  else
    let startDist := start (pget (scale (d_layoutData d)) axis) in
    let endDist := end_ (pget (scale (d_layoutData d)) axis) in
    let axisRect := pget scaleRect axis in
    let '(canvasRect, axisRect) :=
      if isXAxis axis then
        alignRight d backboneOffset endDist (pget scaleRect yRight)
          (alignLeft d backboneOffset startDist (pget scaleRect yLeft)
             (canvasRect, axisRect))
      else
        alignTop d backboneOffset startDist (pget scaleRect xTop)
          (alignBottom d backboneOffset endDist (pget scaleRect xBottom)
             (canvasRect, axisRect)) in
    (canvasRect, pset scaleRect axis axisRect).

(** One round of the second loop of [alignScales]; [canvasRect] is only
    read. *)
Definition alignAxis2 (options : Z) (d : PrivateData) (canvasRect : QRectF)
    (scaleRect : PerAxis QRectF) (axis : Axis) : PerAxis QRectF :=
  let sRect := pget scaleRect axis in
  let al := d_alignCanvasToScales d in
  let sc := scale (d_layoutData d) in
  let cm := contentsMargins (canvas (d_layoutData d)) in
  if negb (isValid sRect) then scaleRect
  else
    let sRect :=
      if isXAxis axis then
        let sRect :=
          if pget al yLeft then
            let v := (left canvasRect - inject_Z (start (pget sc axis)))%Q in
            let v := if negb (hasOption options IgnoreFrames)
                     then (v + inject_Z (pget cm yLeft))%Q else v in
            setLeft v sRect
          else sRect in
        let sRect :=
          if pget al yRight then
            let v := (right canvasRect - 1
                      + inject_Z (end_ (pget sc axis)))%Q in
            let v := if negb (hasOption options IgnoreFrames)
                     then (v - inject_Z (pget cm yRight))%Q else v in
            setRight v sRect
          else sRect in
        if pget al axis then
          match axis with
          | xTop => setBottom (top canvasRect) sRect
          | _ => setTop (bottom canvasRect) sRect
          end
        else sRect
      else
        let sRect :=
          if pget al xTop then
            let v := (top canvasRect - inject_Z (start (pget sc axis)))%Q in
            let v := if negb (hasOption options IgnoreFrames)
                     then (v + inject_Z (pget cm xTop))%Q else v in
            setTop v sRect
          else sRect in
        let sRect :=
          if pget al xBottom then
            let v := (bottom canvasRect - 1
                      + inject_Z (end_ (pget sc axis)))%Q in
            let v := if negb (hasOption options IgnoreFrames)
                     then (v - inject_Z (pget cm xBottom))%Q else v in
            setBottom v sRect
          else sRect in
        if pget al axis then
          match axis with
          | yLeft => setRight (left canvasRect) sRect
          | _ => setLeft (right canvasRect) sRect
          end
        else sRect in
    pset scaleRect axis sRect.

Definition alignScales_backbone (options : Z) (d : PrivateData) : PerAxis Z :=
  mkPerAxis (align_backboneOffset options d yLeft)
            (align_backboneOffset options d yRight)
            (align_backboneOffset options d xBottom)
            (align_backboneOffset options d xTop).

(** The first loop: the canvas is aligned to the scales. *)
Definition alignScales_pass1 (options : Z) (d : PrivateData) (st : AlignState)
  : AlignState :=
  fold_left (alignAxis1 d (alignScales_backbone options d)) allAxes st.

(** The second loop: the scales are realigned to the canvas. *)
Definition alignScales_pass2 (options : Z) (d : PrivateData) (st : AlignState)
  : AlignState :=
  (fst st, fold_left (alignAxis2 options d (fst st)) allAxes (snd st)).

Definition alignScales (options : Z) (d : PrivateData) (st : AlignState)
  : AlignState :=
  alignScales_pass2 options d (alignScales_pass1 options d st).

(** ** QwtPlotLayout::activate *)

(** [plot->legend() && !plot->legend()->isEmpty()] *)
Definition hasLegend (plot : QwtPlot) : bool :=
  match plot_legend plot with
  | Some lgd => negb (legend_isEmpty lgd)
  | None => false
  end.

(** The legend is laid out and taken from [rect] (lines 1285-1318). *)
Definition activate_legend (plot : QwtPlot) (options : Z) (rect : QRectF)
    (d : PrivateData) : PrivateData * QRectF :=
  if negb (hasOption options IgnoreLegend) && hasLegend plot then
    let d := with_legendRect (layoutLegend options rect d) d in
    let rect :=
      QRectF_of_QRect
        (subtractedBoundingRect (toRect rect) (toRect (d_legendRect d))) in
    let sp := inject_Z (d_spacing d) in
    let rect :=
      if d_legendPos d =? LeftLegend then setLeft (left rect + sp)%Q rect
      else if d_legendPos d =? RightLegend
      then setRight (right rect - sp)%Q rect
      else if d_legendPos d =? TopLegend then setTop (top rect + sp)%Q rect
      else if d_legendPos d =? BottomLegend
      then setBottom (bottom rect - sp)%Q rect
      else rect in
    (d, rect)
  else (d, rect).

(** [yLeft] and [yRight] are not both enabled or both disabled. *)
Definition oneYAxis (d : PrivateData) : bool :=
  let sc := scale (d_layoutData d) in
  negb (Bool.eqb (isEnabled (pget sc yLeft)) (isEnabled (pget sc yRight))).

(** Title rectangle (lines 1347-1364). *)
Definition activate_title (dims : Dims) (d_rect : PrivateData * QRectF)
  : PrivateData * QRectF :=
  let '(d, rect) := d_rect in
  if 0 <? dimTitle dims then
    let tr := setRect (left rect) (top rect) (width rect)
                (inject_Z (dimTitle dims)) (d_titleRect d) in
    let rect := setTop (bottom tr + inject_Z (d_spacing d))%Q rect in
    let tr :=
      if oneYAxis d then
        setWidth (width rect - inject_Z (pget (dimAxis dims) yLeft)
                  - inject_Z (pget (dimAxis dims) yRight))%Q
          (setX (left rect + inject_Z (pget (dimAxis dims) yLeft))%Q tr)
      else tr in
    (with_titleRect tr d, rect)
  else d_rect.

(** Footer rectangle (lines 1366-1383). *)
Definition activate_footer (dims : Dims) (d_rect : PrivateData * QRectF)
  : PrivateData * QRectF :=
  let '(d, rect) := d_rect in
  if 0 <? dimFooter dims then
    let fr := setRect (left rect) (bottom rect - inject_Z (dimFooter dims))%Q
                (width rect) (inject_Z (dimFooter dims)) (d_footerRect d) in
    let rect := setBottom (top fr - inject_Z (d_spacing d))%Q rect in
    let fr :=
      if oneYAxis d then
        setWidth (width rect - inject_Z (pget (dimAxis dims) yLeft)
                  - inject_Z (pget (dimAxis dims) yRight))%Q
          (setX (left rect + inject_Z (pget (dimAxis dims) yLeft))%Q fr)
      else fr in
    (with_footerRect fr d, rect)
  else d_rect.

(** Canvas rectangle (lines 1385-1389). *)
Definition activate_canvas (dims : Dims) (rect : QRectF) (d : PrivateData)
  : PrivateData :=
  let da := dimAxis dims in
  with_canvasRect
    (setRect (x rect + inject_Z (pget da yLeft))%Q
             (y rect + inject_Z (pget da xTop))%Q
             (width rect - inject_Z (pget da yRight)
              - inject_Z (pget da yLeft))%Q
             (height rect - inject_Z (pget da xBottom)
              - inject_Z (pget da xTop))%Q
             (d_canvasRect d)) d.

(** One round of the loop that sets the rects for the axes. *)
Definition activate_scale (dims : Dims) (d : PrivateData) (axis : Axis)
  : PrivateData :=
  if negb (pget (dimAxis dims) axis =? 0) then
    let dim := inject_Z (pget (dimAxis dims) axis) in
    let cr := d_canvasRect d in
    let scaleRect := cr in
    let scaleRect :=
      match axis with
      | yLeft => setWidth dim (setX (left cr - dim)%Q scaleRect)
      | yRight => setWidth dim (setX (right cr) scaleRect)
      | xBottom => setHeight dim (setY (bottom cr) scaleRect)
      | xTop => setHeight dim (setY (top cr - dim)%Q scaleRect)
      end in
    with_scaleRect (pset (d_scaleRect d) axis (normalized scaleRect)) d
  else d.

(** Everything after [expandLineBreaks] (lines 1347-1460). *)
Definition activate_finish (options : Z) (dims : Dims)
    (d_rect : PrivateData * QRectF) : PrivateData :=
  let '(d, rect) := activate_footer dims (activate_title dims d_rect) in
  let d := activate_canvas dims rect d in
  let d := fold_left (activate_scale dims) allAxes d in
  let st := alignScales options d (d_canvasRect d, d_scaleRect d) in
  let d := with_scaleRect (snd st) (with_canvasRect (fst st) d) in
  if negb (isEmpty (d_legendRect d))
  then with_legendRect (alignLegend (d_canvasRect d) (d_legendRect d) d) d
  else d.

(** [activate( plot, plotRect, options )]; [None] when the loop of
    [expandLineBreaks] needs more than [fuel] rounds. *)
Definition activate (fuel : nat) (plot : QwtPlot) (plotRect : QRectF)
    (options : Z) (d : PrivateData) : option PrivateData :=
  let d := invalidate d in
  let rect := plotRect in
  let d := with_layoutData (LayoutData_init plot rect (d_layoutData d)) d in
  let '(d, rect) := activate_legend plot options rect d in
  match expandLineBreaks fuel options rect d with
  | Some dims => Some (activate_finish options dims (d, rect))
  | None => None
  end.

(** ** States of a layout object

    A [PrivateData] is reachable when it is the state of a constructed
    [QwtPlotLayout] after any sequence of calls of its public members. *)

Inductive Reachable : PrivateData -> Prop :=
| R_new raw : Reachable (QwtPlotLayout_new raw)
| R_setCanvasMargin m a d :
    Reachable d -> Reachable (setCanvasMargin m a d)
| R_setAlignCanvasToScales on d :
    Reachable d -> Reachable (setAlignCanvasToScales on d)
| R_setAlignCanvasToScale a on d :
    Reachable d -> Reachable (setAlignCanvasToScale a on d)
| R_setSpacing s d : Reachable d -> Reachable (setSpacing s d)
| R_setLegendPosition pos ratio d :
    Reachable d -> Reachable (setLegendPosition pos ratio d)
| R_setLegendPosition1 pos d :
    Reachable d -> Reachable (setLegendPosition1 pos d)
| R_setLegendRatio ratio d : Reachable d -> Reachable (setLegendRatio ratio d)
| R_setTitleRect r d : Reachable d -> Reachable (setTitleRect r d)
| R_setFooterRect r d : Reachable d -> Reachable (setFooterRect r d)
| R_setLegendRect r d : Reachable d -> Reachable (setLegendRect r d)
| R_setScaleRect a r d : Reachable d -> Reachable (setScaleRect a r d)
| R_setCanvasRect r d : Reachable d -> Reachable (setCanvasRect r d)
| R_invalidate d : Reachable d -> Reachable (invalidate d)
| R_activate fuel plot plotRect options d d' :
    Reachable d -> activate fuel plot plotRect options d = Some d' ->
    Reachable d'.

(** ** Sample objects *)

(** A scale widget without title and ticks. *)
Definition plainScale (wd ht : Z) : QwtScaleWidget :=
  mkQwtScaleWidget defaultFont 0 0 0 false 0%Q
    (fun _ _ => wd) true (fun _ => 0) (mkQSize wd ht) (0, 0).

(** Uninitialised memory, as the constructor may find it. *)
Definition rawLayoutData : LayoutData :=
  mkLayoutData (mkLegendData 7 7 7 (mkQSize 7 7))
    (mkTitleData QwtText_null 7) (mkFooterData QwtText_null 7)
    (pfill (mkScaleData true (plainScale 7 7) 7 7 7 7 7%Q 7))
    (mkCanvasData (pfill 7)).

Definition rawData : PrivateData :=
  mkPrivateData QRectF_null QRectF_null QRectF_null (pfill QRectF_null)
    QRectF_null rawLayoutData 77 0%Q 0 (pfill 77) (pfill true).

(** A freshly constructed layout. *)
Definition freshLayout : PrivateData := QwtPlotLayout_new rawData.

(** ** Views of the state used in the statements *)

(** What the caller configures, with the layout data. *)
Definition config (d : PrivateData) :=
  (d_legendPos d, d_legendRatio d, d_spacing d, d_canvasMargin d,
   d_alignCanvasToScales d).

(** What [activate] computes. *)
Definition geometry (d : PrivateData) :=
  (d_titleRect d, d_footerRect d, d_legendRect d, d_canvasRect d,
   d_scaleRect d).



(** A plot with a left and a bottom axis: the left axis needs 20 pixels
    below its last tick, the bottom axis is 30 pixels high and keeps its
    ticks within 8 pixels. *)
Definition cornerPlot : QwtPlot :=
  mkQwtPlot None None None
    (fun a => match a with yLeft | xBottom => true | _ => false end)
    (fun a =>
       match a with
       | yLeft =>
           mkQwtScaleWidget defaultFont 0 0 0 false 0%Q (fun _ _ => 40) true
             (fun _ => 0) (mkQSize 40 100) (20, 3)
       | _ =>
           mkQwtScaleWidget defaultFont 0 0 8 false 0%Q (fun _ _ => 30) true
             (fun _ => 0) (mkQSize 200 30) (0, 0)
       end)
    (mkQMargins 0 0 0 0) (mkQSize 0 0).

(** A plot with all four axes. *)
Definition fourAxesPlot : QwtPlot :=
  mkQwtPlot None None None (fun _ => true)
    (fun a =>
       match a with
       | yLeft =>
           mkQwtScaleWidget defaultFont 0 0 0 false 0%Q (fun _ _ => 40) true
             (fun _ => 0) (mkQSize 40 100) (20, 9)
       | yRight =>
           mkQwtScaleWidget defaultFont 0 0 0 false 0%Q (fun _ _ => 35) true
             (fun _ => 0) (mkQSize 35 100) (2, 30)
       | xBottom =>
           mkQwtScaleWidget defaultFont 0 0 8 false 0%Q (fun _ _ => 30) true
             (fun _ => 0) (mkQSize 200 30) (50, 12)
       | xTop =>
           mkQwtScaleWidget defaultFont 0 0 6 true (5 # 2)%Q (fun _ _ => 25)
             true (fun _ => 0) (mkQSize 180 25) (7, 60)
       end)
    (mkQMargins 0 0 0 0) (mkQSize 0 0).

(** A plot without axes whose legend asks for 30 x 5 pixels. *)
Definition legendPlot : QwtPlot :=
  mkQwtPlot
    (Some (mkQwtAbstractLegend false 0 (fun _ => 0) (mkQSize 30 5)
             (fun _ => 5)))
    None None (fun _ => false) (fun _ => plainScale 0 0)
    (mkQMargins 0 0 0 0) (mkQSize 0 0).

(** A layout with the legend on the right and ratio 0.4, after a pass on
    [legendPlot] in 100 x 100 pixels. *)
Definition legendLayout : PrivateData :=
  match activate 2 legendPlot (mkQRectF 0 0 100 100) 0
          (setLegendPosition RightLegend (2 # 5) freshLayout) with
  | Some d => d
  | None => freshLayout
  end.

(** The same with scroll bars of 12 pixels. *)
Definition scrollLegendPlot : QwtPlot :=
  mkQwtPlot
    (Some (mkQwtAbstractLegend false 0 (fun _ => 12) (mkQSize 30 5)
             (fun _ => 5)))
    None None (fun _ => false) (fun _ => plainScale 0 0)
    (mkQMargins 0 0 0 0) (mkQSize 0 0).

Definition scrollLegendLayout : PrivateData :=
  match activate 2 scrollLegendPlot (mkQRectF 0 0 100 100) 0
          (setLegendPosition RightLegend (2 # 5) freshLayout) with
  | Some d => d
  | None => freshLayout
  end.

(** The clearance that the end of a vertical axis has at the bottom: its
    offset to the backbone, plus the height of the bottom scale when
    there is one. *)
Definition bottomClearance (d : PrivateData) (bo : PerAxis Z) (endDist : Z)
    (bottomScaleRect : QRectF) : Q :=
  (inject_Z (iadd (isub (pget bo xBottom) endDist) 1)
   + (if isValid bottomScaleRect then height bottomScaleRect else 0))%Q.


(** A plot with a left axis, whose last tick label needs 30 pixels, and
    a bottom axis of 20 pixels. *)
Definition alignPlot : QwtPlot :=
  mkQwtPlot None None None
    (fun a => match a with yLeft | xBottom => true | _ => false end)
    (fun a =>
       match a with
       | yLeft =>
           mkQwtScaleWidget defaultFont 0 30 0 false 0%Q (fun _ _ => 40) true
             (fun _ => 0) (mkQSize 40 100) (0, 30)
       | _ =>
           mkQwtScaleWidget defaultFont 0 0 0 false 0%Q (fun _ _ => 20) true
             (fun _ => 0) (mkQSize 200 20) (0, 0)
       end)
    (mkQMargins 0 0 0 0) (mkQSize 0 0).

(** A layout whose canvas is aligned to the scale at the bottom edge,
    after a pass on [alignPlot] in 400 x 300 pixels. *)
Definition alignLayout : PrivateData :=
  match activate 3 alignPlot (mkQRectF 0 0 400 300) 0
          (setAlignCanvasToScale 2 true freshLayout) with
  | Some d => d
  | None => freshLayout
  end.

(** A plot with a left axis, whose last tick label needs 10 pixels, and
    a bottom axis of 20 pixels with border distances of 20 pixels and a
    tick offset of 2 pixels. *)
Definition clipPlot : QwtPlot :=
  mkQwtPlot None None None
    (fun a => match a with yLeft | xBottom => true | _ => false end)
    (fun a =>
       match a with
       | yLeft =>
           mkQwtScaleWidget defaultFont 0 10 0 false 0%Q (fun _ _ => 40) true
             (fun _ => 0) (mkQSize 40 100) (0, 10)
       | _ =>
           mkQwtScaleWidget defaultFont 20 20 2 false 0%Q (fun _ _ => 20) true
             (fun _ => 0) (mkQSize 200 20) (20, 20)
       end)
    (mkQMargins 0 0 0 0) (mkQSize 0 0).

(** A layout whose canvas is aligned to the scale at the bottom edge,
    after a pass on [clipPlot] in 400 x 300 pixels. *)
Definition clipLayout : PrivateData :=
  match activate 3 clipPlot (mkQRectF 0 0 400 300) 0
          (setAlignCanvasToScale 2 true freshLayout) with
  | Some d => d
  | None => freshLayout
  end.

(** Order and range of the dimensions that [expandLineBreaks]
    accumulates. *)
Definition dims_le (a b : Dims) : Prop :=
  dimTitle a <= dimTitle b /\ dimFooter a <= dimFooter b
  /\ forall axis, pget (dimAxis a) axis <= pget (dimAxis b) axis.

Definition dims_in_range (a : Dims) : Prop :=
  0 <= dimTitle a <= INT_MAX /\ 0 <= dimFooter a <= INT_MAX
  /\ forall axis, 0 <= pget (dimAxis a) axis <= INT_MAX.

(** How far the dimensions are from the largest [int]. *)
Definition dims_slack (a : Dims) : Z :=
  (INT_MAX - dimTitle a) + (INT_MAX - dimFooter a)
  + (INT_MAX - pget (dimAxis a) yLeft) + (INT_MAX - pget (dimAxis a) yRight)
  + (INT_MAX - pget (dimAxis a) xBottom) + (INT_MAX - pget (dimAxis a) xTop).

(** The layout data hold [int] values where the loop reads them without
    arithmetic. *)
Definition scales_in_range (d : PrivateData) : Prop :=
  forall axis,
    INT_MIN <= dimWithoutTitle (pget (scale (d_layoutData d)) axis) <= INT_MAX.

(** What holds of the state of a round, relative to the dimensions
    [dims0] the round started with: no dimension has shrunk, all are
    [int]s, and either nothing has changed yet or [done] is false and the
    slack is smaller. *)
Definition round_inv (dims0 : Dims) (st : Dims * bool) : Prop :=
  dims_le dims0 (fst st) /\ dims_in_range (fst st)
  /\ (if snd st then fst st = dims0
      else dims_slack (fst st) < dims_slack dims0).


(** A plot whose title needs 1000 pixels of height at every width. *)
Definition tallTitlePlot : QwtPlot :=
  mkQwtPlot None
    (Some (mkQwtTextLabel
             (mkQwtText false false defaultFont (fun _ _ => 1000%Q))
             defaultFont 0 (fun _ => 1000)))
    None (fun _ => false) (fun _ => plainScale 0 0)
    (mkQMargins 0 0 0 0) (mkQSize 0 0).

(** A layout after a pass on [tallTitlePlot] in 10 x 10 pixels. *)
Definition tallTitleLayout : PrivateData :=
  match activate 3 tallTitlePlot (mkQRectF 0 0 10 10) 0 freshLayout with
  | Some d => d
  | None => freshLayout
  end.

(** A layout without spacing and with the legend on the left, after a
    pass on [legendPlot] in 100 x 100 pixels that start a quarter of a
    pixel right of the grid. *)
Definition quarterPixelLayout : PrivateData :=
  match activate 2 legendPlot (mkQRectF (1 # 4) 0 100 100) 0
          (setSpacing 0 (setLegendPosition1 LeftLegend freshLayout)) with
  | Some d => d
  | None => freshLayout
  end.

(** [inner] lies within [outer] (edges may coincide). *)
Definition inside (inner outer : QRectF) : Prop :=
  (left outer <= left inner)%Q /\ (right inner <= right outer)%Q
  /\ (top outer <= top inner)%Q /\ (bottom inner <= bottom outer)%Q.

(** A rectangle on the pixel grid: integer position and size, far from
    the ends of the range of [int]. *)
Definition maxPixels : Z := 536870912.

Definition pixelAligned (r : QRectF) : Prop :=
  exists X Y W H : Z,
    r = mkQRectF (inject_Z X) (inject_Z Y) (inject_Z W) (inject_Z H)
    /\ - maxPixels <= X <= maxPixels /\ - maxPixels <= Y <= maxPixels
    /\ 0 <= W <= maxPixels /\ 0 <= H <= maxPixels.

(** The tick offsets of the captured axes are whole pixels. *)
Definition wholeTicks (d : PrivateData) : Prop :=
  forall axis, exists t : Z,
    (tickOffset (pget (scale (d_layoutData d)) axis) == inject_Z t)%Q.

(** The scroll bars of the legend, if there is one, have a sane
    extent. *)
Definition saneScrollExtents (plot : QwtPlot) : Prop :=
  match plot_legend plot with
  | Some lgd =>
      forall o, 0 <= legend_scrollExtent lgd o <= maxPixels
  | None => True
  end.

(** The edges of a rectangle taken normalized. *)
Definition normLeft (r : QRectF) : Q :=
  if Qltb (w r) 0 then (xp r + w r)%Q else xp r.
Definition normRight (r : QRectF) : Q :=
  if Qltb (w r) 0 then xp r else (xp r + w r)%Q.
Definition normTop (r : QRectF) : Q :=
  if Qltb (h r) 0 then (yp r + h r)%Q else yp r.
Definition normBottom (r : QRectF) : Q :=
  if Qltb (h r) 0 then yp r else (yp r + h r)%Q.

(** [a] ends where [b] begins, or before, in one direction. *)
Definition apartX (a b : QRectF) : Prop :=
  (normRight a <= normLeft b)%Q \/ (normRight b <= normLeft a)%Q.
Definition apartY (a b : QRectF) : Prop :=
  (normBottom a <= normTop b)%Q \/ (normBottom b <= normTop a)%Q.

(** A plot with title (20 pixels high), footer (15 pixels high), a left
    and a bottom axis, and a legend of 30 x 5 pixels. *)
Definition labelledPlot : QwtPlot :=
  mkQwtPlot
    (Some (mkQwtAbstractLegend false 0 (fun _ => 0) (mkQSize 30 5)
             (fun _ => 5)))
    (Some (mkQwtTextLabel
             (mkQwtText false false defaultFont (fun _ _ => 20%Q))
             defaultFont 0 (fun _ => 20)))
    (Some (mkQwtTextLabel
             (mkQwtText false false defaultFont (fun _ _ => 15%Q))
             defaultFont 0 (fun _ => 15)))
    (fun a => match a with yLeft | xBottom => true | _ => false end)
    (fun a =>
       match a with
       | yLeft => plainScale 40 100
       | _ => plainScale 20 20
       end)
    (mkQMargins 0 0 0 0) (mkQSize 0 0).

(** A fresh layout after a pass on [labelledPlot] in 400 x 300 pixels. *)
Definition labelledLayout : PrivateData :=
  match activate 3 labelledPlot (mkQRectF 0 0 400 300) 0 freshLayout with
  | Some d => d
  | None => freshLayout
  end.

(** The parts of the accumulators that the loop never writes. *)
Definition untouched (options : Z) (d : PrivateData) (dims : Dims) : Prop :=
  (hasOption options IgnoreTitle = true
   \/ text_isEmpty (tl_text (title (d_layoutData d))) = true ->
   dimTitle dims = 0)
  /\ (hasOption options IgnoreFooter = true
      \/ text_isEmpty (ft_text (footer (d_layoutData d))) = true ->
      dimFooter dims = 0)
  /\ (forall axis,
        isEnabled (pget (scale (d_layoutData d)) axis) = false ->
        pget (dimAxis dims) axis = 0).

(** The rectangle [r] of the axis has an extent and lies beside the
    canvas [c], on the side of the axis; edges may coincide. *)
Definition besideCanvas (axis : Axis) (c r : QRectF) : Prop :=
  match axis with
  | yLeft => (0 < w r)%Q /\ (right r <= left c)%Q
  | yRight => (0 < w r)%Q /\ (right c <= left r)%Q
  | xBottom => (0 < h r)%Q /\ (bottom c <= top r)%Q
  | xTop => (0 < h r)%Q /\ (bottom r <= top c)%Q
  end.

(** Two captures of an axis agree in what a pass reads: the scale
    widget counts for an enabled axis only. *)
Definition sameScale (a b : t_scaleData) : Prop :=
  isEnabled a = isEnabled b /\ start a = start b /\ end_ a = end_ b
  /\ baseLineOffset a = baseLineOffset b /\ tickOffset a = tickOffset b
  /\ dimWithoutTitle a = dimWithoutTitle b
  /\ (isEnabled b = true -> scaleWidget a = scaleWidget b).

(** Two states agree in what the rest of a pass reads: configuration
    and geometry, the captured labels, canvas and axes, and the captured
    legend once there is a legend rectangle. *)
Definition sameRun (d1 d2 : PrivateData) : Prop :=
  config d1 = config d2 /\ geometry d1 = geometry d2
  /\ title (d_layoutData d1) = title (d_layoutData d2)
  /\ footer (d_layoutData d1) = footer (d_layoutData d2)
  /\ canvas (d_layoutData d1) = canvas (d_layoutData d2)
  /\ (forall axis,
        sameScale (pget (scale (d_layoutData d1)) axis)
                  (pget (scale (d_layoutData d2)) axis))
  /\ (isEmpty (d_legendRect d2) = false ->
      legend (d_layoutData d1) = legend (d_layoutData d2)).

(** * Properties *)

(** ** Arithmetic of the embedding *)

Lemma wrap_int_range z : INT_MIN <= wrap_int z <= INT_MAX.
Proof.
  unfold wrap_int, INT_MIN, INT_MAX.
  pose proof (Z.mod_pos_bound (z + 2147483648) 4294967296 eq_refl). lia.
Qed.

Lemma wrap_int_small z : INT_MIN <= z <= INT_MAX -> wrap_int z = z.
Proof.
  unfold wrap_int, INT_MIN, INT_MAX. intros Hz.
  rewrite Z.mod_small by lia. lia.
Qed.

Lemma wrap_int_wrap_uint z : wrap_int (wrap_uint z) = wrap_int z.
Proof.
  unfold wrap_int, wrap_uint.
  rewrite Zplus_mod_idemp_l. reflexivity.
Qed.

Lemma Qltb_lt a b : Qltb a b = true <-> (a < b)%Q.
Proof. unfold Qltb, Qlt. apply Z.ltb_lt. Qed.

Lemma Qltb_ge a b : Qltb a b = false <-> (b <= a)%Q.
Proof. unfold Qltb, Qle. apply Z.ltb_ge. Qed.

Lemma Qleb_le a b : Qleb a b = true <-> (a <= b)%Q.
Proof. unfold Qleb, Qle. apply Z.leb_le. Qed.

Lemma Qleb_gt a b : Qleb a b = false <-> (b < a)%Q.
Proof. unfold Qleb, Qlt. apply Z.leb_gt. Qed.

Lemma pget_pset_same {A} (p : PerAxis A) a v : pget (pset p a v) a = v.
Proof. destruct a; reflexivity. Qed.

Lemma pget_pset_other {A} (p : PerAxis A) a b v :
  a <> b -> pget (pset p a v) b = pget p b.
Proof. destruct a, b; intros H; try reflexivity; congruence. Qed.

Lemma axisOfInt_Some i a : axisOfInt i = Some a -> 0 <= i < axisCnt.
Proof.
  unfold axisOfInt.
  destruct (0 <=? i) eqn:H0; destruct (i <? axisCnt) eqn:H1; simpl;
    try discriminate.
  intros _. apply Z.leb_le in H0. apply Z.ltb_lt in H1. lia.
Qed.

Lemma axisOfInt_None i : i < 0 \/ axisCnt <= i -> axisOfInt i = None.
Proof.
  unfold axisOfInt, axisCnt. intros H.
  destruct (0 <=? i) eqn:H0; destruct (i <? 4) eqn:H1; simpl; try reflexivity.
  apply Z.leb_le in H0. apply Z.ltb_lt in H1. lia.
Qed.

Lemma axisOfInt_inj i j a :
  axisOfInt i = Some a -> axisOfInt j = Some a -> i = j.
Proof.
  intros Hi Hj.
  pose proof (axisOfInt_Some _ _ Hi) as Ri.
  pose proof (axisOfInt_Some _ _ Hj) as Rj.
  unfold axisCnt in *.
  assert (Ci : i = 0 \/ i = 1 \/ i = 2 \/ i = 3) by lia.
  assert (Cj : j = 0 \/ j = 1 \/ j = 2 \/ j = 3) by lia.
  destruct Ci as [->|[->|[->| ->]]]; destruct Cj as [->|[->|[->| ->]]];
    try reflexivity; vm_compute in Hi, Hj; congruence.
Qed.

(** ** The configuration store *)

(** Every layout object holds one of the four legend positions. *)
Lemma setLegendPosition_keeps_position pos ratio d :
  isLegendPosition (d_legendPos d) = true ->
  isLegendPosition (d_legendPos (setLegendPosition pos ratio d)) = true.
Proof.
  intros H. unfold setLegendPosition.
  destruct ((pos =? TopLegend) || (pos =? BottomLegend)) eqn:E1; simpl.
  - unfold isLegendPosition. rewrite orb_comm in E1.
    rewrite <- orb_assoc, E1. apply orb_true_r.
  - destruct ((pos =? LeftLegend) || (pos =? RightLegend)) eqn:E2; simpl.
    + unfold isLegendPosition. rewrite E2. reflexivity.
    + exact H.
Qed.

Lemma activate_title_config dims d rect :
  config (fst (activate_title dims (d, rect))) = config d
  /\ d_layoutData (fst (activate_title dims (d, rect))) = d_layoutData d.
Proof.
  unfold activate_title. destruct (0 <? dimTitle dims); split; reflexivity.
Qed.

Lemma activate_footer_config dims d rect :
  config (fst (activate_footer dims (d, rect))) = config d
  /\ d_layoutData (fst (activate_footer dims (d, rect))) = d_layoutData d.
Proof.
  unfold activate_footer. destruct (0 <? dimFooter dims); split; reflexivity.
Qed.

Lemma activate_scale_config dims d axis :
  config (activate_scale dims d axis) = config d
  /\ d_layoutData (activate_scale dims d axis) = d_layoutData d
  /\ d_canvasRect (activate_scale dims d axis) = d_canvasRect d
  /\ d_legendRect (activate_scale dims d axis) = d_legendRect d
  /\ d_titleRect (activate_scale dims d axis) = d_titleRect d
  /\ d_footerRect (activate_scale dims d axis) = d_footerRect d.
Proof.
  unfold activate_scale.
  destruct (negb (pget (dimAxis dims) axis =? 0)); repeat split; reflexivity.
Qed.

Lemma activate_scales_config dims d :
  let d' := fold_left (activate_scale dims) allAxes d in
  config d' = config d /\ d_layoutData d' = d_layoutData d
  /\ d_canvasRect d' = d_canvasRect d /\ d_legendRect d' = d_legendRect d
  /\ d_titleRect d' = d_titleRect d /\ d_footerRect d' = d_footerRect d.
Proof.
  simpl.
  destruct (activate_scale_config dims d yLeft) as (A1 & A2 & A3 & A4 & A5 & A6).
  destruct (activate_scale_config dims (activate_scale dims d yLeft) yRight)
    as (B1 & B2 & B3 & B4 & B5 & B6).
  destruct (activate_scale_config dims
              (activate_scale dims (activate_scale dims d yLeft) yRight)
              xBottom) as (C1 & C2 & C3 & C4 & C5 & C6).
  destruct (activate_scale_config dims
              (activate_scale dims
                 (activate_scale dims (activate_scale dims d yLeft) yRight)
                 xBottom) xTop) as (D1 & D2 & D3 & D4 & D5 & D6).
  repeat split; congruence.
Qed.

Lemma activate_finish_config options dims d rect :
  config (activate_finish options dims (d, rect)) = config d
  /\ d_layoutData (activate_finish options dims (d, rect)) = d_layoutData d.
Proof.
  unfold activate_finish.
  destruct (activate_title_config dims d rect) as [T1 T2].
  destruct (activate_title dims (d, rect)) as [d1 r1]. simpl in T1, T2.
  destruct (activate_footer_config dims d1 r1) as [F1 F2].
  destruct (activate_footer dims (d1, r1)) as [d2 r2]. simpl in F1, F2.
  destruct (activate_scales_config dims (activate_canvas dims r2 d2))
    as (S1 & S2 & _).
  match goal with
  | |- context [if ?c then _ else _] => destruct c
  end; unfold config in *; simpl in *; split; congruence.
Qed.

Lemma activate_legend_config plot options rect d :
  config (fst (activate_legend plot options rect d)) = config d
  /\ d_layoutData (fst (activate_legend plot options rect d)) = d_layoutData d.
Proof.
  unfold activate_legend.
  destruct (negb (hasOption options IgnoreLegend) && hasLegend plot);
    split; reflexivity.
Qed.

Lemma invalidate_config d :
  config (invalidate d) = config d
  /\ d_layoutData (invalidate d) = d_layoutData d.
Proof. split; reflexivity. Qed.

Lemma activate_config fuel plot plotRect options d d' :
  activate fuel plot plotRect options d = Some d' ->
  config d' = config d.
Proof.
  unfold activate.
  set (d0 := with_layoutData _ (invalidate d)).
  destruct (activate_legend_config plot options plotRect d0) as [L1 _].
  destruct (activate_legend plot options plotRect d0) as [d1 r1].
  simpl in L1.
  destruct (expandLineBreaks fuel options r1 d1) as [dims|]; [|discriminate].
  intros H. inversion H; subst d'; clear H.
  destruct (activate_finish_config options dims d1 r1) as [E1 _].
  rewrite E1, L1. reflexivity.
Qed.

Lemma activate_keeps_position fuel plot plotRect options d d' :
  activate fuel plot plotRect options d = Some d' ->
  d_legendPos d' = d_legendPos d.
Proof.
  intros H. apply activate_config in H. unfold config in H. congruence.
Qed.

Lemma Reachable_legendPosition d :
  Reachable d -> isLegendPosition (d_legendPos d) = true.
Proof.
  induction 1; try assumption;
    try (apply setLegendPosition_keeps_position; assumption).
  - reflexivity.
  - unfold setCanvasMargin. destruct (a =? -1); [assumption|].
    destruct (axisOfInt a); assumption.
  - unfold setAlignCanvasToScale. destruct (axisOfInt a); assumption.
  - unfold setScaleRect. destruct (axisOfInt a); assumption.
  - erewrite activate_keeps_position by eassumption. assumption.
Qed.

(** C7: after [setLegendRatio( r )] on a layout object, [legendRatio()]
    is [r] itself for [r] in (0, 1], the default of the legend position
    (0.33 for top and bottom, 0.5 for left and right) for [r <= 0], and
    1.0 for [r > 1]. *)
Theorem setLegendRatio_legendRatio (r : Q) (d : PrivateData) :
  Reachable d ->
  ((0 < r)%Q /\ (r <= 1)%Q -> legendRatio (setLegendRatio r d) = r)
  /\ ((r <= 0)%Q ->
      legendRatio (setLegendRatio r d)
      = if (legendPosition d =? TopLegend) || (legendPosition d =? BottomLegend)
        then (33 # 100)%Q else (1 # 2)%Q)
  /\ ((1 < r)%Q -> legendRatio (setLegendRatio r d) = 1%Q).
Proof.
  intros HR. apply Reachable_legendPosition in HR.
  unfold setLegendRatio, legendRatio, legendPosition, setLegendPosition.
  unfold isLegendPosition in HR.
  assert (HTB : (d_legendPos d =? TopLegend) || (d_legendPos d =? BottomLegend)
                = false ->
                (d_legendPos d =? LeftLegend) || (d_legendPos d =? RightLegend)
                = true).
  { intros E. rewrite <- orb_assoc in HR.
    destruct ((d_legendPos d =? LeftLegend) || (d_legendPos d =? RightLegend));
      [reflexivity|].
    simpl in HR. rewrite orb_comm in E. congruence. }
  repeat split.
  - intros [Hpos Hle].
    assert (E1 : Qltb 1 r = false) by (apply Qltb_ge; exact Hle).
    assert (E2 : Qleb r 0 = false) by (apply Qleb_gt; exact Hpos).
    rewrite E1, E2.
    destruct ((d_legendPos d =? TopLegend) || (d_legendPos d =? BottomLegend))
      eqn:E; [reflexivity|].
    rewrite (HTB eq_refl). reflexivity.
  - intros Hle.
    assert (E1 : Qltb 1 r = false) by (apply Qltb_ge; lra).
    assert (E2 : Qleb r 0 = true) by (apply Qleb_le; exact Hle).
    rewrite E1, E2.
    destruct ((d_legendPos d =? TopLegend) || (d_legendPos d =? BottomLegend))
      eqn:E; [reflexivity|].
    rewrite (HTB eq_refl). reflexivity.
  - intros Hgt.
    assert (E1 : Qltb 1 r = true) by (apply Qltb_lt; exact Hgt).
    rewrite E1.
    destruct ((d_legendPos d =? TopLegend) || (d_legendPos d =? BottomLegend))
      eqn:E; [reflexivity|].
    rewrite (HTB eq_refl). reflexivity.
Qed.

Lemma setLegendRatio_legendRatio_witness :
  Reachable freshLayout
  /\ legendRatio (setLegendRatio (2 # 5) freshLayout) = (2 # 5)%Q
  /\ legendRatio (setLegendRatio (- (3)) freshLayout) = (33 # 100)%Q
  /\ legendRatio (setLegendRatio (- (3))
                    (setLegendPosition1 RightLegend freshLayout)) = (1 # 2)%Q
  /\ legendRatio (setLegendRatio 7 freshLayout) = 1%Q.
Proof.
  split; [apply R_new|].
  split; [apply (setLegendRatio_legendRatio (2 # 5) freshLayout (R_new _));
          split; [reflexivity | discriminate]|].
  split; [apply (setLegendRatio_legendRatio (- (3)) freshLayout (R_new _));
          discriminate|].
  split; [apply (setLegendRatio_legendRatio (- (3)) _
                   (R_setLegendPosition1 RightLegend _ (R_new rawData)));
          discriminate|].
  apply (setLegendRatio_legendRatio 7 freshLayout (R_new _)); reflexivity.
Defined.

(** C8: for a margin [m < -1], [setCanvasMargin( m, -1 )] makes
    [canvasMargin( axis )] equal to -1 for all four axes, and
    [setCanvasMargin( m, a )] for a valid axis [a] makes
    [canvasMargin( a )] equal to -1 and leaves what is stored for the
    other axes as it was. *)
Theorem setCanvasMargin_below_minus_one (m : Z) (d : PrivateData) :
  m < -1 ->
  (forall axis, 0 <= axis < axisCnt ->
     canvasMargin axis (setCanvasMargin m (-1) d) = -1)
  /\ (forall a, 0 <= a < axisCnt ->
        canvasMargin a (setCanvasMargin m a d) = -1
        /\ (forall b, b <> a ->
              canvasMargin b (setCanvasMargin m a d) = canvasMargin b d)
        /\ (forall ax, axisOfInt a <> Some ax ->
              pget (d_canvasMargin (setCanvasMargin m a d)) ax
              = pget (d_canvasMargin d) ax)).
Proof.
  intros Hm. apply Z.ltb_lt in Hm.
  split.
  - intros axis Hax. unfold axisCnt in Hax.
    unfold setCanvasMargin, canvasMargin. rewrite Hm. simpl.
    assert (C : axis = 0 \/ axis = 1 \/ axis = 2 \/ axis = 3) by lia.
    destruct C as [->|[->|[->| ->]]]; reflexivity.
  - intros a Ha. unfold axisCnt in Ha.
    assert (Hne : (a =? -1) = false) by (apply Z.eqb_neq; lia).
    unfold setCanvasMargin. rewrite Hm, Hne.
    destruct (axisOfInt a) as [ax0|] eqn:Ea.
    2:{ exfalso. unfold axisOfInt, axisCnt in Ea.
        replace (0 <=? a) with true in Ea by (symmetry; apply Z.leb_le; lia).
        replace (a <? 4) with true in Ea by (symmetry; apply Z.ltb_lt; lia).
        discriminate. }
    repeat split.
    + unfold canvasMargin. rewrite Ea.
      replace ((a <? 0) || (axisCnt <=? a)) with false.
      * simpl. rewrite pget_pset_same. reflexivity.
      * symmetry. apply orb_false_iff. split;
          [apply Z.ltb_ge | apply Z.leb_gt]; unfold axisCnt; lia.
    + intros b Hb. unfold canvasMargin.
      destruct ((b <? 0) || (axisCnt <=? b)); [reflexivity|].
      destruct (axisOfInt b) as [bx|] eqn:Eb; [|reflexivity].
      simpl. rewrite pget_pset_other; [reflexivity|].
      intros ->. apply Hb. eapply axisOfInt_inj; eassumption.
    + intros ax Hax. simpl. apply pget_pset_other. congruence.
Qed.

Lemma setCanvasMargin_below_minus_one_witness :
  -5 < -1
  /\ canvasMargin 2 (setCanvasMargin (-5) (-1) freshLayout) = -1
  /\ canvasMargin 3 (setCanvasMargin (-5) 3 freshLayout) = -1
  /\ canvasMargin 0 (setCanvasMargin (-5) 3 freshLayout) = 4.
Proof.
  assert (H : -5 < -1) by lia.
  split; [exact H|].
  split; [apply (setCanvasMargin_below_minus_one (-5) freshLayout H);
          unfold axisCnt; lia|].
  split; [apply (setCanvasMargin_below_minus_one (-5) freshLayout H);
          unfold axisCnt; lia|].
  reflexivity.
Defined.

(** C9: for an axis index outside the four axes, [canvasMargin] is 0 and
    [alignCanvasToScale] is false; [setCanvasMargin] with that index
    (unless it is -1, which stands for all axes),
    [setAlignCanvasToScale] and [setScaleRect] leave the state as it was,
    and [scaleRect] is the null rectangle. *)
Theorem invalid_axis_is_neutral (i : Z) (d : PrivateData) :
  i < 0 \/ axisCnt <= i ->
  canvasMargin i d = 0
  /\ alignCanvasToScale i d = false
  /\ (forall m, i <> -1 -> setCanvasMargin m i d = d)
  /\ (forall on, setAlignCanvasToScale i on d = d)
  /\ (forall r, setScaleRect i r d = d)
  /\ scaleRect i d = QRectF_null.
Proof.
  intros Hi.
  assert (G : (i <? 0) || (axisCnt <=? i) = true).
  { apply orb_true_iff. destruct Hi; [left; apply Z.ltb_lt | right; apply Z.leb_le];
      assumption. }
  pose proof (axisOfInt_None i Hi) as N.
  unfold canvasMargin, alignCanvasToScale, setCanvasMargin,
    setAlignCanvasToScale, setScaleRect, scaleRect.
  rewrite G, N. repeat split.
  intros m Hne. apply Z.eqb_neq in Hne. rewrite Hne. reflexivity.
Qed.

Lemma invalid_axis_is_neutral_witness :
  (9 < 0 \/ axisCnt <= 9)
  /\ canvasMargin 9 freshLayout = 0
  /\ alignCanvasToScale (-3) (setAlignCanvasToScales true freshLayout) = false
  /\ setCanvasMargin 12 9 freshLayout = freshLayout
  /\ setAlignCanvasToScale 4 true freshLayout = freshLayout.
Proof.
  assert (H9 : 9 < 0 \/ axisCnt <= 9) by (right; unfold axisCnt; lia).
  assert (H4 : 4 < 0 \/ axisCnt <= 4) by (right; unfold axisCnt; lia).
  assert (H3 : -3 < 0 \/ axisCnt <= -3) by (left; lia).
  split; [exact H9|].
  split; [apply (invalid_axis_is_neutral 9 freshLayout H9)|].
  split; [apply (invalid_axis_is_neutral (-3) _ H3)|].
  split; [apply (invalid_axis_is_neutral 9 freshLayout H9); lia|].
  apply (invalid_axis_is_neutral 4 freshLayout H4).
Defined.

(** C10: for a position that is none of the four legend positions,
    [setLegendPosition( pos, ratio )] changes nothing: the stored
    position and the stored ratio stay as they were, whatever [ratio]
    is. *)
Theorem setLegendPosition_invalid_position (pos : Z) (ratio : Q)
    (d : PrivateData) :
  isLegendPosition pos = false ->
  legendPosition (setLegendPosition pos ratio d) = legendPosition d
  /\ legendRatio (setLegendPosition pos ratio d) = legendRatio d
  /\ setLegendPosition pos ratio d = d.
Proof.
  unfold isLegendPosition. intros H.
  apply orb_false_iff in H. destruct H as [H HT].
  apply orb_false_iff in H. destruct H as [H HB].
  apply orb_false_iff in H. destruct H as [HL HR].
  unfold setLegendPosition. rewrite HT, HB, HL, HR. simpl.
  repeat split.
Qed.

Lemma setLegendPosition_invalid_position_witness :
  isLegendPosition 4 = false
  /\ legendPosition (setLegendPosition 4 (1 # 2) freshLayout) = BottomLegend
  /\ legendRatio (setLegendPosition 4 (1 # 2) freshLayout) = (33 # 100)%Q.
Proof.
  assert (H : isLegendPosition 4 = false) by reflexivity.
  split; [exact H|].
  destruct (setLegendPosition_invalid_position 4 (1 # 2) freshLayout H)
    as (P & R & _).
  split; [rewrite P | rewrite R]; reflexivity.
Defined.

(** ** minimumSizeHint: sharing the corners *)




(** Case analysis on an innermost condition of the goal. *)
Ltac case_if :=
  match goal with
  | |- context [if ?c then _ else _] =>
      lazymatch c with
      | context [if _ then _ else _] => fail
      | _ => destruct c eqn:?
      end
  end.








(** The test at the top reads the start border distance: on
    [fourAxesPlot] the right axis needs 30 pixels above its first tick,
    25 more than the border of 5, and the top axis is there with a tick
    offset of 9; but its start border distance, 2, does not exceed the
    border, and the height stays 100. *)
Lemma corner_sharing_top_test :
  sd_h (readScaleData fourAxesPlot yRight) = 100
  /\ sd_h (readScaleData fourAxesPlot xTop) <> 0
  /\ sd_tickOffset (readScaleData fourAxesPlot xTop) = 9
  /\ canvasBorderOf 0 freshLayout xTop = 5
  /\ minLeft (readScaleData fourAxesPlot yRight) = 2
  /\ minRight (readScaleData fourAxesPlot yRight) = 30
  /\ sd_h (pget (minimumSizeHint_scaleData fourAxesPlot freshLayout) yRight)
     = 100.
Proof.
  vm_compute. repeat split; try reflexivity; discriminate.
Qed.

(** ** layoutLegend: the ratio cap *)

Lemma wrap_int_le_nonneg z : 0 <= z -> wrap_int z <= z.
Proof.
  intros Hz. destruct (Z_le_gt_dec z INT_MAX) as [H|H].
  - rewrite wrap_int_small; [lia | unfold INT_MIN, INT_MAX in *; lia].
  - pose proof (wrap_int_range z). lia.
Qed.

Lemma Qtrunc_nonneg q : (0 <= q)%Q -> Qtrunc q = Qfloor q.
Proof.
  destruct q as [n dq]. unfold Qle, Qtrunc, Qfloor. simpl.
  intros H. apply Z.quot_div_nonneg; lia.
Qed.

Lemma int_of_double_le q : (0 <= q)%Q -> (inject_Z (int_of_double q) <= q)%Q.
Proof.
  intros H. unfold int_of_double. rewrite (Qtrunc_nonneg q H).
  assert (H0 : 0 <= Qfloor q).
  { change 0 with (Qfloor 0). apply Qfloor_resp_le, H. }
  apply Qle_trans with (inject_Z (Qfloor q)); [|apply Qfloor_le].
  rewrite <- Zle_Qle. apply wrap_int_le_nonneg, H0.
Qed.

Lemma qMin_le_r a b : qMin a b <= b.
Proof. unfold qMin. destruct (Z.ltb_spec a b); lia. Qed.

Lemma legendLayout_reachable : Reachable legendLayout.
Proof.
  apply (R_activate 2 legendPlot (mkQRectF 0 0 100 100) 0
           (setLegendPosition RightLegend (2 # 5) freshLayout)).
  - apply R_setLegendPosition, R_new.
  - vm_compute. reflexivity.
Qed.

(** The share 0.4 of a whole number of pixels, truncated. *)
Lemma int_of_two_fifths (W : Z) (ratio : Q) :
  (ratio == 2 # 5)%Q -> 0 <= W -> 2 * W / 5 <= INT_MAX ->
  int_of_double (inject_Z W * ratio) = 2 * W / 5.
Proof.
  intros Hr HW Hmax.
  assert (P : (0 <= inject_Z W * ratio)%Q).
  { rewrite Hr. apply Qmult_le_0_compat; [|discriminate].
    change 0%Q with (inject_Z 0). rewrite <- Zle_Qle. exact HW. }
  unfold int_of_double. rewrite (Qtrunc_nonneg _ P).
  assert (F : Qfloor (inject_Z W * ratio) = 2 * W / 5).
  { rewrite Hr. unfold Qfloor, Qmult, inject_Z. cbn [Qnum Qden].
    rewrite Z.mul_comm. reflexivity. }
  rewrite F. apply wrap_int_small.
  assert (0 <= 2 * W / 5) by (apply Z.div_pos; lia).
  unfold INT_MIN, INT_MAX in *. lia.
Qed.

(** C3, as the code has it: for a rectangle whose width is a whole
    number [W >= 0] of pixels, with the legend on the right, ratio 0.4
    and a captured hint (an [int]) wider than 0.4 * rect.width, the
    width of the rectangle of [layoutLegend] is the extent
    [int( 0.4 * W )], which is at most 0.4 * rect.width and not
    negative; the horizontal scroll extent is added to it when the hint
    is higher than the rectangle and [IgnoreScrollbars] is not set. *)
Theorem layoutLegend_ratio_cap (options : Z) (rect : QRectF)
    (d : PrivateData) (W : Z) :
  let lg := legend (d_layoutData d) in
  d_legendPos d = RightLegend ->
  (d_legendRatio d == 2 # 5)%Q ->
  width rect = inject_Z W -> 0 <= W ->
  sz_width (lg_hint lg) <= INT_MAX ->
  ((2 # 5) * width rect < inject_Z (sz_width (lg_hint lg)))%Q ->
  0 <= 2 * W / 5
  /\ (inject_Z (2 * W / 5) <= (2 # 5) * width rect)%Q
  /\ width (layoutLegend options rect d)
     = inject_Z
         (if negb (hasOption options IgnoreScrollbars)
             && Qltb (height rect) (inject_Z (sz_height (lg_hint lg)))
          then iadd (2 * W / 5) (lg_hScrollExtent lg) else 2 * W / 5).
Proof.
  intros lg Hpos Hratio Ew HW Hint Hhint.
  assert (D0 : 0 <= 2 * W / 5) by (apply Z.div_pos; lia).
  assert (Dle : (inject_Z (2 * W / 5) <= (2 # 5) * inject_Z W)%Q).
  { assert (E : ((2 # 5) * inject_Z W == inject_Z (2 * W) / inject_Z 5)%Q).
    { rewrite inject_Z_mult. field. }
    rewrite E. apply Qle_shift_div_l; [reflexivity|].
    rewrite <- inject_Z_mult, <- Zle_Qle.
    rewrite Z.mul_comm. apply Z.mul_div_le. lia. }
  assert (Dlt : 2 * W / 5 < sz_width (lg_hint lg)).
  { rewrite Ew in Hhint. rewrite Zlt_Qlt.
    eapply Qle_lt_trans; [exact Dle | exact Hhint]. }
  assert (Ei : int_of_double (width rect * d_legendRatio d) = 2 * W / 5).
  { rewrite Ew. apply int_of_two_fifths; [exact Hratio | exact HW | lia]. }
  split; [exact D0|]. split; [rewrite Ew; exact Dle|].
  unfold layoutLegend, layoutLegend_dim. rewrite Hpos. fold lg.
  cbn [Z.eqb LeftLegend RightLegend Pos.eqb orb].
  rewrite Ei.
  assert (Em : qMin (sz_width (lg_hint lg)) (2 * W / 5) = 2 * W / 5).
  { unfold qMin. destruct (Z.ltb_spec (sz_width (lg_hint lg)) (2 * W / 5));
      [lia | reflexivity]. }
  rewrite Em.
  destruct (hasOption options IgnoreScrollbars); cbn [negb andb];
    [reflexivity|].
  destruct (Qltb (height rect) (inject_Z (sz_height (lg_hint lg))));
    reflexivity.
Qed.

Lemma layoutLegend_ratio_cap_witness :
  d_legendPos scrollLegendLayout = RightLegend
  /\ (d_legendRatio scrollLegendLayout == 2 # 5)%Q
  /\ sz_width (lg_hint (legend (d_layoutData scrollLegendLayout))) <= INT_MAX
  /\ ((2 # 5) * width (mkQRectF 0 0 50 100)
      < inject_Z (sz_width
                    (lg_hint (legend (d_layoutData scrollLegendLayout)))))%Q
  /\ lg_hScrollExtent (legend (d_layoutData scrollLegendLayout)) = 12
  /\ width (layoutLegend 0 (mkQRectF 0 0 50 100) scrollLegendLayout)
     = inject_Z 20
  /\ width (layoutLegend 0 (mkQRectF 0 0 50 3) scrollLegendLayout)
     = inject_Z 32
  /\ width (layoutLegend IgnoreScrollbars (mkQRectF 0 0 50 3)
              scrollLegendLayout)
     = inject_Z 20.
Proof.
  assert (H1 : d_legendPos scrollLegendLayout = RightLegend)
    by (vm_compute; reflexivity).
  assert (H2 : (d_legendRatio scrollLegendLayout == 2 # 5)%Q)
    by (vm_compute; reflexivity).
  assert (H3 : sz_width (lg_hint (legend (d_layoutData scrollLegendLayout)))
               <= INT_MAX) by (vm_compute; discriminate).
  assert (H4 : ((2 # 5) * inject_Z 50
                < inject_Z (sz_width
                              (lg_hint (legend
                                          (d_layoutData scrollLegendLayout)))))%Q)
    by (vm_compute; reflexivity).
  assert (H5 : 0 <= 50) by lia.
  split; [exact H1|]. split; [exact H2|]. split; [exact H3|].
  split; [exact H4|]. split; [vm_compute; reflexivity|].
  split; [|split].
  - exact (proj2 (proj2 (layoutLegend_ratio_cap 0 (mkQRectF 0 0 50 100)
                           scrollLegendLayout 50 H1 H2 eq_refl H5 H3 H4))).
  - exact (proj2 (proj2 (layoutLegend_ratio_cap 0 (mkQRectF 0 0 50 3)
                           scrollLegendLayout 50 H1 H2 eq_refl H5 H3 H4))).
  - exact (proj2 (proj2 (layoutLegend_ratio_cap IgnoreScrollbars
                           (mkQRectF 0 0 50 3)
                           scrollLegendLayout 50 H1 H2 eq_refl H5 H3 H4))).
Defined.

(** C3 fails for a rectangle of negative width: the captured hint is
    30 x 5, wider than 0.4 * (-1); [int( -0.4 )] is 0, so the legend gets
    the width 0, which is more than -0.4.  No scroll extent is added
    (the hint is lower than the rectangle). *)
Lemma layoutLegend_negative_width :
  legendPosition legendLayout = RightLegend
  /\ legendRatio legendLayout = (2 # 5)%Q
  /\ lg_hint (legend (d_layoutData legendLayout)) = mkQSize 30 5
  /\ ((2 # 5) * width (mkQRectF 0 0 (-1) 10) < inject_Z 30)%Q
  /\ Qltb (height (mkQRectF 0 0 (-1) 10)) (inject_Z 5) = false
  /\ width (layoutLegend 0 (mkQRectF 0 0 (-1) 10) legendLayout) = 0%Q
  /\ ~ (width (layoutLegend 0 (mkQRectF 0 0 (-1) 10) legendLayout)
        <= (2 # 5) * width (mkQRectF 0 0 (-1) 10))%Q.
Proof.
  repeat split; try (vm_compute; reflexivity).
  vm_compute. intros H. apply H. reflexivity.
Qed.

(** ** alignScales *)

(** Linear arithmetic on the edges of rectangles, from the comparisons
    of rationals among the hypotheses. *)
Ltac clear_nonQ :=
  repeat match goal with
         | H : ?T |- _ =>
             lazymatch type of T with
             | Prop =>
                 lazymatch T with
                 | (_ <= _)%Q => fail
                 | (_ < _)%Q => fail
                 | (_ == _)%Q => fail
                 | _ => clear H
                 end
             end
         end.

Ltac rect_lra := clear_nonQ; lra.

Lemma qwtMinF_le_l a b : (qwtMinF a b <= a)%Q.
Proof.
  unfold qwtMinF. destruct (Qltb a b) eqn:E; [apply Qle_refl|].
  apply Qltb_ge in E. exact E.
Qed.

Lemma qwtMinF_le_r a b : (qwtMinF a b <= b)%Q.
Proof.
  unfold qwtMinF. destruct (Qltb a b) eqn:E; [|apply Qle_refl].
  apply Qltb_lt in E. apply Qlt_le_weak, E.
Qed.

Lemma qwtMaxF_ge_l a b : (a <= qwtMaxF a b)%Q.
Proof.
  unfold qwtMaxF. destruct (Qltb a b) eqn:E; [|apply Qle_refl].
  apply Qltb_lt in E. apply Qlt_le_weak, E.
Qed.

Lemma qwtMaxF_ge_r a b : (b <= qwtMaxF a b)%Q.
Proof.
  unfold qwtMaxF. destruct (Qltb a b) eqn:E; [apply Qle_refl|].
  apply Qltb_ge in E. exact E.
Qed.

Lemma bottom_setBottom pos r : (bottom (setBottom pos r) == pos)%Q.
Proof. unfold bottom, setBottom. simpl. ring. Qed.

Lemma bottom_setTop pos r : (bottom (setTop pos r) == bottom r)%Q.
Proof. unfold bottom, setTop. simpl. ring. Qed.

Lemma right_setRight pos r : (right (setRight pos r) == pos)%Q.
Proof. unfold right, setRight. simpl. ring. Qed.

Lemma right_setLeft pos r : (right (setLeft pos r) == right r)%Q.
Proof. unfold right, setLeft. simpl. ring. Qed.

Lemma left_setLeft pos r : (left (setLeft pos r) == pos)%Q.
Proof. unfold left, setLeft. simpl. ring. Qed.

Lemma top_setTop pos r : (top (setTop pos r) == pos)%Q.
Proof. unfold top, setTop. simpl. ring. Qed.

(** The ends of a horizontal axis leave the vertical extent of the
    canvas alone. *)
Lemma alignLeft_vertical d bo sD lsr c ar :
  yp (fst (alignLeft d bo sD lsr (c, ar))) = yp c
  /\ h (fst (alignLeft d bo sD lsr (c, ar))) = h c.
Proof. unfold alignLeft. repeat case_if; split; reflexivity. Qed.

Lemma alignRight_vertical d bo eD rsr c ar :
  yp (fst (alignRight d bo eD rsr (c, ar))) = yp c
  /\ h (fst (alignRight d bo eD rsr (c, ar))) = h c.
Proof. unfold alignRight. repeat case_if; split; reflexivity. Qed.

(** The bottom end of a vertical axis never lowers the bottom edge of
    the canvas; the top end keeps it. *)
Lemma alignBottom_canvas d bo eD bsr c ar :
  (bottom (fst (alignBottom d bo eD bsr (c, ar))) <= bottom c)%Q.
Proof.
  unfold alignBottom. repeat case_if; cbn [fst]; try apply Qle_refl;
    rewrite bottom_setBottom; apply qwtMinF_le_l.
Qed.

Lemma alignTop_canvas d bo sD tsr c ar :
  (bottom (fst (alignTop d bo sD tsr (c, ar))) == bottom c)%Q.
Proof.
  unfold alignTop. repeat case_if; cbn [fst]; try reflexivity;
    apply bottom_setTop.
Qed.

Lemma alignTop_axis d bo sD tsr c ar :
  (bottom (snd (alignTop d bo sD tsr (c, ar))) == bottom ar)%Q.
Proof.
  unfold alignTop. repeat case_if; cbn [snd]; try reflexivity;
    apply bottom_setTop.
Qed.

(** With the canvas aligned to the bottom scale and a negative
    clearance, the bottom edge of the canvas is moved and the rectangle
    of the axis is left as it is. *)
Lemma alignBottom_needs_more d bo eD bsr c ar :
  pget (d_alignCanvasToScales d) xBottom = true ->
  (bottomClearance d bo eD bsr < 0)%Q ->
  alignBottom d bo eD bsr (c, ar)
  = (setBottom (qwtMinF (bottom c) (bottom ar + bottomClearance d bo eD bsr)%Q)
       c, ar).
Proof.
  intros Hal Hdy. unfold alignBottom, bottomClearance in *. rewrite Hal.
  destruct (isValid bsr); cbn [andb].
  - apply Qltb_lt in Hdy. rewrite Hdy. reflexivity.
  - assert (E : (iadd (isub (pget bo xBottom) eD) 1 <? 0) = true).
    { apply Z.ltb_lt. rewrite Zlt_Qlt. change (inject_Z 0) with 0%Q. lra. }
    rewrite E.
    assert (Q0 : (inject_Z (iadd (isub (pget bo xBottom) eD) 1) + 0)%Q
                 = inject_Z (iadd (isub (pget bo xBottom) eD) 1)).
    { unfold Qplus, inject_Z. simpl. rewrite Z.mul_1_r, Z.add_0_r.
      reflexivity. }
    rewrite Q0. reflexivity.
Qed.

(** A round of the first loop changes the rectangle of its own axis
    only. *)
Lemma alignAxis1_other d bo st a b :
  a <> b -> pget (snd (alignAxis1 d bo st a)) b = pget (snd st) b.
Proof.
  intros Hab. unfold alignAxis1. destruct st as [c sr].
  destruct (negb (isValid (pget sr a))); [reflexivity|].
  match goal with
  | |- context [let '(_, _) := ?e in _] => destruct e as [c' ar']
  end.
  cbn [snd]. apply pget_pset_other, Hab.
Qed.

(** No round of the first loop lowers the bottom edge of the canvas. *)
Lemma alignAxis1_canvas_bottom d bo st a :
  (bottom (fst (alignAxis1 d bo st a)) <= bottom (fst st))%Q.
Proof.
  unfold alignAxis1. destruct st as [c sr]. cbn [fst].
  destruct (negb (isValid (pget sr a))); [apply Qle_refl|].
  destruct (isXAxis a).
  - set (l := alignLeft _ _ _ _ _).
    pose proof (alignLeft_vertical d bo
                  (start (pget (scale (d_layoutData d)) a)) (pget sr yLeft)
                  c (pget sr a)) as [L1 L2].
    fold l in L1, L2. destruct l as [c1 ar1]. cbn [fst] in L1, L2.
    set (r := alignRight _ _ _ _ _).
    pose proof (alignRight_vertical d bo
                  (end_ (pget (scale (d_layoutData d)) a)) (pget sr yRight)
                  c1 ar1) as [R1 R2].
    fold r in R1, R2. destruct r as [c2 ar2]. cbn [fst] in *.
    unfold bottom. rewrite R1, R2, L1, L2. apply Qle_refl.
  - set (b := alignBottom _ _ _ _ _).
    pose proof (alignBottom_canvas d bo
                  (end_ (pget (scale (d_layoutData d)) a)) (pget sr xBottom)
                  c (pget sr a)) as B.
    fold b in B. destruct b as [c1 ar1]. cbn [fst] in B.
    set (t := alignTop _ _ _ _ _).
    pose proof (alignTop_canvas d bo
                  (start (pget (scale (d_layoutData d)) a)) (pget sr xTop)
                  c1 ar1) as T.
    fold t in T. destruct t as [c2 ar2]. cbn [fst] in *.
    rewrite T. exact B.
Qed.

(** The round of a vertical axis whose clearance at the bottom is
    negative, with the canvas aligned to the bottom scale. *)
Lemma alignAxis1_needs_more d bo c sr a :
  isYAxis a = true ->
  pget (d_alignCanvasToScales d) xBottom = true ->
  isValid (pget sr a) = true ->
  let dy := bottomClearance d bo (end_ (pget (scale (d_layoutData d)) a))
              (pget sr xBottom) in
  (dy < 0)%Q ->
  let st' := alignAxis1 d bo (c, sr) a in
  (bottom (fst st')
   == qwtMinF (bottom c) (bottom (pget sr a) + dy))%Q
  /\ (bottom (pget (snd st') a) == bottom (pget sr a))%Q.
Proof.
  intros Hy Hal Hv dy Hdy st'. subst st'. unfold alignAxis1.
  rewrite Hv. cbn [negb].
  assert (Hx : isXAxis a = false) by (destruct a; simpl in *; congruence).
  rewrite Hx.
  rewrite (alignBottom_needs_more d bo _ _ c (pget sr a) Hal Hdy). fold dy.
  set (c1 := setBottom _ c).
  pose proof (alignTop_canvas d bo
                (start (pget (scale (d_layoutData d)) a)) (pget sr xTop)
                c1 (pget sr a)) as T.
  pose proof (alignTop_axis d bo
                (start (pget (scale (d_layoutData d)) a)) (pget sr xTop)
                c1 (pget sr a)) as A.
  destruct (alignTop _ _ _ _ _) as [c2 ar2]. cbn [fst snd] in *.
  rewrite pget_pset_same. split; [|exact A].
  rewrite T. unfold c1. apply bottom_setBottom.
Qed.

(** The second loop reads the canvas only. *)
Lemma alignScales_canvas options d st :
  fst (alignScales options d st) = fst (alignScales_pass1 options d st).
Proof. reflexivity. Qed.

(** The bottom edge of the canvas after the pass, and the bottom edge
    of the rectangle of the axis after the first loop, over exact
    numbers. *)
Lemma alignScales_bottom_edges (options : Z) (d : PrivateData)
    (canvasRect : QRectF) (scaleRect : PerAxis QRectF) (axis : Axis) :
  isYAxis axis = true ->
  pget (d_alignCanvasToScales d) xBottom = true ->
  isValid (pget scaleRect axis) = true ->
  let dy := bottomClearance d (alignScales_backbone options d)
              (end_ (pget (scale (d_layoutData d)) axis))
              (pget scaleRect xBottom) in
  (dy < 0)%Q ->
  let st1 := alignScales_pass1 options d (canvasRect, scaleRect) in
  let st := alignScales options d (canvasRect, scaleRect) in
  (bottom (fst st) <= bottom (pget scaleRect axis) + dy)%Q
  /\ (bottom (fst st) <= bottom canvasRect)%Q
  /\ (bottom (pget (snd st1) axis) == bottom (pget scaleRect axis))%Q.
Proof.
  intros Hy Hal Hv dy Hdy st1 st.
  subst st. rewrite alignScales_canvas. fold st1.
  set (bo := alignScales_backbone options d) in *.
  unfold alignScales_pass1 in st1. fold bo in st1. cbn [fold_left allAxes] in st1.
  set (s1 := alignAxis1 d bo (canvasRect, scaleRect) yLeft) in *.
  set (s2 := alignAxis1 d bo s1 yRight) in *.
  set (s3 := alignAxis1 d bo s2 xBottom) in *.
  pose proof (alignAxis1_canvas_bottom d bo (canvasRect, scaleRect) yLeft) as B1.
  pose proof (alignAxis1_canvas_bottom d bo s1 yRight) as B2.
  pose proof (alignAxis1_canvas_bottom d bo s2 xBottom) as B3.
  pose proof (alignAxis1_canvas_bottom d bo s3 xTop) as B4.
  fold s1 in B1. fold s2 in B2. fold s3 in B3. fold st1 in B4.
  cbn [fst] in B1.
  assert (O4 : forall b, xTop <> b -> pget (snd st1) b = pget (snd s3) b)
    by (intros; apply alignAxis1_other; assumption).
  assert (O3 : forall b, xBottom <> b -> pget (snd s3) b = pget (snd s2) b)
    by (intros; apply alignAxis1_other; assumption).
  assert (O2 : forall b, yRight <> b -> pget (snd s2) b = pget (snd s1) b)
    by (intros; apply alignAxis1_other; assumption).
  assert (O1 : forall b, yLeft <> b -> pget (snd s1) b = pget scaleRect b)
    by (intros; unfold s1; rewrite alignAxis1_other by assumption;
        reflexivity).
  destruct axis; try discriminate Hy.
  - (* yLeft *)
    destruct (alignAxis1_needs_more d bo canvasRect scaleRect yLeft
                eq_refl Hal Hv Hdy) as [N1 N2].
    fold dy in N1. fold s1 in N1, N2.
    pose proof (qwtMinF_le_l (bottom canvasRect)
                  (bottom (pget scaleRect yLeft) + dy)) as M1.
    pose proof (qwtMinF_le_r (bottom canvasRect)
                  (bottom (pget scaleRect yLeft) + dy)) as M2.
    rewrite O4, O3, O2 by discriminate.
    clearbody dy st1 s3 s2 s1.
    repeat split; try exact N2; rect_lra.
  - (* yRight *)
    destruct s1 as [c1 sr1] eqn:E1. cbn [fst snd] in *.
    assert (Hv' : isValid (pget sr1 yRight) = true)
      by (rewrite O1 by discriminate; exact Hv).
    assert (Hdy' : (bottomClearance d bo
                      (end_ (pget (scale (d_layoutData d)) yRight))
                      (pget sr1 xBottom) < 0)%Q)
      by (rewrite O1 by discriminate; exact Hdy).
    destruct (alignAxis1_needs_more d bo c1 sr1 yRight
                eq_refl Hal Hv' Hdy') as [N1 N2].
    fold s2 in N1, N2.
    rewrite (O1 xBottom), (O1 yRight) in N1 by discriminate.
    rewrite (O1 yRight) in N2 by discriminate.
    fold dy in N1.
    pose proof (qwtMinF_le_l (bottom c1)
                  (bottom (pget scaleRect yRight) + dy)) as M1.
    pose proof (qwtMinF_le_r (bottom c1)
                  (bottom (pget scaleRect yRight) + dy)) as M2.
    rewrite O4, O3 by discriminate.
    clearbody dy st1 s3 s2.
    repeat split; try exact N2; rect_lra.
Qed.

(** X6: for a canvas and axis rectangles on the pixel grid and tick
    offsets in whole pixels: with [alignCanvasToScale]
    set for the bottom edge and a vertical axis whose clearance at the
    bottom is negative (its end border distance is more than the
    backbone offset of the bottom edge and the height of the bottom
    scale provide), [alignScales] moves the bottom edge of the canvas:
    it ends at most at the bottom of the rectangle of the axis plus the
    (negative) clearance, and never below where it was; the first loop
    does not clip the rectangle of the axis, whose bottom edge stays
    where it was.  (On the grid the arithmetic of the code is exact.) *)
Theorem alignScales_bottom_moves_canvas (options : Z) (d : PrivateData)
    (canvasRect : QRectF) (scaleRect : PerAxis QRectF) (axis : Axis) :
  pixelAligned canvasRect ->
  (forall a, pixelAligned (pget scaleRect a)) ->
  wholeTicks d ->
  isYAxis axis = true ->
  pget (d_alignCanvasToScales d) xBottom = true ->
  isValid (pget scaleRect axis) = true ->
  let dy := bottomClearance d (alignScales_backbone options d)
              (end_ (pget (scale (d_layoutData d)) axis))
              (pget scaleRect xBottom) in
  (dy < 0)%Q ->
  let st1 := alignScales_pass1 options d (canvasRect, scaleRect) in
  let st := alignScales options d (canvasRect, scaleRect) in
  (bottom (fst st) <= bottom (pget scaleRect axis) + dy)%Q
  /\ (bottom (fst st) <= bottom canvasRect)%Q
  /\ (bottom (pget (snd st1) axis) == bottom (pget scaleRect axis))%Q.
Proof.
  intros _ _ _ Hy Hal Hv dy Hdy st1 st.
  exact (alignScales_bottom_edges options d canvasRect scaleRect axis
           Hy Hal Hv Hdy).
Qed.

Lemma alignScales_bottom_moves_canvas_witness :
  pixelAligned (mkQRectF 40 0 360 280)
  /\ (forall a,
        pixelAligned
          (pget (mkPerAxis (mkQRectF 0 0 40 280) QRectF_null
                   (mkQRectF 40 280 360 20) QRectF_null) a))
  /\ wholeTicks alignLayout
  /\ isYAxis yLeft = true
  /\ pget (d_alignCanvasToScales alignLayout) xBottom = true
  /\ isValid (mkQRectF 0 0 40 280) = true
  /\ (bottomClearance alignLayout (alignScales_backbone 0 alignLayout)
        (end_ (pget (scale (d_layoutData alignLayout)) yLeft))
        (mkQRectF 40 280 360 20) == - (9))%Q
  /\ (bottom (fst (alignScales 0 alignLayout
                     (mkQRectF 40 0 360 280,
                      mkPerAxis (mkQRectF 0 0 40 280) QRectF_null
                        (mkQRectF 40 280 360 20) QRectF_null)))
      <= bottom (mkQRectF 0 0 40 280) + - (9))%Q.
Proof.
  assert (G1 : pixelAligned (mkQRectF 40 0 360 280)).
  { exists 40, 0, 360, 280. unfold maxPixels.
    split; [reflexivity|]. lia. }
  assert (G2 : forall a,
             pixelAligned
               (pget (mkPerAxis (mkQRectF 0 0 40 280) QRectF_null
                        (mkQRectF 40 280 360 20) QRectF_null) a)).
  { intros a. destruct a; cbn [pget atYLeft atYRight atXBottom atXTop].
    - exists 0, 0, 40, 280. unfold maxPixels. split; [reflexivity|]. lia.
    - exists 0, 0, 0, 0. unfold maxPixels. split; [reflexivity|]. lia.
    - exists 40, 280, 360, 20. unfold maxPixels. split; [reflexivity|]. lia.
    - exists 0, 0, 0, 0. unfold maxPixels. split; [reflexivity|]. lia. }
  assert (G3 : wholeTicks alignLayout).
  { intros a. exists 0. destruct a; vm_compute; reflexivity. }
  assert (H1 : isYAxis yLeft = true) by reflexivity.
  assert (H2 : pget (d_alignCanvasToScales alignLayout) xBottom = true)
    by (vm_compute; reflexivity).
  assert (H3 : isValid (pget (mkPerAxis (mkQRectF 0 0 40 280) QRectF_null
                                (mkQRectF 40 280 360 20) QRectF_null) yLeft)
               = true) by (vm_compute; reflexivity).
  assert (H4 : (bottomClearance alignLayout (alignScales_backbone 0 alignLayout)
                  (end_ (pget (scale (d_layoutData alignLayout)) yLeft))
                  (pget (mkPerAxis (mkQRectF 0 0 40 280) QRectF_null
                           (mkQRectF 40 280 360 20) QRectF_null) xBottom)
                == - (9))%Q) by (vm_compute; reflexivity).
  assert (H5 : (bottomClearance alignLayout (alignScales_backbone 0 alignLayout)
                  (end_ (pget (scale (d_layoutData alignLayout)) yLeft))
                  (pget (mkPerAxis (mkQRectF 0 0 40 280) QRectF_null
                           (mkQRectF 40 280 360 20) QRectF_null) xBottom)
                < 0)%Q) by (vm_compute; reflexivity).
  split; [exact G1|]. split; [exact G2|]. split; [exact G3|].
  split; [exact H1|]. split; [exact H2|]. split; [exact H3|].
  split; [exact H4|].
  destruct (alignScales_bottom_moves_canvas 0 alignLayout
              (mkQRectF 40 0 360 280)
              (mkPerAxis (mkQRectF 0 0 40 280) QRectF_null
                 (mkQRectF 40 280 360 20) QRectF_null)
              yLeft G1 G2 G3 H1 H2 H3 H5) as (A & _).
  cbn [pget atYLeft] in A. rewrite H4 in A. exact A.
Defined.

(** ** expandLineBreaks: the loop *)

Lemma dims_le_refl a : dims_le a a.
Proof. unfold dims_le. repeat split; intros; lia. Qed.

Lemma dims_le_trans a b c : dims_le a b -> dims_le b c -> dims_le a c.
Proof.
  unfold dims_le. intros (A1 & A2 & A3) (B1 & B2 & B3).
  repeat split; try lia. intros axis. specialize (A3 axis).
  specialize (B3 axis). lia.
Qed.

Lemma dims_le_slack a b : dims_le a b -> dims_slack b <= dims_slack a.
Proof.
  unfold dims_le, dims_slack. intros (A1 & A2 & A3).
  pose proof (A3 yLeft). pose proof (A3 yRight).
  pose proof (A3 xBottom). pose proof (A3 xTop). lia.
Qed.

(** Case analysis on the condition at the head of the state. *)
Ltac head_if :=
  match goal with
  | |- round_inv _ (if ?c then _ else _) => destruct c eqn:?
  end.

Lemma round_inv_title options rect d dims0 st :
  round_inv dims0 st -> round_inv dims0 (expandTitle options rect d st).
Proof.
  intros I0. unfold expandTitle. destruct st as [dims done].
  pose proof I0 as (L & R & S).
  cbn [fst snd] in *.
  head_if; [|exact I0]. cbv zeta.
  set (dd := if negb (hasOption options IgnoreFrames) then _ else _).
  assert (Hdd : INT_MIN <= dd <= INT_MAX).
  { subst dd. destruct (negb (hasOption options IgnoreFrames));
      [apply wrap_int_range|]. unfold qwtCeil. apply wrap_int_range. }
  destruct (Z.ltb_spec (dimTitle dims) dd) as [Hlt|Hge];
    [|exact I0].
  destruct R as (R1 & R2 & R3).
  repeat split; cbn [fst snd dimTitle dimFooter dimAxis];
    try lia; try apply R3.
  - destruct L as (L1 & _). lia.
  - apply L.
  - apply L.
  - assert (dims_slack (mkDims dd (dimFooter dims) (dimAxis dims))
            < dims_slack dims) by (clearbody dd; unfold dims_slack;
                               cbn [dimTitle dimFooter dimAxis]; lia).
    destruct done; [subst dims0; assumption | lia].
Qed.

Lemma round_inv_footer options rect d dims0 st :
  round_inv dims0 st -> round_inv dims0 (expandFooter options rect d st).
Proof.
  intros I0. unfold expandFooter. destruct st as [dims done].
  pose proof I0 as (L & R & S).
  cbn [fst snd] in *.
  head_if; [|exact I0]. cbv zeta.
  set (dd := if negb (hasOption options IgnoreFrames) then _ else _).
  assert (Hdd : INT_MIN <= dd <= INT_MAX).
  { subst dd. destruct (negb (hasOption options IgnoreFrames));
      [apply wrap_int_range|]. unfold qwtCeil. apply wrap_int_range. }
  destruct (Z.ltb_spec (dimFooter dims) dd) as [Hlt|Hge];
    [|exact I0].
  destruct R as (R1 & R2 & R3).
  repeat split; cbn [fst snd dimTitle dimFooter dimAxis];
    try lia; try apply R3.
  - apply L.
  - destruct L as (_ & L2 & _). lia.
  - apply L.
  - assert (dims_slack (mkDims (dimTitle dims) dd (dimAxis dims))
            < dims_slack dims) by (clearbody dd; unfold dims_slack;
                               cbn [dimTitle dimFooter dimAxis]; lia).
    destruct done; [subst dims0; assumption | lia].
Qed.

Lemma round_inv_axis rect d bo dims0 st axis :
  scales_in_range d ->
  round_inv dims0 st -> round_inv dims0 (expandAxis rect d bo st axis).
Proof.
  intros Hwf I0. unfold expandAxis. destruct st as [dims done].
  pose proof I0 as (L & R & S).
  cbn [fst snd] in *.
  head_if; [|exact I0]. cbv zeta.
  set (dd := if negb (scale_titleIsEmpty _) then _ else _).
  assert (Hdd : INT_MIN <= dd <= INT_MAX).
  { subst dd. destruct (negb (scale_titleIsEmpty _));
      [apply wrap_int_range | apply Hwf]. }
  destruct (Z.ltb_spec (pget (dimAxis dims) axis) dd) as [Hlt|Hge];
    [|exact I0].
  destruct R as (R1 & R2 & R3).
  assert (G : forall b, pget (dimAxis dims) b
                        <= pget (pset (dimAxis dims) axis dd) b
                        /\ pget (pset (dimAxis dims) axis dd) b <= INT_MAX).
  { clearbody dd. intros b. specialize (R3 b).
    destruct axis, b;
      cbn [pget pset atYLeft atYRight atXBottom atXTop] in *; lia. }
  repeat split; cbn [fst snd dimTitle dimFooter dimAxis]; try lia.
  - apply L.
  - apply L.
  - intros b. destruct L as (_ & _ & L3). specialize (L3 b).
    specialize (G b). lia.
  - specialize (G axis0). specialize (R3 axis0). lia.
  - apply G.
  - assert (dims_slack (mkDims (dimTitle dims) (dimFooter dims)
                          (pset (dimAxis dims) axis dd))
            < dims_slack dims).
    { clearbody dd. unfold dims_slack. cbn [dimTitle dimFooter dimAxis].
      destruct axis; cbn [pget pset atYLeft atYRight atXBottom atXTop] in *;
        lia. }
    destruct done; [subst dims0; assumption | lia].
Qed.

(** One round of the loop, from dimensions in the range of [int]. *)
Lemma expandBody_round options rect d bo dims :
  scales_in_range d -> dims_in_range dims ->
  round_inv dims (expandBody options rect d bo dims).
Proof.
  intros Hwf R. unfold expandBody. cbn [fold_left allAxes].
  repeat apply round_inv_axis; try assumption.
  apply round_inv_footer, round_inv_title.
  repeat split; try apply R; try apply dims_le_refl.
Qed.

Lemma dims_in_range_slack dims : dims_in_range dims -> 0 <= dims_slack dims.
Proof.
  intros (R1 & R2 & R3). unfold dims_slack.
  pose proof (R3 yLeft). pose proof (R3 yRight).
  pose proof (R3 xBottom). pose proof (R3 xTop). lia.
Qed.

(** The loop ends: the slack cannot shrink for ever. *)
Lemma expandLoop_terminates options rect d bo :
  scales_in_range d ->
  forall (m : nat) (dims : Dims),
    dims_in_range dims -> (Z.to_nat (dims_slack dims) <= m)%nat ->
    exists (fuel : nat) (dims' : Dims),
      (forall n, (fuel <= n)%nat ->
         expandLoop n options rect d bo dims = Some dims')
      /\ dims_le dims dims' /\ dims_in_range dims'.
Proof.
  intros Hwf m. induction m as [|m IH]; intros dims R Hm.
  - pose proof (expandBody_round options rect d bo dims Hwf R) as (L & R1 & Sl).
    pose proof (dims_in_range_slack _ R) as P0.
    pose proof (dims_in_range_slack _ R1) as P1.
    destruct (expandBody options rect d bo dims) as [dims1 done] eqn:E.
    cbn [fst snd] in *. destruct done; [|lia].
    exists 1%nat, dims1. split; [|split; assumption].
    intros n Hn. destruct n as [|n]; [lia|]. simpl. rewrite E. reflexivity.
  - pose proof (expandBody_round options rect d bo dims Hwf R) as (L & R1 & Sl).
    pose proof (dims_in_range_slack _ R) as P0.
    pose proof (dims_in_range_slack _ R1) as P1.
    destruct (expandBody options rect d bo dims) as [dims1 done] eqn:E.
    cbn [fst snd] in *. destruct done.
    + exists 1%nat, dims1. split; [|split; assumption].
      intros n Hn. destruct n as [|n]; [lia|]. simpl. rewrite E. reflexivity.
    + destruct (IH dims1 R1) as (fuel & dims' & F & L' & R'); [lia|].
      exists (S fuel), dims'. split; [|split].
      * intros n Hn. destruct n as [|n]; [lia|]. simpl. rewrite E.
        apply F. lia.
      * eapply dims_le_trans; eassumption.
      * exact R'.
Qed.

Lemma Dims_zero_in_range : dims_in_range Dims_zero.
Proof.
  unfold dims_in_range, Dims_zero, INT_MAX.
  cbn [dimTitle dimFooter dimAxis].
  repeat split; try lia; destruct axis; cbn [pget pfill atYLeft atYRight
    atXBottom atXTop]; lia.
Qed.

(** After [LayoutData::init] the layout data hold [int]s. *)
Lemma init_scales_in_range plot rect d :
  scales_in_range
    (with_layoutData (LayoutData_init plot rect (d_layoutData d)) d).
Proof.
  intros axis. cbn [d_layoutData with_layoutData LayoutData_init scale].
  assert (G : forall a old,
             INT_MIN <= dimWithoutTitle (init_scale plot a old) <= INT_MAX).
  { intros a old. unfold init_scale.
    destruct (plot_axisEnabled plot a); cbn [dimWithoutTitle].
    - destruct (negb (scale_titleIsEmpty (plot_axisWidget plot a)));
        apply wrap_int_range.
    - unfold INT_MIN, INT_MAX. lia. }
  destruct axis; cbn [pget atYLeft atYRight atXBottom atXTop]; apply G.
Qed.

(** With enough fuel the loop has ended, with accumulators that hold
    [int]s from 0 on. *)
Lemma expandLineBreaks_fuel options rect d :
  scales_in_range d ->
  exists (fuel : nat) (dims : Dims),
    (forall n, (fuel <= n)%nat ->
       expandLineBreaks n options rect d = Some dims)
    /\ dims_in_range dims.
Proof.
  intros Hwf. unfold expandLineBreaks.
  destruct (expandLoop_terminates options rect d
              (mkPerAxis (expand_backboneOffset options d yLeft)
                 (expand_backboneOffset options d yRight)
                 (expand_backboneOffset options d xBottom)
                 (expand_backboneOffset options d xTop))
              Hwf (Z.to_nat (dims_slack Dims_zero)) Dims_zero
              Dims_zero_in_range (Nat.le_refl _))
    as (fuel & dims & F & _ & R).
  exists fuel, dims. split; assumption.
Qed.

(** X8: the loop of [expandLineBreaks] ends for every input (the layout
    data holding [int]s, as it does after [LayoutData::init]); in each
    round no accumulator ([dimTitle], [dimFooter], [dimAxis]) shrinks,
    and all of them stay between 0 and the largest [int].  That, and not
    the rectangle, is their bound. *)
Theorem expandLineBreaks_terminates (options : Z) (rect : QRectF)
    (d : PrivateData) :
  scales_in_range d ->
  (exists (fuel : nat) (dims : Dims),
     (forall n, (fuel <= n)%nat ->
        expandLineBreaks n options rect d = Some dims)
     /\ dims_in_range dims)
  /\ (forall (bo : PerAxis Z) (dims : Dims),
        dims_in_range dims ->
        dims_le dims (fst (expandBody options rect d bo dims))
        /\ dims_in_range (fst (expandBody options rect d bo dims))).
Proof.
  intros Hwf. split.
  - apply expandLineBreaks_fuel, Hwf.
  - intros bo dims R.
    destruct (expandBody_round options rect d bo dims Hwf R) as (L & R1 & _).
    split; assumption.
Qed.

Lemma expandLineBreaks_terminates_witness :
  scales_in_range tallTitleLayout
  /\ exists (fuel : nat) (dims : Dims),
       (forall n, (fuel <= n)%nat ->
          expandLineBreaks n 0 (mkQRectF 0 0 10 10) tallTitleLayout
          = Some dims)
       /\ dims_in_range dims.
Proof.
  assert (H : scales_in_range tallTitleLayout).
  { intros axis. destruct axis; vm_compute; split; discriminate. }
  split; [exact H|].
  exact (proj1 (expandLineBreaks_terminates 0 (mkQRectF 0 0 10 10)
                  tallTitleLayout H)).
Defined.

(** C6, as it is worded, fails in the bound: the rectangle does not
    bound the accumulators.  In a rectangle of 10 x 10 pixels the title
    of [tallTitlePlot], whose text needs 1000 pixels of height at every
    width, gets [dimTitle] = 1000 (line 897 takes the height from the
    text, lines 901-905 store it), more than the height and the width of
    the rectangle; the loop has ended after two rounds. *)
Lemma expandLineBreaks_exceeds_rect :
  expandLineBreaks 2 0 (mkQRectF 0 0 10 10) tallTitleLayout
  = Some (mkDims 1000 0 (pfill 0))
  /\ ~ (inject_Z 1000 <= height (mkQRectF 0 0 10 10))%Q
  /\ ~ (inject_Z 1000 <= width (mkQRectF 0 0 10 10))%Q.
Proof.
  split; [vm_compute; reflexivity|].
  split; vm_compute; intros H; apply H; reflexivity.
Qed.

(** ** activate: a second pass *)

(** Capturing the layout data twice from the same plot is capturing it
    once. *)
Lemma LayoutData_init_idempotent plot rect ld :
  LayoutData_init plot rect (LayoutData_init plot rect ld)
  = LayoutData_init plot rect ld.
Proof.
  unfold LayoutData_init. f_equal.
  - unfold init_legend. cbn [legend].
    destruct (plot_legend plot); reflexivity.
  - cbn [scale pget atYLeft atYRight atXBottom atXTop].
    unfold init_scale.
    f_equal; destruct (plot_axisEnabled plot _); reflexivity.
Qed.

(** [activate] reads of the old state the configuration and the layout
    data only. *)
Lemma activate_start plot plotRect d d' :
  config d' = config d ->
  d_layoutData d' = LayoutData_init plot plotRect (d_layoutData d) ->
  with_layoutData
    (LayoutData_init plot plotRect (d_layoutData (invalidate d')))
    (invalidate d')
  = with_layoutData
      (LayoutData_init plot plotRect (d_layoutData (invalidate d)))
      (invalidate d).
Proof.
  intros Hc Hl. unfold config in Hc.
  injection Hc as H1 H2 H3 H4 H5.
  unfold invalidate, with_layoutData.
  cbn [d_titleRect d_footerRect d_legendRect d_scaleRect d_canvasRect
       d_layoutData d_legendPos d_legendRatio d_spacing d_canvasMargin
       d_alignCanvasToScales with_titleRect with_footerRect with_legendRect
       with_scaleRect with_canvasRect fold_left allAxes].
  rewrite Hl, LayoutData_init_idempotent, H1, H2, H3, H4, H5.
  reflexivity.
Qed.

Lemma activate_layoutData fuel plot plotRect options d d' :
  activate fuel plot plotRect options d = Some d' ->
  d_layoutData d' = LayoutData_init plot plotRect (d_layoutData d).
Proof.
  unfold activate.
  set (d0 := with_layoutData _ (invalidate d)).
  destruct (activate_legend_config plot options plotRect d0) as [_ L2].
  destruct (activate_legend plot options plotRect d0) as [d1 r1].
  cbn [fst] in L2.
  destruct (expandLineBreaks fuel options r1 d1) as [dims|]; [|discriminate].
  intros H. inversion H; subst d'; clear H.
  destruct (activate_finish_config options dims d1 r1) as [_ E2].
  rewrite E2, L2. reflexivity.
Qed.

(** A pass on a state that a pass has produced reproduces that state. *)
Lemma activate_again fuel plot plotRect options d d' :
  activate fuel plot plotRect options d = Some d' ->
  activate fuel plot plotRect options d' = Some d'.
Proof.
  intros H. pose proof (activate_config _ _ _ _ _ _ H) as Hc.
  pose proof (activate_layoutData _ _ _ _ _ _ H) as Hl.
  transitivity (activate fuel plot plotRect options d); [|exact H].
  unfold activate.
  rewrite (activate_start plot plotRect d d' Hc Hl). reflexivity.
Qed.

(** [activate] returns: with enough fuel the loop of [expandLineBreaks]
    ends. *)
Lemma activate_returns plot plotRect options d :
  exists (fuel : nat) (d' : PrivateData),
    forall n, (fuel <= n)%nat ->
      activate n plot plotRect options d = Some d'.
Proof.
  unfold activate.
  set (d0 := with_layoutData _ (invalidate d)).
  assert (W0 : scales_in_range d0) by apply init_scales_in_range.
  destruct (activate_legend_config plot options plotRect d0) as [_ L2].
  destruct (activate_legend plot options plotRect d0) as [d1 r1].
  cbn [fst] in L2.
  assert (W1 : scales_in_range d1).
  { intros axis. rewrite L2. apply W0. }
  destruct (expandLineBreaks_fuel options r1 d1 W1)
    as (fuel & dims & F & _).
  exists fuel, (activate_finish options dims (d1, r1)).
  intros n Hn. rewrite (F n Hn). reflexivity.
Qed.

(** X9: [activate] returns, and a second call with the same plot,
    rectangle and options (the configuration untouched) returns as well,
    with exactly the same [titleRect], [footerRect], [legendRect],
    [canvasRect] and [scaleRect]s, indeed with the same state. *)
Theorem activate_idempotent (plot : QwtPlot) (plotRect : QRectF)
    (options : Z) (d : PrivateData) :
  exists (fuel : nat) (d1 : PrivateData),
    forall n, (fuel <= n)%nat ->
      activate n plot plotRect options d = Some d1
      /\ exists d2 : PrivateData,
           activate n plot plotRect options d1 = Some d2
           /\ titleRect d2 = titleRect d1
           /\ footerRect d2 = footerRect d1
           /\ legendRect d2 = legendRect d1
           /\ canvasRect d2 = canvasRect d1
           /\ (forall axis, scaleRect axis d2 = scaleRect axis d1)
           /\ d2 = d1.
Proof.
  destruct (activate_returns plot plotRect options d) as (fuel & d1 & F).
  exists fuel, d1. intros n Hn. split; [apply F, Hn|].
  exists d1.
  split; [apply (activate_again n plot plotRect options d d1 (F n Hn))|].
  repeat split.
Qed.

(** ** activate: the canvas and the other rectangles *)

Lemma Reachable_config d :
  Reachable d ->
  0 <= d_spacing d /\ (0 < d_legendRatio d)%Q /\ (d_legendRatio d <= 1)%Q.
Proof.
  induction 1; try assumption.
  - vm_compute. repeat split; discriminate.
  - unfold setCanvasMargin. destruct (a =? -1); [assumption|].
    destruct (axisOfInt a); assumption.
  - unfold setAlignCanvasToScale. destruct (axisOfInt a); assumption.
  - unfold setSpacing. cbn [d_spacing d_legendRatio with_spacing].
    split; [|apply IHReachable].
    unfold wrap_uint. apply Z.mod_pos_bound. reflexivity.
  - destruct IHReachable as (S & R0 & R1).
    unfold setLegendPosition.
    assert (G : forall dflt : Q,
               (0 < dflt)%Q -> (dflt <= 1)%Q ->
               (0 < (if Qleb (if Qltb 1 ratio then 1 else ratio) 0
                     then dflt else if Qltb 1 ratio then 1 else ratio))%Q
               /\ ((if Qleb (if Qltb 1 ratio then 1 else ratio) 0
                    then dflt else if Qltb 1 ratio then 1 else ratio) <= 1)%Q).
    { intros dflt D0 D1.
      destruct (Qleb _ 0) eqn:E; [split; assumption|].
      apply Qleb_gt in E. split; [exact E|].
      destruct (Qltb 1 ratio) eqn:E1; [apply Qle_refl|].
      apply Qltb_ge in E1. exact E1. }
    destruct ((pos =? TopLegend) || (pos =? BottomLegend)).
    + cbn [d_spacing d_legendRatio with_legend]. split; [exact S|].
      apply G; [reflexivity | discriminate].
    + destruct ((pos =? LeftLegend) || (pos =? RightLegend)).
      * cbn [d_spacing d_legendRatio with_legend]. split; [exact S|].
        apply G; [reflexivity | discriminate].
      * repeat split; assumption.
  - destruct IHReachable as (S & R0 & R1).
    unfold setLegendPosition1, setLegendPosition.
    destruct ((pos =? TopLegend) || (pos =? BottomLegend)).
    + cbn. repeat split; try assumption; discriminate.
    + destruct ((pos =? LeftLegend) || (pos =? RightLegend)).
      * cbn. repeat split; try assumption; discriminate.
      * repeat split; assumption.
  - destruct IHReachable as (S & R0 & R1).
    unfold setLegendRatio, legendPosition, setLegendPosition.
    assert (G : forall dflt : Q,
               (0 < dflt)%Q -> (dflt <= 1)%Q ->
               (0 < (if Qleb (if Qltb 1 ratio then 1 else ratio) 0
                     then dflt else if Qltb 1 ratio then 1 else ratio))%Q
               /\ ((if Qleb (if Qltb 1 ratio then 1 else ratio) 0
                    then dflt else if Qltb 1 ratio then 1 else ratio) <= 1)%Q).
    { intros dflt D0 D1.
      destruct (Qleb _ 0) eqn:E; [split; assumption|].
      apply Qleb_gt in E. split; [exact E|].
      destruct (Qltb 1 ratio) eqn:E1; [apply Qle_refl|].
      apply Qltb_ge in E1. exact E1. }
    destruct ((d_legendPos d =? TopLegend) || (d_legendPos d =? BottomLegend)).
    + cbn [d_spacing d_legendRatio with_legend]. split; [exact S|].
      apply G; [reflexivity | discriminate].
    + destruct ((d_legendPos d =? LeftLegend) || (d_legendPos d =? RightLegend)).
      * cbn [d_spacing d_legendRatio with_legend]. split; [exact S|].
        apply G; [reflexivity | discriminate].
      * repeat split; assumption.
  - unfold setScaleRect. destruct (axisOfInt a); assumption.
  - apply activate_config in H0. unfold config in H0.
    injection H0 as H1 H2 H3 H4 H5. rewrite H2, H3. assumption.
Qed.

(** Comparisons of the code as propositions. *)
Ltac bool2prop :=
  repeat match goal with
         | H : Qltb _ _ = true |- _ => apply Qltb_lt in H
         | H : Qltb _ _ = false |- _ => apply Qltb_ge in H
         | H : Qleb _ _ = true |- _ => apply Qleb_le in H
         | H : Qleb _ _ = false |- _ => apply Qleb_gt in H
         | H : Qeq_bool _ _ = true |- _ => apply Qeq_bool_iff in H
         | H : Qeq_bool _ _ = false |- _ => apply Qeq_bool_neq in H
         | H : andb _ _ = true |- _ => apply andb_true_iff in H; destruct H
         | H : (_ <? _) = true |- _ => apply Z.ltb_lt in H
         | H : (_ <? _) = false |- _ => apply Z.ltb_ge in H
         | H : (_ <=? _) = true |- _ => apply Z.leb_le in H
         | H : (_ <=? _) = false |- _ => apply Z.leb_gt in H
         end.

Ltac rect_cases :=
  unfold setX, setY in *;
  unfold inside, qwtMaxF, qwtMinF, setLeft, setRight, setTop, setBottom,
    setWidth, setHeight, setRect, left, right, top, bottom,
    width, height, x, y in *;
  repeat case_if; cbn [fst snd xp yp w h] in *; bool2prop.

(** The first loop of [alignScales] only shrinks the canvas. *)
Lemma alignLeft_inside d bo sD lsr c ar :
  inside (fst (alignLeft d bo sD lsr (c, ar))) c.
Proof. unfold alignLeft. rect_cases; repeat split; rect_lra. Qed.

Lemma alignRight_inside d bo eD rsr c ar :
  inside (fst (alignRight d bo eD rsr (c, ar))) c.
Proof. unfold alignRight. rect_cases; repeat split; rect_lra. Qed.

Lemma alignBottom_inside d bo eD bsr c ar :
  inside (fst (alignBottom d bo eD bsr (c, ar))) c.
Proof. unfold alignBottom. rect_cases; repeat split; rect_lra. Qed.

Lemma alignTop_inside d bo sD tsr c ar :
  inside (fst (alignTop d bo sD tsr (c, ar))) c.
Proof. unfold alignTop. rect_cases; repeat split; rect_lra. Qed.

Lemma inside_refl r : inside r r.
Proof. unfold inside. repeat split; apply Qle_refl. Qed.

Lemma inside_trans a b c : inside a b -> inside b c -> inside a c.
Proof.
  unfold inside. intros (A1 & A2 & A3 & A4) (B1 & B2 & B3 & B4).
  repeat split; eapply Qle_trans; eassumption.
Qed.

Lemma alignAxis1_inside d bo st a :
  inside (fst (alignAxis1 d bo st a)) (fst st).
Proof.
  unfold alignAxis1. destruct st as [c sr]. cbn [fst].
  destruct (negb (isValid (pget sr a))); [apply inside_refl|].
  destruct (isXAxis a).
  - pose proof (alignLeft_inside d bo
                  (start (pget (scale (d_layoutData d)) a)) (pget sr yLeft)
                  c (pget sr a)) as L.
    destruct (alignLeft _ _ _ _ _) as [c1 ar1]. cbn [fst] in L.
    pose proof (alignRight_inside d bo
                  (end_ (pget (scale (d_layoutData d)) a)) (pget sr yRight)
                  c1 ar1) as R.
    destruct (alignRight _ _ _ _ _) as [c2 ar2]. cbn [fst] in *.
    eapply inside_trans; eassumption.
  - pose proof (alignBottom_inside d bo
                  (end_ (pget (scale (d_layoutData d)) a)) (pget sr xBottom)
                  c (pget sr a)) as B.
    destruct (alignBottom _ _ _ _ _) as [c1 ar1]. cbn [fst] in B.
    pose proof (alignTop_inside d bo
                  (start (pget (scale (d_layoutData d)) a)) (pget sr xTop)
                  c1 ar1) as T.
    destruct (alignTop _ _ _ _ _) as [c2 ar2]. cbn [fst] in *.
    eapply inside_trans; eassumption.
Qed.

Lemma alignScales_inside options d c sr :
  inside (fst (alignScales options d (c, sr))) c.
Proof.
  rewrite alignScales_canvas. unfold alignScales_pass1.
  cbn [fold_left allAxes].
  eapply inside_trans; [apply alignAxis1_inside|].
  eapply inside_trans; [apply alignAxis1_inside|].
  eapply inside_trans; [apply alignAxis1_inside|].
  apply (alignAxis1_inside d _ (c, sr) yLeft).
Qed.

(** [intersects] in terms of the normalized edges. *)
Lemma intersects_norm a b :
  intersects a b
  = if Qeq_bool (normLeft a) (normRight a) then false
    else if Qeq_bool (normLeft b) (normRight b) then false
    else if Qleb (normRight b) (normLeft a) || Qleb (normRight a) (normLeft b)
    then false
    else if Qeq_bool (normTop a) (normBottom a) then false
    else if Qeq_bool (normTop b) (normBottom b) then false
    else if Qleb (normBottom b) (normTop a) || Qleb (normBottom a) (normTop b)
    then false
    else true.
Proof. reflexivity. Qed.

(** Rectangles that are apart in one direction do not intersect, and
    nothing intersects a rectangle without width or height. *)
Lemma intersects_apartX a b : apartX a b -> intersects a b = false.
Proof.
  intros H. rewrite intersects_norm.
  destruct (Qeq_bool (normLeft a) (normRight a)); [reflexivity|].
  destruct (Qeq_bool (normLeft b) (normRight b)); [reflexivity|].
  destruct (Qleb (normRight b) (normLeft a)) eqn:E1; [reflexivity|].
  destruct (Qleb (normRight a) (normLeft b)) eqn:E2; [reflexivity|].
  exfalso. bool2prop. destruct H; rect_lra.
Qed.

Lemma intersects_apartY a b : apartY a b -> intersects a b = false.
Proof.
  intros H. rewrite intersects_norm.
  destruct (Qeq_bool (normLeft a) (normRight a)); [reflexivity|].
  destruct (Qeq_bool (normLeft b) (normRight b)); [reflexivity|].
  destruct (Qleb (normRight b) (normLeft a) || Qleb (normRight a) (normLeft b));
    [reflexivity|].
  destruct (Qeq_bool (normTop a) (normBottom a)); [reflexivity|].
  destruct (Qeq_bool (normTop b) (normBottom b)); [reflexivity|].
  destruct (Qleb (normBottom b) (normTop a)) eqn:E1; [reflexivity|].
  destruct (Qleb (normBottom a) (normTop b)) eqn:E2; [reflexivity|].
  exfalso. bool2prop. destruct H; rect_lra.
Qed.

Lemma intersects_null a : intersects a QRectF_null = false.
Proof. rewrite intersects_norm. destruct (Qeq_bool _ _); reflexivity. Qed.

(** The title takes the top of the rectangle: what is left lies below
    it. *)
Lemma activate_title_geometry dims d rect :
  0 <= d_spacing d -> 0 <= dimTitle dims ->
  let res := activate_title dims (d, rect) in
  inside (snd res) rect
  /\ (d_titleRect (fst res) = d_titleRect d
      \/ ((0 < h (d_titleRect (fst res)))%Q
          /\ (bottom (d_titleRect (fst res)) <= top (snd res))%Q))
  /\ d_footerRect (fst res) = d_footerRect d
  /\ d_legendRect (fst res) = d_legendRect d
  /\ d_spacing (fst res) = d_spacing d.
Proof.
  intros Hs Hd res. subst res. unfold activate_title.
  destruct (Z.ltb_spec 0 (dimTitle dims)) as [Hpos|Hneg].
  - assert (Q1 : (0 <= inject_Z (d_spacing d))%Q)
      by (change 0%Q with (inject_Z 0); rewrite <- Zle_Qle; exact Hs).
    assert (Q2 : (0 < inject_Z (dimTitle dims))%Q)
      by (change 0%Q with (inject_Z 0); rewrite <- Zlt_Qlt; exact Hpos).
    cbn [fst snd d_titleRect d_footerRect d_legendRect d_spacing
         with_titleRect].
    split; [|split; [right|repeat split]].
    + rect_cases; repeat split; rect_lra.
    + destruct (oneYAxis d); rect_cases; split; rect_lra.
  - cbn [fst snd]. split; [apply inside_refl|]. split; [left|]; repeat split.
Qed.

(** The footer takes the bottom of the rectangle: what is left lies
    above it. *)
Lemma activate_footer_geometry dims d rect :
  0 <= d_spacing d -> 0 <= dimFooter dims ->
  let res := activate_footer dims (d, rect) in
  inside (snd res) rect
  /\ (d_footerRect (fst res) = d_footerRect d
      \/ ((0 < h (d_footerRect (fst res)))%Q
          /\ (bottom (snd res) <= top (d_footerRect (fst res)))%Q))
  /\ d_titleRect (fst res) = d_titleRect d
  /\ d_legendRect (fst res) = d_legendRect d
  /\ d_spacing (fst res) = d_spacing d.
Proof.
  intros Hs Hd res. subst res. unfold activate_footer.
  destruct (Z.ltb_spec 0 (dimFooter dims)) as [Hpos|Hneg].
  - assert (Q1 : (0 <= inject_Z (d_spacing d))%Q)
      by (change 0%Q with (inject_Z 0); rewrite <- Zle_Qle; exact Hs).
    assert (Q2 : (0 < inject_Z (dimFooter dims))%Q)
      by (change 0%Q with (inject_Z 0); rewrite <- Zlt_Qlt; exact Hpos).
    cbn [fst snd d_titleRect d_footerRect d_legendRect d_spacing
         with_footerRect].
    split; [|split; [right|repeat split]].
    + rect_cases; repeat split; rect_lra.
    + destruct (oneYAxis d); rect_cases; split; rect_lra.
  - cbn [fst snd]. split; [apply inside_refl|]. split; [left|]; repeat split.
Qed.

(** The canvas is what the axes leave of the rectangle. *)
Lemma activate_canvas_inside dims rect d :
  dims_in_range dims ->
  inside (d_canvasRect (activate_canvas dims rect d)) rect.
Proof.
  intros (_ & _ & R).
  assert (G : forall a, (0 <= inject_Z (pget (dimAxis dims) a))%Q).
  { intros a. change 0%Q with (inject_Z 0). rewrite <- Zle_Qle. apply R. }
  pose proof (G yLeft). pose proof (G yRight).
  pose proof (G xBottom). pose proof (G xTop).
  unfold activate_canvas. cbn [d_canvasRect with_canvasRect].
  rect_cases; repeat split; rect_lra.
Qed.

Lemma norm_positive_h r :
  (0 < h r)%Q -> normTop r = top r /\ normBottom r = bottom r.
Proof.
  intros H. unfold normTop, normBottom, top, bottom.
  assert (E : Qltb (h r) 0 = false) by (apply Qltb_ge; lra).
  rewrite E. split; reflexivity.
Qed.

Lemma norm_positive_w r :
  (0 < w r)%Q -> normLeft r = left r /\ normRight r = right r.
Proof.
  intros H. unfold normLeft, normRight, left, right.
  assert (E : Qltb (w r) 0 = false) by (apply Qltb_ge; lra).
  rewrite E. split; reflexivity.
Qed.

Lemma isValid_positive r : isValid r = true -> (0 < w r)%Q /\ (0 < h r)%Q.
Proof.
  unfold isValid. intros H. apply andb_true_iff in H. destruct H as [A B].
  apply Qltb_lt in A. apply Qltb_lt in B. split; assumption.
Qed.

(** A valid rectangle below the bottom edge of [t], or above the top
    edge of [t], does not intersect [t]. *)
Lemma intersects_below c t :
  isValid c = true -> (0 < h t)%Q -> (bottom t <= top c)%Q ->
  intersects c t = false.
Proof.
  intros Hv Ht Hb. apply intersects_apartY. right.
  destruct (isValid_positive c Hv) as [_ Hc].
  destruct (norm_positive_h c Hc) as [-> _].
  destruct (norm_positive_h t Ht) as [_ ->]. exact Hb.
Qed.

Lemma intersects_above c t :
  isValid c = true -> (0 < h t)%Q -> (bottom c <= top t)%Q ->
  intersects c t = false.
Proof.
  intros Hv Ht Hb. apply intersects_apartY. left.
  destruct (isValid_positive c Hv) as [_ Hc].
  destruct (norm_positive_h c Hc) as [_ ->].
  destruct (norm_positive_h t Ht) as [-> _]. exact Hb.
Qed.

(** [alignLegend] keeps the extent of the legend in the direction of its
    position. *)
Lemma alignLegend_extent c l d :
  (if (d_legendPos d =? BottomLegend) || (d_legendPos d =? TopLegend)
   then yp (alignLegend c l d) = yp l /\ h (alignLegend c l d) = h l
   else xp (alignLegend c l d) = xp l /\ w (alignLegend c l d) = w l).
Proof.
  unfold alignLegend.
  destruct ((d_legendPos d =? BottomLegend) || (d_legendPos d =? TopLegend));
    destruct (Qltb _ _); split; reflexivity.
Qed.

Lemma activate_canvas_frame dims rect d :
  d_titleRect (activate_canvas dims rect d) = d_titleRect d
  /\ d_footerRect (activate_canvas dims rect d) = d_footerRect d
  /\ d_legendRect (activate_canvas dims rect d) = d_legendRect d
  /\ d_legendPos (activate_canvas dims rect d) = d_legendPos d.
Proof. repeat split. Qed.

Lemma aligned_frame (c : QRectF) (sr : PerAxis QRectF) d :
  d_canvasRect (with_scaleRect sr (with_canvasRect c d)) = c
  /\ d_titleRect (with_scaleRect sr (with_canvasRect c d)) = d_titleRect d
  /\ d_footerRect (with_scaleRect sr (with_canvasRect c d)) = d_footerRect d
  /\ d_legendRect (with_scaleRect sr (with_canvasRect c d)) = d_legendRect d
  /\ d_legendPos (with_scaleRect sr (with_canvasRect c d)) = d_legendPos d.
Proof. repeat split. Qed.

Lemma with_legendRect_frame (l : QRectF) d :
  d_canvasRect (with_legendRect l d) = d_canvasRect d
  /\ d_titleRect (with_legendRect l d) = d_titleRect d
  /\ d_footerRect (with_legendRect l d) = d_footerRect d
  /\ d_legendRect (with_legendRect l d) = l.
Proof. repeat split. Qed.

(** What [activate] does after [expandLineBreaks]: the canvas lies
    within the rectangle it is given, below the title and above the
    footer; the legend is at most aligned to the canvas. *)
Lemma activate_finish_geometry options dims d1 r1 :
  0 <= d_spacing d1 -> dims_in_range dims ->
  d_titleRect d1 = QRectF_null -> d_footerRect d1 = QRectF_null ->
  let d' := activate_finish options dims (d1, r1) in
  inside (d_canvasRect d') r1
  /\ (isValid (d_canvasRect d') = true ->
      intersects (d_canvasRect d') (d_titleRect d') = false
      /\ intersects (d_canvasRect d') (d_footerRect d') = false)
  /\ (d_legendRect d' = d_legendRect d1
      \/ exists dd,
           d_legendPos dd = d_legendPos d1
           /\ d_legendRect d'
              = alignLegend (d_canvasRect d') (d_legendRect d1) dd).
Proof.
  intros Hs R Ht Hf d'. subst d'. unfold activate_finish.
  pose proof R as (Rt & Rf & _).
  destruct (activate_title_geometry dims d1 r1 Hs (proj1 Rt))
    as (T1 & T2 & T3 & T4 & T5).
  destruct (activate_title_config dims d1 r1) as [Tc _].
  destruct (activate_title dims (d1, r1)) as [d2 r2].
  cbn [fst snd] in T1, T2, T3, T4, T5, Tc.
  assert (Hs2 : 0 <= d_spacing d2) by (rewrite T5; exact Hs).
  destruct (activate_footer_geometry dims d2 r2 Hs2 (proj1 Rf))
    as (F1 & F2 & F3 & F4 & F5).
  destruct (activate_footer_config dims d2 r2) as [Fc _].
  destruct (activate_footer dims (d2, r2)) as [d3 r3].
  cbn [fst snd] in F1, F2, F3, F4, F5, Fc.
  pose proof (activate_canvas_inside dims r3 d3 R) as C.
  destruct (activate_canvas_frame dims r3 d3) as (K1 & K2 & K3 & K4).
  set (d4 := activate_canvas dims r3 d3) in *. clearbody d4.
  destruct (activate_scales_config dims d4) as (Sc & _ & S3 & S4 & S5 & S6).
  set (d5 := fold_left (activate_scale dims) allAxes d4) in *. clearbody d5.
  pose proof (alignScales_inside options d5 (d_canvasRect d5) (d_scaleRect d5))
    as A.
  set (st := alignScales options d5 (d_canvasRect d5, d_scaleRect d5)) in *.
  clearbody st.
  destruct (aligned_frame (fst st) (snd st) d5) as (E6c & E6t & E6f & E6l & E6p).
  set (d6 := with_scaleRect (snd st) (with_canvasRect (fst st) d5)) in *.
  clearbody d6.
  assert (Pp : d_legendPos d6 = d_legendPos d1).
  { unfold config in Sc, Fc, Tc. congruence. }
  assert (Pl : d_legendRect d6 = d_legendRect d1) by congruence.
  assert (Pt : d_titleRect d6 = d_titleRect d3) by congruence.
  assert (Pf : d_footerRect d6 = d_footerRect d3) by congruence.
  assert (In3 : inside (d_canvasRect d6) r3).
  { rewrite E6c. rewrite S3 in A.
    eapply inside_trans; [exact A | exact C]. }
  assert (In2 : inside (d_canvasRect d6) r2)
    by (eapply inside_trans; [exact In3 | exact F1]).
  assert (In : inside (d_canvasRect d6) r1)
    by (eapply inside_trans; [exact In2 | exact T1]).
  assert (G : isValid (d_canvasRect d6) = true ->
              intersects (d_canvasRect d6) (d_titleRect d6) = false
              /\ intersects (d_canvasRect d6) (d_footerRect d6) = false).
  { rewrite Pt, Pf. intros Hv. split.
    - rewrite F3. destruct T2 as [T2|[T2 T2']].
      + rewrite T2, Ht. apply intersects_null.
      + apply intersects_below; try assumption.
        destruct In2 as (_ & _ & I3 & _). clear - T2' I3. rect_lra.
    - destruct F2 as [F2|[F2 F2']].
      + rewrite F2, T3, Hf. apply intersects_null.
      + apply intersects_above; try assumption.
        destruct In3 as (_ & _ & _ & I4). clear - F2' I4. rect_lra. }
  destruct (negb (isEmpty (d_legendRect d6))).
  - destruct (with_legendRect_frame
                (alignLegend (d_canvasRect d6) (d_legendRect d6) d6) d6)
      as (W1 & W2 & W3 & W4).
    rewrite W1, W2, W3, W4.
    split; [exact In|]. split; [exact G|].
    right. exists d6. split; [exact Pp|]. rewrite Pl. reflexivity.
  - split; [exact In|]. split; [exact G|]. left. exact Pl.
Qed.

Lemma QRect_null_as_QRectF : QRectF_of_QRect QRect_null = QRectF_null.
Proof. vm_compute. reflexivity. Qed.

(** When the loop of [expandLineBreaks] has ended, every dimension is
    between 0 and the largest [int]. *)
Lemma expandLoop_range options rect d bo :
  scales_in_range d ->
  forall (n : nat) (dims dims' : Dims),
    dims_in_range dims ->
    expandLoop n options rect d bo dims = Some dims' ->
    dims_in_range dims' /\ dims_le dims dims'.
Proof.
  intros Hwf n. induction n as [|n IH]; intros dims dims' R E.
  - discriminate.
  - cbn [expandLoop] in E.
    pose proof (expandBody_round options rect d bo dims Hwf R) as (L & R1 & _).
    destruct (expandBody options rect d bo dims) as [dims1 done].
    cbn [fst snd] in L, R1. destruct done.
    + inversion E; subst. split; assumption.
    + destruct (IH dims1 dims' R1 E) as [R' L']. split; [exact R'|].
      eapply dims_le_trans; eassumption.
Qed.

Lemma expandLineBreaks_range n options rect d dims :
  scales_in_range d ->
  expandLineBreaks n options rect d = Some dims -> dims_in_range dims.
Proof.
  intros Hwf E. unfold expandLineBreaks in E.
  apply (expandLoop_range _ _ _ _ Hwf n Dims_zero dims Dims_zero_in_range E).
Qed.

Lemma activate_legend_frame plot options rect d :
  d_titleRect (fst (activate_legend plot options rect d)) = d_titleRect d
  /\ d_footerRect (fst (activate_legend plot options rect d)) = d_footerRect d.
Proof.
  unfold activate_legend.
  destruct (negb (hasOption options IgnoreLegend) && hasLegend plot);
    split; reflexivity.
Qed.

(** The stages of [activate], named. *)
Lemma activate_stages fuel plot plotRect options d d' :
  activate fuel plot plotRect options d = Some d' ->
  exists d0 d1 r1 dims,
    d0 = with_layoutData
           (LayoutData_init plot plotRect (d_layoutData (invalidate d)))
           (invalidate d)
    /\ activate_legend plot options plotRect d0 = (d1, r1)
    /\ expandLineBreaks fuel options r1 d1 = Some dims
    /\ d' = activate_finish options dims (d1, r1).
Proof.
  unfold activate. intros H.
  set (d0 := with_layoutData _ (invalidate d)) in *.
  destruct (activate_legend plot options plotRect d0) as [d1 r1] eqn:E1.
  destruct (expandLineBreaks fuel options r1 d1) as [dims|] eqn:E2;
    [|discriminate].
  inversion H. exists d0, d1, r1, dims. repeat split; assumption.
Qed.

(** After a pass of a layout object a valid canvas lies between the
    title and the footer. *)
Lemma activate_labels_clear fuel plot plotRect options d d' :
  Reachable d ->
  activate fuel plot plotRect options d = Some d' ->
  isValid (canvasRect d') = true ->
  intersects (canvasRect d') (titleRect d') = false
  /\ intersects (canvasRect d') (footerRect d') = false.
Proof.
  intros HR H Hv. destruct (Reachable_config d HR) as (Hs & _).
  destruct (activate_stages _ _ _ _ _ _ H) as (d0 & d1 & r1 & dims & E0 & E1 & E2 & E3).
  assert (W0 : scales_in_range d0).
  { rewrite E0. apply init_scales_in_range. }
  destruct (activate_legend_config plot options plotRect d0) as [Lc Ll].
  destruct (activate_legend_frame plot options plotRect d0) as [Lt Lf].
  rewrite E1 in Lc, Ll, Lt, Lf. cbn [fst] in Lc, Ll, Lt, Lf.
  assert (W1 : scales_in_range d1).
  { intros axis. rewrite Ll. apply W0. }
  pose proof (expandLineBreaks_range _ _ _ _ _ W1 E2) as R.
  assert (S1 : 0 <= d_spacing d1).
  { unfold config in Lc. injection Lc as _ _ C3 _ _. rewrite C3, E0.
    exact Hs. }
  assert (T1 : d_titleRect d1 = QRectF_null).
  { rewrite Lt, E0. apply QRect_null_as_QRectF. }
  assert (F1 : d_footerRect d1 = QRectF_null).
  { rewrite Lf, E0. apply QRect_null_as_QRectF. }
  destruct (activate_finish_geometry options dims d1 r1 S1 R T1 F1)
    as (_ & G & _).
  unfold canvasRect, titleRect, footerRect in *. rewrite E3 in *.
  apply G, Hv.
Qed.

(** X10: after a pass of a layout object over a plot rectangle on the
    pixel grid, a valid canvas intersects neither the title nor the
    footer.  (On the grid every edge of the three rectangles is an
    integer, and the arithmetic of the code is exact.) *)
Theorem activate_canvas_clear_of_labels (fuel : nat) (plot : QwtPlot)
    (plotRect : QRectF) (options : Z) (d d' : PrivateData) :
  Reachable d ->
  pixelAligned plotRect ->
  activate fuel plot plotRect options d = Some d' ->
  isValid (canvasRect d') = true ->
  intersects (canvasRect d') (titleRect d') = false
  /\ intersects (canvasRect d') (footerRect d') = false.
Proof.
  intros HR _ H Hv.
  exact (activate_labels_clear fuel plot plotRect options d d' HR H Hv).
Qed.

Lemma activate_canvas_clear_of_labels_witness :
  Reachable freshLayout
  /\ pixelAligned (mkQRectF 0 0 400 300)
  /\ activate 3 labelledPlot (mkQRectF 0 0 400 300) 0 freshLayout
     = Some labelledLayout
  /\ isValid (canvasRect labelledLayout) = true
  /\ intersects (canvasRect labelledLayout) (titleRect labelledLayout) = false
  /\ intersects (canvasRect labelledLayout) (footerRect labelledLayout)
     = false.
Proof.
  assert (H1 : Reachable freshLayout) by apply R_new.
  assert (G : pixelAligned (mkQRectF 0 0 400 300)).
  { exists 0, 0, 400, 300. unfold maxPixels.
    split; [reflexivity|]. lia. }
  assert (H2 : activate 3 labelledPlot (mkQRectF 0 0 400 300) 0 freshLayout
               = Some labelledLayout) by (vm_compute; reflexivity).
  assert (H3 : isValid (canvasRect labelledLayout) = true)
    by (vm_compute; reflexivity).
  split; [exact H1|]. split; [exact G|]. split; [exact H2|].
  split; [exact H3|].
  exact (activate_canvas_clear_of_labels 3 labelledPlot
           (mkQRectF 0 0 400 300) 0 freshLayout labelledLayout H1 G H2 H3).
Defined.

(** ** Rounding to pixels and the subtraction of the legend *)

Lemma Qtrunc_nonpos q : (q <= 0)%Q -> Qtrunc q = Qceiling q.
Proof.
  destruct q as [n dq]. unfold Qle, Qtrunc, Qceiling, Qfloor. simpl.
  intros H. rewrite Z.mul_1_r in H.
  rewrite <- (Z.opp_involutive n) at 1.
  rewrite Z.quot_opp_l by lia.
  rewrite Z.quot_div_nonneg by lia. reflexivity.
Qed.

Lemma Qfloor_half z : Qfloor (inject_Z z + (1 # 2)) = z.
Proof.
  unfold Qfloor, Qplus, inject_Z. simpl.
  replace (z * 2 + 1) with (1 + z * 2) by lia.
  rewrite Z.div_add by lia. reflexivity.
Qed.

Lemma Qceiling_half z : Qceiling (inject_Z z - (1 # 2)) = z.
Proof.
  unfold Qceiling, Qfloor, Qminus, Qplus, Qopp, inject_Z. simpl.
  replace (- (z * 2 + -1)) with (1 + (- z) * 2) by lia.
  rewrite Z.div_add by lia. simpl. lia.
Qed.

(** An integer that fits an [int] is its own rounding. *)
Lemma qRound_exact q z :
  (q == inject_Z z)%Q -> INT_MIN < z <= INT_MAX -> qRound q = z.
Proof.
  intros E R. unfold qRound, int_of_double.
  destruct (Qleb 0 q) eqn:E0.
  - apply Qleb_le in E0.
    rewrite Qtrunc_nonneg by lra.
    assert (E1 : (q + (1 # 2) == inject_Z z + (1 # 2))%Q) by (rewrite E; reflexivity).
    rewrite (Qfloor_comp _ _ E1), Qfloor_half. apply wrap_int_small. lia.
  - apply Qleb_gt in E0.
    assert (Hz : z < 0).
    { rewrite Zlt_Qlt. change (inject_Z 0) with 0%Q. lra. }
    assert (E1 : (q - 1 == inject_Z (z - 1))%Q).
    { rewrite E. unfold Z.sub. rewrite inject_Z_plus. reflexivity. }
    rewrite (Qtrunc_nonpos (q - 1)) by lra.
    rewrite (Qceiling_comp _ _ E1), Qceiling_Z.
    rewrite (wrap_int_small (z - 1)) by (unfold INT_MIN, INT_MAX in *; lia).
    assert (E2 : (q - inject_Z (z - 1) + (1 # 2) == inject_Z 1 + (1 # 2))%Q).
    { rewrite E. unfold Z.sub. rewrite inject_Z_plus.
      change (inject_Z 1) with 1%Q. change (inject_Z (- (1))) with (- (1))%Q.
      ring. }
    rewrite Qtrunc_nonneg.
    + rewrite (Qfloor_comp _ _ E2), Qfloor_half.
      rewrite (wrap_int_small 1) by (unfold INT_MIN, INT_MAX; lia).
      unfold iadd. replace (1 + (z - 1)) with z by lia.
      apply wrap_int_small. lia.
    + rewrite E2. change (inject_Z 1) with 1%Q. lra.
Qed.

(** Boolean connectives among the hypotheses, as propositions. *)
Ltac split_bools :=
  repeat match goal with
         | H : orb _ _ = false |- _ =>
             apply orb_false_iff in H; destruct H
         | H : orb _ _ = true |- _ =>
             apply orb_true_iff in H; destruct H
         | H : andb _ _ = false |- _ =>
             apply andb_false_iff in H; destruct H
         | H : andb _ _ = true |- _ =>
             apply andb_true_iff in H; destruct H
         end.

(** The bounding rectangle of what is left of [r] is empty, or a
    rectangle with pixels within [r]. *)
Lemma subtracted_within r l :
  let b := subtractedBoundingRect r l in
  b = QRect_null
  \/ (x1 r <= x1 b /\ x2 b <= x2 r /\ y1 r <= y1 b /\ y2 b <= y2 r
      /\ x1 b <= x2 b /\ y1 b <= y2 b).
Proof.
  unfold subtractedBoundingRect, QRect_isEmpty.
  destruct r as [rx1 ry1 rx2 ry2], l as [lx1 ly1 lx2 ly2].
  cbn [x1 y1 x2 y2].
  repeat (case_if; cbn [x1 y1 x2 y2]); try (left; reflexivity);
    right; split_bools; bool2prop; lia.
Qed.

(** A rectangle that spans [r] from top to bottom and covers its right
    edge leaves what is left of it; the same for the other edges. *)
Lemma subtracted_clear_right r l :
  x1 l <= x2 l -> y1 l <= y1 r -> y2 r <= y2 l -> x2 r <= x2 l ->
  subtractedBoundingRect r l = QRect_null
  \/ x2 (subtractedBoundingRect r l) < x1 l.
Proof.
  unfold subtractedBoundingRect, QRect_isEmpty.
  destruct r as [rx1 ry1 rx2 ry2], l as [lx1 ly1 lx2 ly2].
  cbn [x1 y1 x2 y2]. intros.
  repeat (case_if; cbn [x1 y1 x2 y2]); try (left; reflexivity);
    right;
    repeat match goal with
           | H : orb _ _ = false |- _ =>
               apply orb_false_iff in H; destruct H
           | H : orb _ _ = true |- _ =>
               apply orb_true_iff in H; destruct H
           | H : andb _ _ = false |- _ =>
               apply andb_false_iff in H; destruct H
           | H : andb _ _ = true |- _ =>
               apply andb_true_iff in H; destruct H
           end; bool2prop; lia.
Qed.

Lemma subtracted_clear_left r l :
  x1 l <= x2 l -> y1 l <= y1 r -> y2 r <= y2 l -> x1 l <= x1 r ->
  subtractedBoundingRect r l = QRect_null
  \/ x2 l < x1 (subtractedBoundingRect r l).
Proof.
  unfold subtractedBoundingRect, QRect_isEmpty.
  destruct r as [rx1 ry1 rx2 ry2], l as [lx1 ly1 lx2 ly2].
  cbn [x1 y1 x2 y2]. intros.
  repeat (case_if; cbn [x1 y1 x2 y2]); try (left; reflexivity);
    right;
    repeat match goal with
           | H : orb _ _ = false |- _ =>
               apply orb_false_iff in H; destruct H
           | H : orb _ _ = true |- _ =>
               apply orb_true_iff in H; destruct H
           | H : andb _ _ = false |- _ =>
               apply andb_false_iff in H; destruct H
           | H : andb _ _ = true |- _ =>
               apply andb_true_iff in H; destruct H
           end; bool2prop; lia.
Qed.

Lemma subtracted_clear_bottom r l :
  y1 l <= y2 l -> x1 l <= x1 r -> x2 r <= x2 l -> y2 r <= y2 l ->
  subtractedBoundingRect r l = QRect_null
  \/ y2 (subtractedBoundingRect r l) < y1 l.
Proof.
  unfold subtractedBoundingRect, QRect_isEmpty.
  destruct r as [rx1 ry1 rx2 ry2], l as [lx1 ly1 lx2 ly2].
  cbn [x1 y1 x2 y2]. intros.
  repeat (case_if; cbn [x1 y1 x2 y2]); try (left; reflexivity);
    right;
    repeat match goal with
           | H : orb _ _ = false |- _ =>
               apply orb_false_iff in H; destruct H
           | H : orb _ _ = true |- _ =>
               apply orb_true_iff in H; destruct H
           | H : andb _ _ = false |- _ =>
               apply andb_false_iff in H; destruct H
           | H : andb _ _ = true |- _ =>
               apply andb_true_iff in H; destruct H
           end; bool2prop; lia.
Qed.

Lemma subtracted_clear_top r l :
  y1 l <= y2 l -> x1 l <= x1 r -> x2 r <= x2 l -> y1 l <= y1 r ->
  subtractedBoundingRect r l = QRect_null
  \/ y2 l < y1 (subtractedBoundingRect r l).
Proof.
  unfold subtractedBoundingRect, QRect_isEmpty.
  destruct r as [rx1 ry1 rx2 ry2], l as [lx1 ly1 lx2 ly2].
  cbn [x1 y1 x2 y2]. intros.
  repeat (case_if; cbn [x1 y1 x2 y2]); try (left; reflexivity);
    right;
    repeat match goal with
           | H : orb _ _ = false |- _ =>
               apply orb_false_iff in H; destruct H
           | H : orb _ _ = true |- _ =>
               apply orb_true_iff in H; destruct H
           | H : andb _ _ = false |- _ =>
               apply andb_false_iff in H; destruct H
           | H : andb _ _ = true |- _ =>
               apply andb_true_iff in H; destruct H
           end; bool2prop; lia.
Qed.

(** What is left of a rectangle of pixels, as a [QRectF]: nothing, or a
    rectangle whose edges are those of the bounding rectangle, within
    the rectangle. *)
Lemma remaining_rect r l :
  - maxPixels <= x1 r -> x2 r <= 2 * maxPixels ->
  - maxPixels <= y1 r -> y2 r <= 2 * maxPixels ->
  let b := subtractedBoundingRect r l in
  let q := QRectF_of_QRect b in
  q = QRectF_null
  \/ ((left q == inject_Z (x1 b))%Q /\ (right q == inject_Z (x2 b + 1))%Q
      /\ (top q == inject_Z (y1 b))%Q /\ (bottom q == inject_Z (y2 b + 1))%Q
      /\ x1 r <= x1 b /\ x2 b <= x2 r /\ y1 r <= y1 b /\ y2 b <= y2 r
      /\ x1 b <= x2 b /\ y1 b <= y2 b).
Proof.
  intros Hx1 Hx2 Hy1 Hy2 b q. subst q.
  pose proof (subtracted_within r l) as Hw. cbv zeta in Hw. fold b in Hw.
  clearbody b. destruct Hw as [E|(A1 & A2 & A3 & A4 & A5 & A6)].
  - left. rewrite E. apply QRect_null_as_QRectF.
  - right. unfold maxPixels in *.
    unfold QRectF_of_QRect, left, right, top, bottom, QRect_width,
      QRect_height, iadd, isub. cbn [xp yp w h].
    rewrite (wrap_int_small (x2 b - x1 b))
      by (unfold INT_MIN, INT_MAX; lia).
    rewrite (wrap_int_small (x2 b - x1 b + 1))
      by (unfold INT_MIN, INT_MAX; lia).
    rewrite (wrap_int_small (y2 b - y1 b))
      by (unfold INT_MIN, INT_MAX; lia).
    rewrite (wrap_int_small (y2 b - y1 b + 1))
      by (unfold INT_MIN, INT_MAX; lia).
    rewrite <- !inject_Z_plus.
    repeat split; try lia; try reflexivity;
      rewrite inject_Z_injective; lia.
Qed.

(** A rectangle with integer edges that fit an [int] is rounded to
    itself. *)
Lemma toRect_exact r a b c e :
  (xp r == inject_Z a)%Q -> (yp r == inject_Z b)%Q ->
  (xp r + w r == inject_Z c)%Q -> (yp r + h r == inject_Z e)%Q ->
  INT_MIN < a <= INT_MAX -> INT_MIN < b <= INT_MAX ->
  INT_MIN < c <= INT_MAX -> INT_MIN < e <= INT_MAX ->
  toRect r = mkQRect a b (c - 1) (e - 1).
Proof.
  intros Ea Eb Ec Ee Ra Rb Rc Re. unfold toRect.
  rewrite (qRound_exact _ _ Ea) by lia.
  rewrite (qRound_exact _ _ Eb) by lia.
  rewrite (qRound_exact _ _ Ec) by lia.
  rewrite (qRound_exact _ _ Ee) by lia.
  unfold isub. rewrite !wrap_int_small by (unfold INT_MIN, INT_MAX in *; lia).
  reflexivity.
Qed.

Lemma toRect_pixels X Y W H :
  - maxPixels <= X <= maxPixels -> - maxPixels <= Y <= maxPixels ->
  0 <= W <= maxPixels -> 0 <= H <= maxPixels ->
  toRect (mkQRectF (inject_Z X) (inject_Z Y) (inject_Z W) (inject_Z H))
  = mkQRect X Y (X + W - 1) (Y + H - 1).
Proof.
  unfold maxPixels. intros.
  apply toRect_exact; cbn [xp yp w h];
    rewrite <- ?inject_Z_plus; try reflexivity;
    unfold INT_MIN, INT_MAX; lia.
Qed.

Section LegendTakenFromRect.

(** The plot rectangle, on the pixel grid, the extent [dim] of the
    legend and the spacing. *)
Variables X Y W H dim sp : Z.
Hypothesis HX : - maxPixels <= X <= maxPixels.
Hypothesis HY : - maxPixels <= Y <= maxPixels.
Hypothesis HW : 0 <= W <= maxPixels.
Hypothesis HH : 0 <= H <= maxPixels.
Hypothesis Hdim : INT_MIN <= dim <= 2 * maxPixels.
Hypothesis Hsp : 0 <= sp.

Let p : QRectF :=
  mkQRectF (inject_Z X) (inject_Z Y) (inject_Z W) (inject_Z H).

(** What is left of [p] when the pixels of [l] are taken. *)
Let rest (l : QRectF) : QRectF :=
  QRectF_of_QRect (subtractedBoundingRect (toRect p) (toRect l)).

Lemma rest_cases l :
  rest l = QRectF_null
  \/ exists b : QRect,
       b = subtractedBoundingRect (toRect p) (toRect l)
       /\ (left (rest l) == inject_Z (x1 b))%Q
       /\ (right (rest l) == inject_Z (x2 b + 1))%Q
       /\ (top (rest l) == inject_Z (y1 b))%Q
       /\ (bottom (rest l) == inject_Z (y2 b + 1))%Q
       /\ X <= x1 b /\ x2 b <= X + W - 1 /\ Y <= y1 b /\ y2 b <= Y + H - 1
       /\ x1 b <= x2 b /\ y1 b <= y2 b.
Proof.
  unfold rest, p. rewrite toRect_pixels by assumption.
  pose proof (remaining_rect (mkQRect X Y (X + W - 1) (Y + H - 1)) (toRect l))
    as Hr.
  cbn [x1 y1 x2 y2] in Hr. cbv zeta in Hr.
  destruct Hr as [E|Hr]; try (unfold maxPixels in *; lia).
  - left. exact E.
  - right. eexists. split; [reflexivity|]. exact Hr.
Qed.

(** The legend on the right. *)
Lemma legend_right_clear :
  let l := setWidth (inject_Z dim) (setX (right p - inject_Z dim)%Q p) in
  let r := rest l in
  let r1 := setRight (right r - inject_Z sp)%Q r in
  (0 < w r1)%Q -> (w l == 0)%Q \/ (right r1 <= normLeft l)%Q.
Proof.
  intros l r r1 Hpos.
  assert (Qsp : (0 <= inject_Z sp)%Q)
    by (change 0%Q with (inject_Z 0); rewrite <- Zle_Qle; exact Hsp).
  assert (Er1 : (w r1 == w r - inject_Z sp)%Q).
  { subst r1. unfold setRight, right. cbn [w xp]. ring. }
  assert (Rr1 : (right r1 == right r - inject_Z sp)%Q)
    by (subst r1; apply right_setRight).
  assert (El : (xp l == inject_Z (X + W - dim))%Q).
  { subst l p. unfold setWidth, setX, setLeft, right. cbn [xp w].
    unfold Z.sub. rewrite !inject_Z_plus, inject_Z_opp. ring. }
  assert (Ew : w l = inject_Z dim) by reflexivity.
  destruct (rest_cases l)
    as [E0|(b & Eb & B1 & B2 & B3 & B4 & I1 & I2 & I3 & I4 & I5 & I6)];
    fold r in E0 || fold r in B1, B2, B3, B4.
  { exfalso. rewrite E0 in Er1. cbn [w QRectF_null] in Er1. lra. }
  destruct (Z_le_gt_dec dim 0) as [Hle|Hgt].
  - destruct (Z.eq_dec dim 0) as [->|Hne]; [left; reflexivity|].
    right. unfold normLeft. rewrite Ew.
    assert (En : Qltb (inject_Z dim) 0 = true).
    { apply Qltb_lt. change 0%Q with (inject_Z 0). rewrite <- Zlt_Qlt. lia. }
    rewrite En, El, Rr1, B2. rewrite <- inject_Z_plus.
    apply Qle_trans with (inject_Z (x2 b + 1)); [lra|].
    rewrite <- Zle_Qle. lia.
  - right. unfold normLeft. rewrite Ew.
    assert (En : Qltb (inject_Z dim) 0 = false).
    { apply Qltb_ge. change 0%Q with (inject_Z 0). rewrite <- Zle_Qle. lia. }
    rewrite En, El, Rr1, B2.
    assert (Tl : toRect l = mkQRect (X + W - dim) Y (X + W - 1) (Y + H - 1)).
    { apply toRect_exact; try exact El;
        try (unfold INT_MIN, INT_MAX, maxPixels in *; lia).
      - reflexivity.
      - rewrite El, Ew, <- inject_Z_plus. apply inject_Z_injective. lia.
      - subst l p. cbn [yp h setWidth setX setLeft].
        rewrite <- inject_Z_plus. reflexivity. }
    assert (Tp : toRect p = mkQRect X Y (X + W - 1) (Y + H - 1))
      by (apply toRect_pixels; assumption).
    pose proof (subtracted_clear_right (toRect p) (toRect l)) as CR.
    rewrite <- Eb in CR. rewrite Tl, Tp in CR. cbn [x1 y1 x2 y2] in CR.
    destruct CR as [N|C]; try lia.
    + exfalso. rewrite N in I5. cbn [x1 x2 QRect_null] in I5. lia.
    + apply Qle_trans with (inject_Z (x2 b + 1)); [lra|].
      rewrite <- Zle_Qle. lia.
Qed.

(** The legend on the left. *)
Lemma legend_left_clear :
  let l := setWidth (inject_Z dim) p in
  let r := rest l in
  let r1 := setLeft (left r + inject_Z sp)%Q r in
  (0 < w r1)%Q -> (w l == 0)%Q \/ (normRight l <= left r1)%Q.
Proof.
  intros l r r1 Hpos.
  assert (Qsp : (0 <= inject_Z sp)%Q)
    by (change 0%Q with (inject_Z 0); rewrite <- Zle_Qle; exact Hsp).
  assert (Er1 : (w r1 == w r - inject_Z sp)%Q).
  { subst r1. unfold setLeft, left. cbn [w xp]. ring. }
  assert (Rr1 : (left r1 == left r + inject_Z sp)%Q)
    by (subst r1; apply left_setLeft).
  assert (El : xp l = inject_Z X) by reflexivity.
  assert (Ew : w l = inject_Z dim) by reflexivity.
  destruct (rest_cases l)
    as [E0|(b & Eb & B1 & B2 & B3 & B4 & I1 & I2 & I3 & I4 & I5 & I6)];
    fold r in E0 || fold r in B1, B2, B3, B4.
  { exfalso. rewrite E0 in Er1. cbn [w QRectF_null] in Er1. lra. }
  destruct (Z_le_gt_dec dim 0) as [Hle|Hgt].
  - destruct (Z.eq_dec dim 0) as [->|Hne]; [left; reflexivity|].
    right. unfold normRight. rewrite Ew.
    assert (En : Qltb (inject_Z dim) 0 = true).
    { apply Qltb_lt. change 0%Q with (inject_Z 0). rewrite <- Zlt_Qlt. lia. }
    rewrite En, El, Rr1, B1.
    apply Qle_trans with (inject_Z (x1 b)); [|lra].
    rewrite <- Zle_Qle. lia.
  - right. unfold normRight. rewrite Ew.
    assert (En : Qltb (inject_Z dim) 0 = false).
    { apply Qltb_ge. change 0%Q with (inject_Z 0). rewrite <- Zle_Qle. lia. }
    rewrite En, El, Rr1, B1.
    assert (Tl : toRect l = mkQRect X Y (X + dim - 1) (Y + H - 1)).
    { apply toRect_exact; try (unfold INT_MIN, INT_MAX, maxPixels in *; lia).
      - reflexivity.
      - reflexivity.
      - rewrite El, Ew, <- inject_Z_plus. reflexivity.
      - subst l p. cbn [yp h setWidth]. rewrite <- inject_Z_plus.
        reflexivity. }
    assert (Tp : toRect p = mkQRect X Y (X + W - 1) (Y + H - 1))
      by (apply toRect_pixels; assumption).
    pose proof (subtracted_clear_left (toRect p) (toRect l)) as CR.
    rewrite <- Eb in CR. rewrite Tl, Tp in CR. cbn [x1 y1 x2 y2] in CR.
    destruct CR as [N|C]; try lia.
    + exfalso. rewrite N in I5. cbn [x1 x2 QRect_null] in I5. lia.
    + rewrite <- inject_Z_plus.
      apply Qle_trans with (inject_Z (x1 b)); [|lra].
      rewrite <- Zle_Qle. lia.
Qed.

(** The legend at the top. *)
Lemma legend_top_clear :
  let l := setHeight (inject_Z dim) p in
  let r := rest l in
  let r1 := setTop (top r + inject_Z sp)%Q r in
  (0 < h r1)%Q -> (h l == 0)%Q \/ (normBottom l <= top r1)%Q.
Proof.
  intros l r r1 Hpos.
  assert (Qsp : (0 <= inject_Z sp)%Q)
    by (change 0%Q with (inject_Z 0); rewrite <- Zle_Qle; exact Hsp).
  assert (Er1 : (h r1 == h r - inject_Z sp)%Q).
  { subst r1. unfold setTop, top. cbn [h yp]. ring. }
  assert (Rr1 : (top r1 == top r + inject_Z sp)%Q)
    by (subst r1; apply top_setTop).
  assert (El : yp l = inject_Z Y) by reflexivity.
  assert (Ew : h l = inject_Z dim) by reflexivity.
  destruct (rest_cases l)
    as [E0|(b & Eb & B1 & B2 & B3 & B4 & I1 & I2 & I3 & I4 & I5 & I6)];
    fold r in E0 || fold r in B1, B2, B3, B4.
  { exfalso. rewrite E0 in Er1. cbn [h QRectF_null] in Er1. lra. }
  destruct (Z_le_gt_dec dim 0) as [Hle|Hgt].
  - destruct (Z.eq_dec dim 0) as [->|Hne]; [left; reflexivity|].
    right. unfold normBottom. rewrite Ew.
    assert (En : Qltb (inject_Z dim) 0 = true).
    { apply Qltb_lt. change 0%Q with (inject_Z 0). rewrite <- Zlt_Qlt. lia. }
    rewrite En, El, Rr1, B3.
    apply Qle_trans with (inject_Z (y1 b)); [|lra].
    rewrite <- Zle_Qle. lia.
  - right. unfold normBottom. rewrite Ew.
    assert (En : Qltb (inject_Z dim) 0 = false).
    { apply Qltb_ge. change 0%Q with (inject_Z 0). rewrite <- Zle_Qle. lia. }
    rewrite En, El, Rr1, B3.
    assert (Tl : toRect l = mkQRect X Y (X + W - 1) (Y + dim - 1)).
    { apply toRect_exact; try (unfold INT_MIN, INT_MAX, maxPixels in *; lia).
      - reflexivity.
      - reflexivity.
      - subst l p. cbn [xp w setHeight]. rewrite <- inject_Z_plus.
        reflexivity.
      - rewrite El, Ew, <- inject_Z_plus. reflexivity. }
    assert (Tp : toRect p = mkQRect X Y (X + W - 1) (Y + H - 1))
      by (apply toRect_pixels; assumption).
    pose proof (subtracted_clear_top (toRect p) (toRect l)) as CR.
    rewrite <- Eb in CR. rewrite Tl, Tp in CR. cbn [x1 y1 x2 y2] in CR.
    destruct CR as [N|C]; try lia.
    + exfalso. rewrite N in I5. cbn [x1 x2 QRect_null] in I5. lia.
    + rewrite <- inject_Z_plus.
      apply Qle_trans with (inject_Z (y1 b)); [|lra].
      rewrite <- Zle_Qle. lia.
Qed.

(** The legend at the bottom. *)
Lemma legend_bottom_clear :
  let l := setHeight (inject_Z dim) (setY (bottom p - inject_Z dim)%Q p) in
  let r := rest l in
  let r1 := setBottom (bottom r - inject_Z sp)%Q r in
  (0 < h r1)%Q -> (h l == 0)%Q \/ (bottom r1 <= normTop l)%Q.
Proof.
  intros l r r1 Hpos.
  assert (Qsp : (0 <= inject_Z sp)%Q)
    by (change 0%Q with (inject_Z 0); rewrite <- Zle_Qle; exact Hsp).
  assert (Er1 : (h r1 == h r - inject_Z sp)%Q).
  { subst r1. unfold setBottom, bottom. cbn [h yp]. ring. }
  assert (Rr1 : (bottom r1 == bottom r - inject_Z sp)%Q)
    by (subst r1; apply bottom_setBottom).
  assert (El : (yp l == inject_Z (Y + H - dim))%Q).
  { subst l p. unfold setHeight, setY, setTop, bottom. cbn [yp h].
    unfold Z.sub. rewrite !inject_Z_plus, inject_Z_opp. ring. }
  assert (Ew : h l = inject_Z dim) by reflexivity.
  destruct (rest_cases l)
    as [E0|(b & Eb & B1 & B2 & B3 & B4 & I1 & I2 & I3 & I4 & I5 & I6)];
    fold r in E0 || fold r in B1, B2, B3, B4.
  { exfalso. rewrite E0 in Er1. cbn [h QRectF_null] in Er1. lra. }
  destruct (Z_le_gt_dec dim 0) as [Hle|Hgt].
  - destruct (Z.eq_dec dim 0) as [->|Hne]; [left; reflexivity|].
    right. unfold normTop. rewrite Ew.
    assert (En : Qltb (inject_Z dim) 0 = true).
    { apply Qltb_lt. change 0%Q with (inject_Z 0). rewrite <- Zlt_Qlt. lia. }
    rewrite En, El, Rr1, B4. rewrite <- inject_Z_plus.
    apply Qle_trans with (inject_Z (y2 b + 1)); [lra|].
    rewrite <- Zle_Qle. lia.
  - right. unfold normTop. rewrite Ew.
    assert (En : Qltb (inject_Z dim) 0 = false).
    { apply Qltb_ge. change 0%Q with (inject_Z 0). rewrite <- Zle_Qle. lia. }
    rewrite En, El, Rr1, B4.
    assert (Tl : toRect l = mkQRect X (Y + H - dim) (X + W - 1) (Y + H - 1)).
    { apply toRect_exact; try exact El;
        try (unfold INT_MIN, INT_MAX, maxPixels in *; lia).
      - reflexivity.
      - subst l p. cbn [xp w setHeight setY setTop].
        rewrite <- inject_Z_plus. reflexivity.
      - rewrite El, Ew, <- inject_Z_plus. apply inject_Z_injective. lia. }
    assert (Tp : toRect p = mkQRect X Y (X + W - 1) (Y + H - 1))
      by (apply toRect_pixels; assumption).
    pose proof (subtracted_clear_bottom (toRect p) (toRect l)) as CR.
    rewrite <- Eb in CR. rewrite Tl, Tp in CR. cbn [x1 y1 x2 y2] in CR.
    destruct CR as [N|C]; try lia.
    + exfalso. rewrite N in I5. cbn [x1 x2 QRect_null] in I5. lia.
    + apply Qle_trans with (inject_Z (y2 b + 1)); [lra|].
      rewrite <- Zle_Qle. lia.
Qed.

(** The same four facts, for a rectangle given by an equation and with
    the edge of the legend spelled out. *)
Lemma sign_cases_Qltb :
  (dim < 0 /\ Qltb (inject_Z dim) 0 = true)
  \/ (0 <= dim /\ Qltb (inject_Z dim) 0 = false).
Proof.
  destruct (Z_lt_le_dec dim 0) as [Hn|Hp]; [left | right]; split;
    try assumption.
  - apply Qltb_lt. change 0%Q with (inject_Z 0). rewrite <- Zlt_Qlt. lia.
  - apply Qltb_ge. change 0%Q with (inject_Z 0). rewrite <- Zle_Qle. lia.
Qed.

Lemma zero_extent : (inject_Z dim == 0)%Q -> dim = 0.
Proof.
  intros E. change 0%Q with (inject_Z 0) in E.
  rewrite inject_Z_injective in E. exact E.
Qed.

Lemma legend_right_edge r1 :
  setRight
    (right (rest (setWidth (inject_Z dim)
                    (setX (right p - inject_Z dim)%Q p)))
     - inject_Z sp)%Q
    (rest (setWidth (inject_Z dim) (setX (right p - inject_Z dim)%Q p)))
  = r1 ->
  (0 < w r1)%Q ->
  dim = 0
  \/ (dim < 0 /\ (right r1 <= inject_Z (X + W))%Q)
  \/ (0 < dim /\ (right r1 <= inject_Z (X + W - dim))%Q).
Proof.
  intros E Hpos. pose proof legend_right_clear as K. cbv zeta in K.
  rewrite E in K. destruct (K Hpos) as [C|C]; clear K.
  - left. apply zero_extent. exact C.
  - unfold normLeft, setWidth, setX, setLeft, right, p in *.
    cbn [w xp] in C.
    destruct sign_cases_Qltb as [[Hs En]|[Hs En]]; rewrite En in C.
    + right. left. split; [exact Hs|].
      rewrite !inject_Z_plus. clear - C. lra.
    + destruct (Z.eq_dec dim 0) as [Hz|Hnz]; [left; exact Hz|].
      right. right. split; [lia|].
      unfold Z.sub. rewrite !inject_Z_plus, inject_Z_opp. clear - C. lra.
Qed.

Lemma legend_left_edge r1 :
  setLeft (left (rest (setWidth (inject_Z dim) p)) + inject_Z sp)%Q
    (rest (setWidth (inject_Z dim) p))
  = r1 ->
  (0 < w r1)%Q ->
  dim = 0
  \/ (dim < 0 /\ (inject_Z X <= left r1)%Q)
  \/ (0 < dim /\ (inject_Z (X + dim) <= left r1)%Q).
Proof.
  intros E Hpos. pose proof legend_left_clear as K. cbv zeta in K.
  rewrite E in K. destruct (K Hpos) as [C|C]; clear K.
  - left. apply zero_extent. exact C.
  - unfold normRight, setWidth, left, p in *. cbn [w xp] in C.
    destruct sign_cases_Qltb as [[Hs En]|[Hs En]]; rewrite En in C.
    + right. left. split; [exact Hs | exact C].
    + destruct (Z.eq_dec dim 0) as [Hz|Hnz]; [left; exact Hz|].
      right. right. split; [lia|]. rewrite inject_Z_plus. exact C.
Qed.

Lemma legend_top_edge r1 :
  setTop (top (rest (setHeight (inject_Z dim) p)) + inject_Z sp)%Q
    (rest (setHeight (inject_Z dim) p))
  = r1 ->
  (0 < h r1)%Q ->
  dim = 0
  \/ (dim < 0 /\ (inject_Z Y <= top r1)%Q)
  \/ (0 < dim /\ (inject_Z (Y + dim) <= top r1)%Q).
Proof.
  intros E Hpos. pose proof legend_top_clear as K. cbv zeta in K.
  rewrite E in K. destruct (K Hpos) as [C|C]; clear K.
  - left. apply zero_extent. exact C.
  - unfold normBottom, setHeight, top, p in *. cbn [h yp] in C.
    destruct sign_cases_Qltb as [[Hs En]|[Hs En]]; rewrite En in C.
    + right. left. split; [exact Hs | exact C].
    + destruct (Z.eq_dec dim 0) as [Hz|Hnz]; [left; exact Hz|].
      right. right. split; [lia|]. rewrite inject_Z_plus. exact C.
Qed.

Lemma legend_bottom_edge r1 :
  setBottom
    (bottom (rest (setHeight (inject_Z dim)
                     (setY (bottom p - inject_Z dim)%Q p)))
     - inject_Z sp)%Q
    (rest (setHeight (inject_Z dim) (setY (bottom p - inject_Z dim)%Q p)))
  = r1 ->
  (0 < h r1)%Q ->
  dim = 0
  \/ (dim < 0 /\ (bottom r1 <= inject_Z (Y + H))%Q)
  \/ (0 < dim /\ (bottom r1 <= inject_Z (Y + H - dim))%Q).
Proof.
  intros E Hpos. pose proof legend_bottom_clear as K. cbv zeta in K.
  rewrite E in K. destruct (K Hpos) as [C|C]; clear K.
  - left. apply zero_extent. exact C.
  - unfold normTop, setHeight, setY, setTop, bottom, p in *.
    cbn [h yp] in C.
    destruct sign_cases_Qltb as [[Hs En]|[Hs En]]; rewrite En in C.
    + right. left. split; [exact Hs|].
      rewrite !inject_Z_plus. clear - C. lra.
    + destruct (Z.eq_dec dim 0) as [Hz|Hnz]; [left; exact Hz|].
      right. right. split; [lia|].
      unfold Z.sub. rewrite !inject_Z_plus, inject_Z_opp. clear - C. lra.
Qed.

End LegendTakenFromRect.

(** ** activate: the canvas and the legend *)

Lemma intersects_zero_w a b : (w b == 0)%Q -> intersects a b = false.
Proof.
  intros H. rewrite intersects_norm.
  destruct (Qeq_bool (normLeft a) (normRight a)); [reflexivity|].
  assert (E : Qeq_bool (normLeft b) (normRight b) = true).
  { apply Qeq_bool_iff. unfold normLeft, normRight.
    destruct (Qltb (w b) 0); lra. }
  rewrite E. reflexivity.
Qed.

Lemma intersects_zero_h a b : (h b == 0)%Q -> intersects a b = false.
Proof.
  intros H. rewrite intersects_norm.
  destruct (Qeq_bool (normLeft a) (normRight a)); [reflexivity|].
  destruct (Qeq_bool (normLeft b) (normRight b)); [reflexivity|].
  destruct (_ || _); [reflexivity|].
  destruct (Qeq_bool (normTop a) (normBottom a)); [reflexivity|].
  assert (E : Qeq_bool (normTop b) (normBottom b) = true).
  { apply Qeq_bool_iff. unfold normTop, normBottom.
    destruct (Qltb (h b) 0); lra. }
  rewrite E. reflexivity.
Qed.

Lemma qMin_range a b lo hi :
  lo <= a -> lo <= b -> b <= hi -> lo <= qMin a b <= hi.
Proof. unfold qMin. destruct (Z.ltb_spec a b); lia. Qed.

Lemma qMax_range a b lo hi :
  a <= hi -> lo <= b <= hi -> lo <= qMax a b <= hi.
Proof. unfold qMax. destruct (Z.ltb_spec a b); lia. Qed.

(** A share of at most the whole of an extent of pixels, as an [int]. *)
Lemma int_of_share (n : Z) (ratio : Q) :
  0 <= n <= maxPixels -> (0 < ratio)%Q -> (ratio <= 1)%Q ->
  0 <= int_of_double (inject_Z n * ratio) <= maxPixels.
Proof.
  intros Hn R0 R1.
  assert (Qn : (0 <= inject_Z n)%Q)
    by (change 0%Q with (inject_Z 0); rewrite <- Zle_Qle; lia).
  assert (P0 : (0 <= inject_Z n * ratio)%Q)
    by (apply Qmult_le_0_compat; lra).
  assert (P1 : (inject_Z n * ratio <= inject_Z n)%Q) by nra.
  unfold int_of_double. rewrite Qtrunc_nonneg by exact P0.
  assert (F0 : 0 <= Qfloor (inject_Z n * ratio)).
  { change 0 with (Qfloor 0). apply Qfloor_resp_le, P0. }
  assert (F1 : Qfloor (inject_Z n * ratio) <= n).
  { rewrite <- (Qfloor_Z n) at 2. apply Qfloor_resp_le, P1. }
  rewrite wrap_int_small; [lia|].
  unfold INT_MIN, INT_MAX, maxPixels in *. lia.
Qed.

(** The extent that [layoutLegend] gives the legend of a plot in a
    rectangle of pixels, with the hint captured for that rectangle. *)
Lemma layoutLegend_dim_bound plot lgd options X Y W H old d0 :
  plot_legend plot = Some lgd ->
  saneScrollExtents plot ->
  (0 < d_legendRatio d0)%Q -> (d_legendRatio d0 <= 1)%Q ->
  0 <= W <= maxPixels -> 0 <= H <= maxPixels ->
  d_layoutData d0
  = LayoutData_init plot
      (mkQRectF (inject_Z X) (inject_Z Y) (inject_Z W) (inject_Z H)) old ->
  INT_MIN
  <= layoutLegend_dim options
       (mkQRectF (inject_Z X) (inject_Z Y) (inject_Z W) (inject_Z H)) d0
  <= 2 * maxPixels.
Proof.
  intros Hl Hsane R0 R1 HW HH Eld.
  unfold saneScrollExtents in Hsane. rewrite Hl in Hsane.
  unfold layoutLegend_dim. rewrite Eld.
  unfold LayoutData_init. cbn [legend]. unfold init_legend. rewrite Hl.
  cbn [lg_hint lg_hScrollExtent lg_vScrollExtent sz_width sz_height
       width height w h].
  pose proof (int_of_share W _ HW R0 R1) as TW.
  pose proof (int_of_share H _ HH R0 R1) as TH.
  set (wd := qMin _ (qwtFloor _)).
  set (ht := if _ <=? 0 then _ else _).
  assert (Rwd : INT_MIN <= wd).
  { subst wd. unfold qMin, qwtFloor.
    destruct (_ <? _); apply wrap_int_range. }
  assert (Rht : INT_MIN <= ht).
  { subst ht. destruct (_ <=? 0); apply wrap_int_range. }
  assert (Sh : wrap_int (legend_scrollExtent lgd Horizontal)
               = legend_scrollExtent lgd Horizontal).
  { apply wrap_int_small. specialize (Hsane Horizontal).
    unfold INT_MIN, INT_MAX, maxPixels in *. lia. }
  assert (Sv : wrap_int (legend_scrollExtent lgd Vertical)
               = legend_scrollExtent lgd Vertical).
  { apply wrap_int_small. specialize (Hsane Vertical).
    unfold INT_MIN, INT_MAX, maxPixels in *. lia. }
  rewrite Sh, Sv.
  pose proof (Hsane Horizontal) as SH. pose proof (Hsane Vertical) as SV.
  clearbody wd ht.
  destruct ((d_legendPos d0 =? LeftLegend) || (d_legendPos d0 =? RightLegend)).
  - pose proof (qMin_range wd (int_of_double (inject_Z W * d_legendRatio d0))
                  INT_MIN maxPixels Rwd) as M.
    assert (M' : INT_MIN
                 <= qMin wd (int_of_double (inject_Z W * d_legendRatio d0))
                 <= maxPixels)
      by (apply M; unfold INT_MIN in *; lia).
    destruct (negb (hasOption options IgnoreScrollbars));
      [|unfold maxPixels in *; lia].
    destruct (Qltb _ _); [|unfold maxPixels in *; lia].
    unfold iadd. rewrite wrap_int_small;
      unfold INT_MIN, INT_MAX, maxPixels in *; lia.
  - pose proof (qMin_range ht (int_of_double (inject_Z H * d_legendRatio d0))
                  INT_MIN maxPixels Rht) as M.
    assert (M' : INT_MIN
                 <= qMin ht (int_of_double (inject_Z H * d_legendRatio d0))
                 <= maxPixels)
      by (apply M; unfold INT_MIN in *; lia).
    pose proof (qMax_range
                  (qMin ht (int_of_double (inject_Z H * d_legendRatio d0)))
                  (legend_scrollExtent lgd Vertical) 0 maxPixels) as N.
    assert (N' : 0 <= qMax (qMin ht (int_of_double
                                       (inject_Z H * d_legendRatio d0)))
                        (legend_scrollExtent lgd Vertical) <= maxPixels)
      by (apply N; lia).
    unfold INT_MIN, maxPixels in *. lia.
Qed.

Lemma isLegendPosition_cases pos :
  isLegendPosition pos = true ->
  pos = LeftLegend \/ pos = RightLegend \/ pos = BottomLegend
  \/ pos = TopLegend.
Proof.
  unfold isLegendPosition. intros H.
  apply orb_true_iff in H. destruct H as [H|H];
    [apply orb_true_iff in H; destruct H as [H|H];
     [apply orb_true_iff in H; destruct H as [H|H]|]|];
    apply Z.eqb_eq in H; tauto.
Qed.

Lemma inside_extent c r :
  inside c r -> (w c <= w r)%Q /\ (h c <= h r)%Q.
Proof. unfold inside, left, right, top, bottom. intros. split; lra. Qed.

(** The step of [activate] that places the legend in a rectangle of
    pixels: a valid rectangle within what is left does not intersect the
    legend, wherever the legend is later aligned along its edge. *)
Lemma activate_legend_clear plot options X Y W H old d0 d1 r1 :
  - maxPixels <= X <= maxPixels -> - maxPixels <= Y <= maxPixels ->
  0 <= W <= maxPixels -> 0 <= H <= maxPixels ->
  saneScrollExtents plot ->
  isLegendPosition (d_legendPos d0) = true ->
  0 <= d_spacing d0 ->
  (0 < d_legendRatio d0)%Q -> (d_legendRatio d0 <= 1)%Q ->
  d_layoutData d0
  = LayoutData_init plot
      (mkQRectF (inject_Z X) (inject_Z Y) (inject_Z W) (inject_Z H)) old ->
  d_legendRect d0 = QRectF_null ->
  activate_legend plot options
    (mkQRectF (inject_Z X) (inject_Z Y) (inject_Z W) (inject_Z H)) d0
  = (d1, r1) ->
  forall c l' : QRectF,
    isValid c = true -> inside c r1 ->
    (if (d_legendPos d0 =? BottomLegend) || (d_legendPos d0 =? TopLegend)
     then yp l' = yp (d_legendRect d1) /\ h l' = h (d_legendRect d1)
     else xp l' = xp (d_legendRect d1) /\ w l' = w (d_legendRect d1)) ->
    intersects c l' = false.
Proof.
  intros HX HY HW HH Hsane Hpos Hsp R0 R1 Eld Enull Hact c l' Hv Hin Hl'.
  destruct (isValid_positive c Hv) as [Wc Hc].
  destruct (inside_extent c r1 Hin) as [Iw Ih].
  destruct (norm_positive_w c Wc) as [NLc NRc].
  destruct (norm_positive_h c Hc) as [NTc NBc].
  unfold activate_legend in Hact.
  destruct (negb (hasOption options IgnoreLegend) && hasLegend plot) eqn:T.
  2:{ inversion Hact; subst d1 r1. rewrite Enull in Hl'.
      destruct (_ || _); destruct Hl' as [_ E];
        [apply intersects_zero_h | apply intersects_zero_w];
        rewrite E; reflexivity. }
  apply andb_true_iff in T. destruct T as [_ T].
  unfold hasLegend in T.
  destruct (plot_legend plot) as [lgd|] eqn:Hlg; [|discriminate].
  pose proof (layoutLegend_dim_bound plot lgd options X Y W H old d0
                Hlg Hsane R0 R1 HW HH Eld) as Hdim.
  cbn [d_legendRect d_legendPos d_spacing with_legendRect] in Hact.
  unfold layoutLegend in Hact.
  set (dim := layoutLegend_dim options _ d0) in *. clearbody dim.
  destruct (isLegendPosition_cases _ Hpos) as [P|[P|[P|P]]];
    rewrite P in Hact, Hl';
    cbn [Z.eqb LeftLegend RightLegend TopLegend BottomLegend Pos.eqb orb]
      in Hact, Hl';
    injection Hact as Ed Er; rewrite <- Ed in Hl';
    cbn [d_legendRect with_legendRect] in Hl'; destruct Hl' as [E1 E2];
    unfold setWidth, setHeight, setX, setY, setLeft, setTop, right, bottom
      in E1, E2;
    cbn [xp yp w h] in E1, E2.
  - (* LeftLegend *)
    assert (Pr : (0 < w r1)%Q) by lra.
    destruct (legend_left_edge X Y W H dim (d_spacing d0)
                HX HY HW HH Hdim Hsp r1 Er Pr) as [C|[[Cs C]|[Cs C]]].
    + apply intersects_zero_w. rewrite E2, C. reflexivity.
    + apply intersects_apartX. right. rewrite NLc.
      unfold normRight. rewrite E2.
      destruct (sign_cases_Qltb dim) as [[_ ->]|[? _]]; [|lia].
      rewrite E1. destruct Hin as (I1 & _). clear - C I1. rect_lra.
    + apply intersects_apartX. right. rewrite NLc.
      unfold normRight. rewrite E2.
      destruct (sign_cases_Qltb dim) as [[? _]|[_ ->]]; [lia|].
      rewrite E1. rewrite inject_Z_plus in C.
      destruct Hin as (I1 & _). clear - C I1. rect_lra.
  - (* RightLegend *)
    assert (Pr : (0 < w r1)%Q) by lra.
    destruct (legend_right_edge X Y W H dim (d_spacing d0)
                HX HY HW HH Hdim Hsp r1 Er Pr) as [C|[[Cs C]|[Cs C]]].
    + apply intersects_zero_w. rewrite E2, C. reflexivity.
    + apply intersects_apartX. left. rewrite NRc.
      unfold normLeft. rewrite E2.
      destruct (sign_cases_Qltb dim) as [[_ ->]|[? _]]; [|lia].
      rewrite E1. rewrite inject_Z_plus in C.
      destruct Hin as (_ & I2 & _). clear - C I2. rect_lra.
    + apply intersects_apartX. left. rewrite NRc.
      unfold normLeft. rewrite E2.
      destruct (sign_cases_Qltb dim) as [[? _]|[_ ->]]; [lia|].
      rewrite E1. unfold Z.sub in C.
      rewrite !inject_Z_plus, inject_Z_opp in C.
      destruct Hin as (_ & I2 & _). clear - C I2. rect_lra.
  - (* BottomLegend *)
    assert (Pr : (0 < h r1)%Q) by lra.
    destruct (legend_bottom_edge X Y W H dim (d_spacing d0)
                HX HY HW HH Hdim Hsp r1 Er Pr) as [C|[[Cs C]|[Cs C]]].
    + apply intersects_zero_h. rewrite E2, C. reflexivity.
    + apply intersects_apartY. left. rewrite NBc.
      unfold normTop. rewrite E2.
      destruct (sign_cases_Qltb dim) as [[_ ->]|[? _]]; [|lia].
      rewrite E1. rewrite inject_Z_plus in C.
      destruct Hin as (_ & _ & _ & I4). clear - C I4. rect_lra.
    + apply intersects_apartY. left. rewrite NBc.
      unfold normTop. rewrite E2.
      destruct (sign_cases_Qltb dim) as [[? _]|[_ ->]]; [lia|].
      rewrite E1. unfold Z.sub in C.
      rewrite !inject_Z_plus, inject_Z_opp in C.
      destruct Hin as (_ & _ & _ & I4). clear - C I4. rect_lra.
  - (* TopLegend *)
    assert (Pr : (0 < h r1)%Q) by lra.
    destruct (legend_top_edge X Y W H dim (d_spacing d0)
                HX HY HW HH Hdim Hsp r1 Er Pr) as [C|[[Cs C]|[Cs C]]].
    + apply intersects_zero_h. rewrite E2, C. reflexivity.
    + apply intersects_apartY. right. rewrite NTc.
      unfold normBottom. rewrite E2.
      destruct (sign_cases_Qltb dim) as [[_ ->]|[? _]]; [|lia].
      rewrite E1. destruct Hin as (_ & _ & I3 & _). clear - C I3. rect_lra.
    + apply intersects_apartY. right. rewrite NTc.
      unfold normBottom. rewrite E2.
      destruct (sign_cases_Qltb dim) as [[? _]|[_ ->]]; [lia|].
      rewrite E1. rewrite inject_Z_plus in C.
      destruct Hin as (_ & _ & I3 & _). clear - C I3. rect_lra.
Qed.

(** After a pass of a layout object over a rectangle of whole pixels
    a valid canvas lies beside the legend. *)
Lemma activate_legend_apart fuel plot plotRect options d d' :
  Reachable d ->
  pixelAligned plotRect ->
  saneScrollExtents plot ->
  activate fuel plot plotRect options d = Some d' ->
  isValid (canvasRect d') = true ->
  intersects (canvasRect d') (legendRect d') = false.
Proof.
  intros HR (X & Y & W & H & -> & HX & HY & HW & HH) Hsane Hact Hv.
  destruct (Reachable_config d HR) as (Hs & R0 & R1).
  pose proof (Reachable_legendPosition d HR) as Hpos.
  destruct (activate_stages _ _ _ _ _ _ Hact)
    as (d0 & d1 & r1 & dims & E0 & E1 & E2 & E3).
  assert (W0 : scales_in_range d0).
  { rewrite E0. apply init_scales_in_range. }
  destruct (activate_legend_config plot options
              (mkQRectF (inject_Z X) (inject_Z Y) (inject_Z W) (inject_Z H))
              d0) as [Lc Ll].
  destruct (activate_legend_frame plot options
              (mkQRectF (inject_Z X) (inject_Z Y) (inject_Z W) (inject_Z H))
              d0) as [Lt Lf].
  rewrite E1 in Lc, Ll, Lt, Lf. cbn [fst] in Lc, Ll, Lt, Lf.
  assert (W1 : scales_in_range d1).
  { intros axis. rewrite Ll. apply W0. }
  pose proof (expandLineBreaks_range _ _ _ _ _ W1 E2) as R.
  unfold config in Lc. injection Lc as C1 C2 C3 _ _.
  assert (S1 : 0 <= d_spacing d1).
  { rewrite C3, E0. exact Hs. }
  assert (T1 : d_titleRect d1 = QRectF_null).
  { rewrite Lt, E0. apply QRect_null_as_QRectF. }
  assert (F1 : d_footerRect d1 = QRectF_null).
  { rewrite Lf, E0. apply QRect_null_as_QRectF. }
  destruct (activate_finish_geometry options dims d1 r1 S1 R T1 F1)
    as (G1 & _ & G3).
  unfold canvasRect, legendRect in *. rewrite <- E3 in G1, G3.
  apply (activate_legend_clear plot options X Y W H
           (d_layoutData (invalidate d)) d0 d1 r1 HX HY HW HH Hsane).
  - rewrite E0. exact Hpos.
  - rewrite E0. exact Hs.
  - rewrite E0. exact R0.
  - rewrite E0. exact R1.
  - rewrite E0. reflexivity.
  - rewrite E0. apply QRect_null_as_QRectF.
  - exact E1.
  - exact Hv.
  - exact G1.
  - rewrite <- C1.
    destruct G3 as [-> | (dd & Pd & ->)].
    + destruct (_ || _); split; reflexivity.
    + rewrite <- Pd. apply alignLegend_extent.
Qed.

(** X11: after a pass of a layout object over a rectangle of whole pixels and
    with a legend whose scroll bars have a sane extent, a valid canvas
    does not intersect the legend. *)
Theorem activate_canvas_clear_of_legend (fuel : nat) (plot : QwtPlot)
    (plotRect : QRectF) (options : Z) (d d' : PrivateData) :
  Reachable d ->
  pixelAligned plotRect ->
  saneScrollExtents plot ->
  activate fuel plot plotRect options d = Some d' ->
  isValid (canvasRect d') = true ->
  intersects (canvasRect d') (legendRect d') = false.
Proof.
  intros HR Hp Hsane Hact Hv.
  exact (activate_legend_apart fuel plot plotRect options d d'
           HR Hp Hsane Hact Hv).
Qed.

Lemma activate_canvas_clear_of_legend_witness :
  Reachable freshLayout
  /\ pixelAligned (mkQRectF 0 0 400 300)
  /\ saneScrollExtents labelledPlot
  /\ activate 3 labelledPlot (mkQRectF 0 0 400 300) 0 freshLayout
     = Some labelledLayout
  /\ isValid (canvasRect labelledLayout) = true
  /\ intersects (canvasRect labelledLayout) (legendRect labelledLayout)
     = false.
Proof.
  assert (H1 : Reachable freshLayout) by apply R_new.
  assert (H2 : pixelAligned (mkQRectF 0 0 400 300)).
  { exists 0, 0, 400, 300. unfold maxPixels.
    split; [reflexivity|]. lia. }
  assert (H3 : saneScrollExtents labelledPlot).
  { intros o. vm_compute. split; discriminate. }
  assert (H4 : activate 3 labelledPlot (mkQRectF 0 0 400 300) 0 freshLayout
               = Some labelledLayout) by (vm_compute; reflexivity).
  assert (H5 : isValid (canvasRect labelledLayout) = true)
    by (vm_compute; reflexivity).
  split; [exact H1|]. split; [exact H2|]. split; [exact H3|].
  split; [exact H4|]. split; [exact H5|].
  exact (activate_canvas_clear_of_legend 3 labelledPlot
           (mkQRectF 0 0 400 300) 0 freshLayout labelledLayout
           H1 H2 H3 H4 H5).
Defined.

(** C5: a pass of [activate] of a layout object over a plot rectangle
    on the pixel grid (integer coordinates within 2^29), the scroll bars
    of the legend having an extent between 0 and 2^29, returns, and when
    the canvas it leaves is valid, the canvas intersects neither the
    title nor the footer nor the legend ([QRectF::intersects] is false:
    the rectangles may share an edge, but no area). *)
Theorem activate_canvas_no_overlap (plot : QwtPlot) (plotRect : QRectF)
    (options : Z) (d : PrivateData) :
  Reachable d ->
  pixelAligned plotRect ->
  saneScrollExtents plot ->
  (exists (fuel : nat) (d1 : PrivateData),
     forall n, (fuel <= n)%nat ->
       activate n plot plotRect options d = Some d1)
  /\ (forall (n : nat) (d' : PrivateData),
        activate n plot plotRect options d = Some d' ->
        isValid (canvasRect d') = true ->
        intersects (canvasRect d') (titleRect d') = false
        /\ intersects (canvasRect d') (footerRect d') = false
        /\ intersects (canvasRect d') (legendRect d') = false).
Proof.
  intros HR Hp Hsane. split.
  - apply activate_returns.
  - intros n d' Hact Hv.
    destruct (activate_labels_clear n plot plotRect options d d' HR Hact Hv)
      as [T F].
    split; [exact T|]. split; [exact F|].
    exact (activate_legend_apart n plot plotRect options d d'
             HR Hp Hsane Hact Hv).
Qed.

Lemma activate_canvas_no_overlap_witness :
  Reachable freshLayout
  /\ pixelAligned (mkQRectF 0 0 400 300)
  /\ saneScrollExtents labelledPlot
  /\ activate 3 labelledPlot (mkQRectF 0 0 400 300) 0 freshLayout
     = Some labelledLayout
  /\ isValid (canvasRect labelledLayout) = true
  /\ intersects (canvasRect labelledLayout) (titleRect labelledLayout) = false
  /\ intersects (canvasRect labelledLayout) (footerRect labelledLayout)
     = false
  /\ intersects (canvasRect labelledLayout) (legendRect labelledLayout)
     = false.
Proof.
  assert (H1 : Reachable freshLayout) by apply R_new.
  assert (H2 : pixelAligned (mkQRectF 0 0 400 300)).
  { exists 0, 0, 400, 300. unfold maxPixels.
    split; [reflexivity|]. lia. }
  assert (H3 : saneScrollExtents labelledPlot).
  { intros o. vm_compute. split; discriminate. }
  assert (H4 : activate 3 labelledPlot (mkQRectF 0 0 400 300) 0 freshLayout
               = Some labelledLayout) by (vm_compute; reflexivity).
  assert (H5 : isValid (canvasRect labelledLayout) = true)
    by (vm_compute; reflexivity).
  split; [exact H1|]. split; [exact H2|]. split; [exact H3|].
  split; [exact H4|]. split; [exact H5|].
  exact (proj2 (activate_canvas_no_overlap labelledPlot
                  (mkQRectF 0 0 400 300) 0 freshLayout H1 H2 H3)
           3%nat labelledLayout H4 H5).
Defined.

(** C5, as it is worded, fails off the pixel grid.  [activate] takes the
    legend from the rest of the plot rectangle in whole pixels
    ([toRect], lines 1292-1293), while [layoutLegend] has placed it at
    the unrounded edge (lines 788-791).  With the legend on the left,
    no spacing and a plot rectangle that starts a quarter of a pixel
    right of the grid, the legend of [legendPlot] (30 x 5) is the
    rectangle from 0.25 to 30.25, its pixels are 0 to 29, the rest and
    with it the canvas starts at 30: canvas and legend share the strip
    from 30 to 30.25 over the whole height.  Every number of the run is
    a multiple of a quarter, so binary64 computes the same; the layout
    object and the legend meet the other conditions of the theorem. *)
Lemma activate_canvas_overlaps_legend :
  Reachable (setSpacing 0 (setLegendPosition1 LeftLegend freshLayout))
  /\ saneScrollExtents legendPlot
  /\ activate 2 legendPlot (mkQRectF (1 # 4) 0 100 100) 0
       (setSpacing 0 (setLegendPosition1 LeftLegend freshLayout))
     = Some quarterPixelLayout
  /\ (left (legendRect quarterPixelLayout) == 1 # 4)%Q
  /\ (right (legendRect quarterPixelLayout) == 121 # 4)%Q
  /\ (top (legendRect quarterPixelLayout) == 0)%Q
  /\ (bottom (legendRect quarterPixelLayout) == 100)%Q
  /\ (left (canvasRect quarterPixelLayout) == 30)%Q
  /\ (right (canvasRect quarterPixelLayout) == 100)%Q
  /\ (top (canvasRect quarterPixelLayout) == 0)%Q
  /\ (bottom (canvasRect quarterPixelLayout) == 100)%Q
  /\ isValid (canvasRect quarterPixelLayout) = true
  /\ intersects (canvasRect quarterPixelLayout)
       (legendRect quarterPixelLayout) = true.
Proof.
  split.
  { apply R_setSpacing, R_setLegendPosition1, R_new. }
  split.
  { intros o. vm_compute. split; discriminate. }
  split; [vm_compute; reflexivity|].
  split; [vm_compute; reflexivity|].
  split; [vm_compute; reflexivity|].
  split; [vm_compute; reflexivity|].
  split; [vm_compute; reflexivity|].
  split; [vm_compute; reflexivity|].
  split; [vm_compute; reflexivity|].
  split; [vm_compute; reflexivity|].
  split; [vm_compute; reflexivity|].
  split; [vm_compute; reflexivity|].
  vm_compute; reflexivity.
Qed.

(** ** The configuration of a layout object *)

(** X1: in every state of a layout object the legend position is one of
    the four positions: the constructor sets [BottomLegend], and
    [setLegendPosition] stores a position only in the branches of the
    four positions, whatever the ratio is. *)
Theorem legendPosition_stays_valid (d : PrivateData) :
  Reachable d ->
  legendPosition d = LeftLegend \/ legendPosition d = RightLegend
  \/ legendPosition d = BottomLegend \/ legendPosition d = TopLegend.
Proof.
  intros HR. apply Reachable_legendPosition in HR.
  unfold legendPosition, isLegendPosition in *.
  repeat (apply orb_true_iff in HR; destruct HR as [HR|HR]);
    apply Z.eqb_eq in HR; tauto.
Qed.

Lemma legendPosition_stays_valid_witness :
  Reachable (setLegendPosition 7 (1 # 2)
               (setLegendPosition RightLegend (- (2))
                  (setSpacing 7 freshLayout)))
  /\ (legendPosition (setLegendPosition 7 (1 # 2)
                        (setLegendPosition RightLegend (- (2))
                           (setSpacing 7 freshLayout)))
      = LeftLegend
      \/ legendPosition (setLegendPosition 7 (1 # 2)
                           (setLegendPosition RightLegend (- (2))
                              (setSpacing 7 freshLayout)))
         = RightLegend
      \/ legendPosition (setLegendPosition 7 (1 # 2)
                           (setLegendPosition RightLegend (- (2))
                              (setSpacing 7 freshLayout)))
         = BottomLegend
      \/ legendPosition (setLegendPosition 7 (1 # 2)
                           (setLegendPosition RightLegend (- (2))
                              (setSpacing 7 freshLayout)))
         = TopLegend).
Proof.
  assert (H : Reachable (setLegendPosition 7 (1 # 2)
                           (setLegendPosition RightLegend (- (2))
                              (setSpacing 7 freshLayout)))).
  { apply R_setLegendPosition, R_setLegendPosition, R_setSpacing, R_new. }
  split; [exact H|].
  exact (legendPosition_stays_valid _ H).
Defined.

(** X2: a margin from -1 on, as an [int], is what [canvasMargin] returns
    after [setCanvasMargin] stored it as [unsigned]: for all four axes
    with the axis -1, for the one axis and no other with a valid
    axis. *)
Theorem setCanvasMargin_canvasMargin (m : Z) (d : PrivateData) :
  -1 <= m <= INT_MAX ->
  (forall axis, 0 <= axis < axisCnt ->
     canvasMargin axis (setCanvasMargin m (-1) d) = m)
  /\ (forall a, 0 <= a < axisCnt ->
        canvasMargin a (setCanvasMargin m a d) = m
        /\ (forall b, b <> a ->
              canvasMargin b (setCanvasMargin m a d) = canvasMargin b d)).
Proof.
  intros Hm.
  assert (Hlt : (m <? -1) = false) by (apply Z.ltb_ge; lia).
  assert (Hw : wrap_int (wrap_uint m) = m).
  { rewrite wrap_int_wrap_uint. apply wrap_int_small.
    unfold INT_MIN, INT_MAX in *. lia. }
  split.
  - intros axis Hax. unfold axisCnt in Hax.
    unfold setCanvasMargin, canvasMargin. rewrite Hlt.
    cbn [Z.eqb Pos.eqb with_canvasMargin d_canvasMargin fold_left allAxes].
    assert (C : axis = 0 \/ axis = 1 \/ axis = 2 \/ axis = 3) by lia.
    destruct C as [->|[->|[->| ->]]];
      cbn [Z.ltb Z.leb Z.compare Pos.compare Pos.compare_cont orb axisCnt];
      unfold axisOfInt;
      cbn [Z.ltb Z.leb Z.eqb Z.compare Pos.compare Pos.compare_cont Pos.eqb
           andb axisCnt];
      rewrite ?pget_pset_same;
      repeat (rewrite pget_pset_other by discriminate;
              rewrite ?pget_pset_same);
      exact Hw.
  - intros a Ha. unfold axisCnt in Ha.
    assert (Hne : (a =? -1) = false) by (apply Z.eqb_neq; lia).
    unfold setCanvasMargin. rewrite Hlt, Hne.
    destruct (axisOfInt a) as [ax0|] eqn:Ea.
    2:{ exfalso. unfold axisOfInt, axisCnt in Ea.
        replace (0 <=? a) with true in Ea by (symmetry; apply Z.leb_le; lia).
        replace (a <? 4) with true in Ea by (symmetry; apply Z.ltb_lt; lia).
        discriminate. }
    split.
    + unfold canvasMargin. rewrite Ea.
      replace ((a <? 0) || (axisCnt <=? a)) with false.
      * cbn [with_canvasMargin d_canvasMargin].
        rewrite pget_pset_same. exact Hw.
      * symmetry. apply orb_false_iff. split;
          [apply Z.ltb_ge | apply Z.leb_gt]; unfold axisCnt; lia.
    + intros b Hb. unfold canvasMargin.
      destruct ((b <? 0) || (axisCnt <=? b)); [reflexivity|].
      destruct (axisOfInt b) as [bx|] eqn:Eb; [|reflexivity].
      cbn [with_canvasMargin d_canvasMargin].
      rewrite pget_pset_other; [reflexivity|].
      intros ->. apply Hb. eapply axisOfInt_inj; eassumption.
Qed.

Lemma setCanvasMargin_canvasMargin_witness :
  -1 <= 12 <= INT_MAX
  /\ canvasMargin 1 (setCanvasMargin 12 (-1) freshLayout) = 12
  /\ canvasMargin 2 (setCanvasMargin 12 2 freshLayout) = 12
  /\ canvasMargin 3 (setCanvasMargin 12 2 freshLayout)
     = canvasMargin 3 freshLayout.
Proof.
  assert (H : -1 <= 12 <= INT_MAX) by (unfold INT_MAX; lia).
  split; [exact H|].
  split; [apply (setCanvasMargin_canvasMargin 12 freshLayout H);
          unfold axisCnt; lia|].
  split; [apply (setCanvasMargin_canvasMargin 12 freshLayout H);
          unfold axisCnt; lia|].
  destruct (proj2 (setCanvasMargin_canvasMargin 12 freshLayout H) 2)
    as [_ K]; [unfold axisCnt; lia|].
  apply K. lia.
Defined.

(** X3: [spacing] after [setSpacing( s )] is [s] for an [int] from 0 on
    and 0 for a negative one, through the [unsigned] member. *)
Theorem setSpacing_spacing (s : Z) (d : PrivateData) :
  INT_MIN <= s <= INT_MAX ->
  spacing (setSpacing s d) = Z.max 0 s.
Proof.
  intros Hs. unfold spacing, setSpacing. cbn [d_spacing with_spacing].
  rewrite wrap_int_wrap_uint. unfold qMax.
  destruct (0 <? s) eqn:E.
  - apply Z.ltb_lt in E. rewrite wrap_int_small by lia. lia.
  - apply Z.ltb_ge in E. rewrite wrap_int_small;
      unfold INT_MIN, INT_MAX in *; lia.
Qed.

Lemma setSpacing_spacing_witness :
  INT_MIN <= -3 <= INT_MAX /\ spacing (setSpacing (-3) freshLayout) = 0.
Proof.
  assert (H : INT_MIN <= -3 <= INT_MAX) by (unfold INT_MIN, INT_MAX; lia).
  split; [exact H|].
  exact (setSpacing_spacing (-3) freshLayout H).
Defined.

(** ** What a pass leaves alone *)

(** X4: [activate] changes no part of the configuration: legend
    position and ratio, spacing, canvas margins and the flags of
    [alignCanvasToScale] read after the pass as before it. *)
Theorem activate_keeps_configuration (fuel : nat) (plot : QwtPlot)
    (plotRect : QRectF) (options : Z) (d d' : PrivateData) :
  activate fuel plot plotRect options d = Some d' ->
  legendPosition d' = legendPosition d
  /\ legendRatio d' = legendRatio d
  /\ spacing d' = spacing d
  /\ (forall axis, canvasMargin axis d' = canvasMargin axis d)
  /\ (forall axis, alignCanvasToScale axis d' = alignCanvasToScale axis d).
Proof.
  intros H. apply activate_config in H. unfold config in H.
  injection H as H1 H2 H3 H4 H5.
  unfold legendPosition, legendRatio, spacing, canvasMargin,
    alignCanvasToScale.
  rewrite H1, H2, H3, H4, H5. repeat split.
Qed.

Lemma activate_keeps_configuration_witness :
  activate 3 labelledPlot (mkQRectF 0 0 400 300) 0 freshLayout
  = Some labelledLayout
  /\ spacing labelledLayout = spacing freshLayout.
Proof.
  assert (H : activate 3 labelledPlot (mkQRectF 0 0 400 300) 0 freshLayout
              = Some labelledLayout) by (vm_compute; reflexivity).
  split; [exact H|].
  apply (activate_keeps_configuration 3 labelledPlot (mkQRectF 0 0 400 300)
           0 freshLayout labelledLayout H).
Defined.

(** [minimumSizeHint] reads the configuration only. *)
Lemma minimumSizeHint_config plot d d' :
  config d' = config d -> minimumSizeHint plot d' = minimumSizeHint plot d.
Proof.
  unfold config. intros H. injection H as H1 H2 H3 H4 H5.
  unfold minimumSizeHint, minimumSizeHint_scaleData, canvasBorderOf.
  rewrite H4. cbv zeta.
  set (sd := shiftScaleData _ _).
  assert (L : forall wh lbl,
             addLabel plot d' sd wh lbl = addLabel plot d sd wh lbl).
  { intros wh lbl. unfold addLabel. rewrite H3. reflexivity. }
  assert (G : forall wh, addLegend plot d' wh = addLegend plot d wh).
  { intros wh. unfold addLegend. rewrite H1, H2, H3. reflexivity. }
  cbn [fold_left]. rewrite !L, G. reflexivity.
Qed.

(** X5: a pass does not change what [minimumSizeHint] returns, for any
    plot: the hint depends on the configuration, not on the geometry
    computed last. *)
Theorem minimumSizeHint_after_activate (fuel : nat) (plot other : QwtPlot)
    (plotRect : QRectF) (options : Z) (d d' : PrivateData) :
  activate fuel plot plotRect options d = Some d' ->
  minimumSizeHint other d' = minimumSizeHint other d.
Proof.
  intros H. apply minimumSizeHint_config.
  apply (activate_config _ _ _ _ _ _ H).
Qed.

Lemma minimumSizeHint_after_activate_witness :
  activate 3 labelledPlot (mkQRectF 0 0 400 300) 0 freshLayout
  = Some labelledLayout
  /\ minimumSizeHint cornerPlot labelledLayout
     = minimumSizeHint cornerPlot freshLayout.
Proof.
  assert (H : activate 3 labelledPlot (mkQRectF 0 0 400 300) 0 freshLayout
              = Some labelledLayout) by (vm_compute; reflexivity).
  split; [exact H|].
  exact (minimumSizeHint_after_activate 3 labelledPlot cornerPlot
           (mkQRectF 0 0 400 300) 0 freshLayout labelledLayout H).
Defined.

(** ** alignScales: the canvas only shrinks *)

(** X7: for a canvas and axis rectangles on the pixel grid, [alignScales]
    never enlarges the canvas: every edge of the canvas it returns lies
    within the canvas it was given (the first loop moves edges inwards
    only, the second loop does not touch the canvas).  (On the grid the
    arithmetic of the code is exact; off it, [setLeft] and [setTop] can
    move the opposite edge by a rounding error.) *)
Theorem alignScales_shrinks_canvas (options : Z) (d : PrivateData)
    (canvasRect : QRectF) (scaleRect : PerAxis QRectF) :
  pixelAligned canvasRect ->
  (forall a, pixelAligned (pget scaleRect a)) ->
  (left canvasRect
   <= left (fst (alignScales options d (canvasRect, scaleRect))))%Q
  /\ (right (fst (alignScales options d (canvasRect, scaleRect)))
      <= right canvasRect)%Q
  /\ (top canvasRect
      <= top (fst (alignScales options d (canvasRect, scaleRect))))%Q
  /\ (bottom (fst (alignScales options d (canvasRect, scaleRect)))
      <= bottom canvasRect)%Q.
Proof.
  intros _ _. exact (alignScales_inside options d canvasRect scaleRect).
Qed.

Lemma alignScales_shrinks_canvas_witness :
  pixelAligned (mkQRectF 40 0 360 280)
  /\ (forall a,
        pixelAligned
          (pget (mkPerAxis (mkQRectF 0 0 40 280) QRectF_null
                   (mkQRectF 40 280 360 20) QRectF_null) a))
  /\ (bottom (fst (alignScales 0 alignLayout
                     (mkQRectF 40 0 360 280,
                      mkPerAxis (mkQRectF 0 0 40 280) QRectF_null
                        (mkQRectF 40 280 360 20) QRectF_null)))
      <= bottom (mkQRectF 40 0 360 280))%Q.
Proof.
  assert (G1 : pixelAligned (mkQRectF 40 0 360 280)).
  { exists 40, 0, 360, 280. unfold maxPixels.
    split; [reflexivity|]. lia. }
  assert (G2 : forall a,
             pixelAligned
               (pget (mkPerAxis (mkQRectF 0 0 40 280) QRectF_null
                        (mkQRectF 40 280 360 20) QRectF_null) a)).
  { intros a. destruct a; cbn [pget atYLeft atYRight atXBottom atXTop].
    - exists 0, 0, 40, 280. unfold maxPixels. split; [reflexivity|]. lia.
    - exists 0, 0, 0, 0. unfold maxPixels. split; [reflexivity|]. lia.
    - exists 40, 280, 360, 20. unfold maxPixels. split; [reflexivity|]. lia.
    - exists 0, 0, 0, 0. unfold maxPixels. split; [reflexivity|]. lia. }
  split; [exact G1|]. split; [exact G2|].
  apply (alignScales_shrinks_canvas 0 alignLayout (mkQRectF 40 0 360 280)
           (mkPerAxis (mkQRectF 0 0 40 280) QRectF_null
              (mkQRectF 40 280 360 20) QRectF_null) G1 G2).
Defined.

(** ** expandLineBreaks: what the loop returns *)

Lemma expandTitle_cases options rect d dims done :
  expandTitle options rect d (dims, done) = (dims, done)
  \/ (exists dd,
        expandTitle options rect d (dims, done)
        = (mkDims dd (dimFooter dims) (dimAxis dims), false)
        /\ hasOption options IgnoreTitle = false
        /\ text_isEmpty (tl_text (title (d_layoutData d))) = false).
Proof.
  unfold expandTitle.
  destruct (hasOption options IgnoreTitle); [left; reflexivity|].
  destruct (text_isEmpty _); [left; reflexivity|].
  cbn [orb negb].
  match goal with |- context [if ?c then (mkDims ?dd _ _, false) else _] =>
    destruct c; [right; exists dd; repeat split | left; reflexivity] end.
Qed.

Lemma expandFooter_cases options rect d dims done :
  expandFooter options rect d (dims, done) = (dims, done)
  \/ (exists dd,
        expandFooter options rect d (dims, done)
        = (mkDims (dimTitle dims) dd (dimAxis dims), false)
        /\ hasOption options IgnoreFooter = false
        /\ text_isEmpty (ft_text (footer (d_layoutData d))) = false).
Proof.
  unfold expandFooter.
  destruct (hasOption options IgnoreFooter); [left; reflexivity|].
  destruct (text_isEmpty _); [left; reflexivity|].
  cbn [orb negb].
  match goal with |- context [if ?c then (mkDims _ ?dd _, false) else _] =>
    destruct c; [right; exists dd; repeat split | left; reflexivity] end.
Qed.

Lemma expandAxis_cases rect d bo dims done axis :
  expandAxis rect d bo (dims, done) axis = (dims, done)
  \/ (exists dd,
        expandAxis rect d bo (dims, done) axis
        = (mkDims (dimTitle dims) (dimFooter dims)
             (pset (dimAxis dims) axis dd), false)
        /\ isEnabled (pget (scale (d_layoutData d)) axis) = true).
Proof.
  unfold expandAxis.
  destruct (isEnabled _); [|left; reflexivity].
  match goal with
  |- context [if ?c then (mkDims _ _ (pset _ _ ?dd), false) else _] =>
    destruct c; [right; exists dd; repeat split | left; reflexivity] end.
Qed.

Lemma expandTitle_untouched options rect d dims done :
  untouched options d dims ->
  untouched options d (fst (expandTitle options rect d (dims, done))).
Proof.
  intros U.
  destruct (expandTitle_cases options rect d dims done)
    as [-> | (dd & -> & I & T)]; [exact U|].
  destruct U as (_ & U2 & U3). cbn [fst]. unfold untouched.
  cbn [dimTitle dimFooter dimAxis].
  split; [intros [C|C]; congruence|]. split; assumption.
Qed.

Lemma expandFooter_untouched options rect d dims done :
  untouched options d dims ->
  untouched options d (fst (expandFooter options rect d (dims, done))).
Proof.
  intros U.
  destruct (expandFooter_cases options rect d dims done)
    as [-> | (dd & -> & I & T)]; [exact U|].
  destruct U as (U1 & _ & U3). cbn [fst]. unfold untouched.
  cbn [dimTitle dimFooter dimAxis].
  split; [assumption|]. split; [intros [C|C]; congruence | assumption].
Qed.

Lemma expandAxis_untouched options rect d bo dims done axis :
  untouched options d dims ->
  untouched options d (fst (expandAxis rect d bo (dims, done) axis)).
Proof.
  intros U.
  destruct (expandAxis_cases rect d bo dims done axis)
    as [-> | (dd & -> & E)]; [exact U|].
  destruct U as (U1 & U2 & U3). cbn [fst]. unfold untouched.
  cbn [dimTitle dimFooter dimAxis].
  split; [assumption|]. split; [assumption|].
  intros b Hb.
  assert (D : axis = b \/ axis <> b)
    by (destruct axis, b; (left; reflexivity) || (right; discriminate)).
  destruct D as [<-|N]; [congruence|].
  rewrite pget_pset_other by exact N. apply U3, Hb.
Qed.

Lemma expandBody_untouched options rect d bo dims :
  untouched options d dims ->
  untouched options d (fst (expandBody options rect d bo dims)).
Proof.
  intros U. unfold expandBody. cbn [fold_left allAxes].
  pose proof (expandTitle_untouched options rect d dims true U) as U1.
  destruct (expandTitle options rect d (dims, true)) as [d1 b1].
  cbn [fst] in U1.
  pose proof (expandFooter_untouched options rect d d1 b1 U1) as U2.
  destruct (expandFooter options rect d (d1, b1)) as [d2 b2].
  cbn [fst] in U2.
  pose proof (expandAxis_untouched options rect d bo d2 b2 yLeft U2) as U3.
  destruct (expandAxis rect d bo (d2, b2) yLeft) as [d3 b3].
  cbn [fst] in U3.
  pose proof (expandAxis_untouched options rect d bo d3 b3 yRight U3) as U4.
  destruct (expandAxis rect d bo (d3, b3) yRight) as [d4 b4].
  cbn [fst] in U4.
  pose proof (expandAxis_untouched options rect d bo d4 b4 xBottom U4) as U5.
  destruct (expandAxis rect d bo (d4, b4) xBottom) as [d5 b5].
  cbn [fst] in U5.
  apply (expandAxis_untouched options rect d bo d5 b5 xTop U5).
Qed.

Lemma expandLoop_untouched fuel options rect d bo :
  forall dims0 dims,
    untouched options d dims0 ->
    expandLoop fuel options rect d bo dims0 = Some dims ->
    untouched options d dims.
Proof.
  induction fuel as [|n IH]; intros dims0 dims U H; [discriminate|].
  cbn [expandLoop] in H.
  pose proof (expandBody_untouched options rect d bo dims0 U) as U1.
  destruct (expandBody options rect d bo dims0) as [dims1 done].
  cbn [fst] in U1. destruct done.
  - inversion H; subst. exact U1.
  - apply (IH dims1 dims U1 H).
Qed.

(** A round that ends with [done] still set has changed nothing. *)
Lemma expandBody_done options rect d bo dims dims' :
  expandBody options rect d bo dims = (dims', true) -> dims' = dims.
Proof.
  unfold expandBody. cbn [fold_left allAxes].
  destruct (expandTitle_cases options rect d dims true)
    as [-> | (t & -> & _)];
  [ destruct (expandFooter_cases options rect d dims true)
      as [-> | (f & -> & _)]
  | destruct (expandFooter_cases options rect d
                (mkDims t (dimFooter dims) (dimAxis dims)) false)
      as [-> | (f & -> & _)] ];
  match goal with
  | |- context [expandAxis rect d bo (?d0, ?b0) yLeft] =>
      destruct (expandAxis_cases rect d bo d0 b0 yLeft)
        as [-> | (a1 & -> & _)]
  end;
  match goal with
  | |- context [expandAxis rect d bo (?d0, ?b0) yRight] =>
      destruct (expandAxis_cases rect d bo d0 b0 yRight)
        as [-> | (a2 & -> & _)]
  end;
  match goal with
  | |- context [expandAxis rect d bo (?d0, ?b0) xBottom] =>
      destruct (expandAxis_cases rect d bo d0 b0 xBottom)
        as [-> | (a3 & -> & _)]
  end;
  match goal with
  | |- context [expandAxis rect d bo (?d0, ?b0) xTop] =>
      destruct (expandAxis_cases rect d bo d0 b0 xTop)
        as [-> | (a4 & -> & _)]
  end;
  intros H; inversion H; reflexivity.
Qed.

Lemma expandLoop_fixed fuel options rect d bo :
  forall dims0 dims,
    expandLoop fuel options rect d bo dims0 = Some dims ->
    expandBody options rect d bo dims = (dims, true).
Proof.
  induction fuel as [|n IH]; intros dims0 dims H; [discriminate|].
  cbn [expandLoop] in H.
  destruct (expandBody options rect d bo dims0) as [dims1 done] eqn:E.
  destruct done.
  - inversion H; subst dims1.
    rewrite (expandBody_done _ _ _ _ _ _ E) in E |- *. exact E.
  - apply (IH dims1 dims H).
Qed.

Lemma Dims_zero_untouched options d : untouched options d Dims_zero.
Proof.
  unfold untouched, Dims_zero. cbn [dimTitle dimFooter dimAxis].
  repeat split. intros axis _. destruct axis; reflexivity.
Qed.

Lemma expandLineBreaks_untouched fuel options rect d dims :
  expandLineBreaks fuel options rect d = Some dims ->
  untouched options d dims.
Proof.
  unfold expandLineBreaks. intros H.
  eapply expandLoop_untouched; [apply Dims_zero_untouched | exact H].
Qed.

(** X12: what [expandLineBreaks] returns is a fixed point of its loop:
    one more round with these accumulators changes none of them and
    leaves [done] set, so each of them is at least what its text needs
    at the widths that the others leave. *)
Theorem expandLineBreaks_fixed_point (fuel : nat) (options : Z)
    (rect : QRectF) (d : PrivateData) (dims : Dims) :
  expandLineBreaks fuel options rect d = Some dims ->
  expandBody options rect d
    (mkPerAxis (expand_backboneOffset options d yLeft)
               (expand_backboneOffset options d yRight)
               (expand_backboneOffset options d xBottom)
               (expand_backboneOffset options d xTop)) dims
  = (dims, true).
Proof.
  unfold expandLineBreaks. apply expandLoop_fixed.
Qed.

Lemma expandLineBreaks_fixed_point_witness :
  expandLineBreaks 2 0 (mkQRectF 0 0 10 10) tallTitleLayout
  = Some (mkDims 1000 0 (pfill 0))
  /\ expandBody 0 (mkQRectF 0 0 10 10) tallTitleLayout
       (mkPerAxis (expand_backboneOffset 0 tallTitleLayout yLeft)
                  (expand_backboneOffset 0 tallTitleLayout yRight)
                  (expand_backboneOffset 0 tallTitleLayout xBottom)
                  (expand_backboneOffset 0 tallTitleLayout xTop))
       (mkDims 1000 0 (pfill 0))
     = (mkDims 1000 0 (pfill 0), true).
Proof.
  assert (H : expandLineBreaks 2 0 (mkQRectF 0 0 10 10) tallTitleLayout
              = Some (mkDims 1000 0 (pfill 0))) by (vm_compute; reflexivity).
  split; [exact H|].
  exact (expandLineBreaks_fixed_point 2 0 (mkQRectF 0 0 10 10)
           tallTitleLayout (mkDims 1000 0 (pfill 0)) H).
Defined.

(** ** expandLineBreaks: the number of rounds *)

(** Every round but the last takes at least one from the slack, so the
    loop has ended after one round more than the slack it starts
    with. *)
Lemma expandLoop_rounds options rect d bo :
  scales_in_range d ->
  forall (m : nat) (dims : Dims),
    dims_in_range dims -> (Z.to_nat (dims_slack dims) <= m)%nat ->
    exists (fuel : nat) (dims' : Dims),
      (fuel <= S m)%nat
      /\ (forall n, (fuel <= n)%nat ->
            expandLoop n options rect d bo dims = Some dims')
      /\ dims_in_range dims'.
Proof.
  intros Hwf m. induction m as [|m IH]; intros dims R Hm.
  - pose proof (expandBody_round options rect d bo dims Hwf R) as (L & R1 & Sl).
    pose proof (dims_in_range_slack _ R) as P0.
    pose proof (dims_in_range_slack _ R1) as P1.
    destruct (expandBody options rect d bo dims) as [dims1 done] eqn:E.
    cbn [fst snd] in *. destruct done; [|lia].
    exists 1%nat, dims1. split; [lia|]. split; [|assumption].
    intros n Hn. destruct n as [|n]; [lia|]. simpl. rewrite E. reflexivity.
  - pose proof (expandBody_round options rect d bo dims Hwf R) as (L & R1 & Sl).
    pose proof (dims_in_range_slack _ R) as P0.
    pose proof (dims_in_range_slack _ R1) as P1.
    destruct (expandBody options rect d bo dims) as [dims1 done] eqn:E.
    cbn [fst snd] in *. destruct done.
    + exists 1%nat, dims1. split; [lia|]. split; [|assumption].
      intros n Hn. destruct n as [|n]; [lia|]. simpl. rewrite E. reflexivity.
    + destruct (IH dims1 R1) as (fuel & dims' & B & F & R'); [lia|].
      exists (S fuel), dims'. split; [lia|]. split; [|exact R'].
      intros n Hn. destruct n as [|n]; [lia|]. simpl. rewrite E.
      apply F. lia.
Qed.

Lemma dims_slack_zero : dims_slack Dims_zero = 6 * INT_MAX.
Proof. reflexivity. Qed.

(** C6: the loop of [expandLineBreaks] ends for every input (the layout
    data holding [int]s, as they do after [LayoutData::init]): some
    number of rounds, at most 6 * INT_MAX + 1, reaches [done], and more
    rounds allowed change nothing.  In each round no accumulator
    ([dimTitle], [dimFooter], [dimAxis] of an axis) shrinks, all stay
    between 0 and INT_MAX, and a round that does not end the loop has
    raised one of them; so it is over a whole run of the loop.  The
    bound is the largest [int], not the rectangle. *)
Theorem expandLineBreaks_loop_ends (options : Z) (rect : QRectF)
    (d : PrivateData) :
  scales_in_range d ->
  (exists (fuel : nat) (dims : Dims),
     (fuel <= S (Z.to_nat (6 * INT_MAX)))%nat
     /\ (forall n, (fuel <= n)%nat ->
           expandLineBreaks n options rect d = Some dims)
     /\ dims_in_range dims)
  /\ (forall (bo : PerAxis Z) (dims : Dims),
        dims_in_range dims ->
        dims_le dims (fst (expandBody options rect d bo dims))
        /\ dims_in_range (fst (expandBody options rect d bo dims))
        /\ (snd (expandBody options rect d bo dims) = false ->
            dims_slack (fst (expandBody options rect d bo dims))
            < dims_slack dims))
  /\ (forall (n : nat) (bo : PerAxis Z) (dims dims' : Dims),
        dims_in_range dims ->
        expandLoop n options rect d bo dims = Some dims' ->
        dims_le dims dims' /\ dims_in_range dims').
Proof.
  intros Hwf. split; [|split].
  - unfold expandLineBreaks. rewrite <- dims_slack_zero.
    apply (expandLoop_rounds options rect d _ Hwf
             (Z.to_nat (dims_slack Dims_zero)) Dims_zero
             Dims_zero_in_range (Nat.le_refl _)).
  - intros bo dims R.
    destruct (expandBody_round options rect d bo dims Hwf R) as (L & R1 & S1).
    split; [exact L|]. split; [exact R1|].
    intros E. rewrite E in S1. exact S1.
  - intros n bo dims dims' R E.
    destruct (expandLoop_range options rect d bo Hwf n dims dims' R E)
      as [R' L']. split; assumption.
Qed.

Lemma expandLineBreaks_loop_ends_witness :
  scales_in_range tallTitleLayout
  /\ exists (fuel : nat) (dims : Dims),
       (fuel <= S (Z.to_nat (6 * INT_MAX)))%nat
       /\ (forall n, (fuel <= n)%nat ->
             expandLineBreaks n 0 (mkQRectF 0 0 10 10) tallTitleLayout
             = Some dims)
       /\ dims_in_range dims.
Proof.
  assert (H : scales_in_range tallTitleLayout).
  { intros axis. destruct axis; vm_compute; split; discriminate. }
  split; [exact H|].
  exact (proj1 (expandLineBreaks_loop_ends 0 (mkQRectF 0 0 10 10)
                  tallTitleLayout H)).
Defined.

(** ** alignScales: what it leaves alone *)

Lemma alignAxis1_invalid d bo st a :
  isValid (pget (snd st) a) = false -> alignAxis1 d bo st a = st.
Proof.
  intros H. unfold alignAxis1. destruct st as [c sr]. cbn [snd] in H.
  rewrite H. reflexivity.
Qed.

Lemma alignAxis2_other options d c sr a b :
  a <> b -> pget (alignAxis2 options d c sr a) b = pget sr b.
Proof.
  intros Hab. unfold alignAxis2.
  destruct (negb (isValid (pget sr a))); [reflexivity|].
  apply pget_pset_other, Hab.
Qed.

Lemma alignAxis2_invalid options d c sr a :
  isValid (pget sr a) = false -> alignAxis2 options d c sr a = sr.
Proof.
  intros H. unfold alignAxis2. rewrite H. reflexivity.
Qed.

Lemma alignAxis1_keeps d bo st a b :
  isValid (pget (snd st) b) = false ->
  pget (snd (alignAxis1 d bo st a)) b = pget (snd st) b.
Proof.
  intros H.
  assert (D : a = b \/ a <> b)
    by (destruct a, b; (left; reflexivity) || (right; discriminate)).
  destruct D as [->|N].
  - rewrite alignAxis1_invalid by exact H. reflexivity.
  - apply alignAxis1_other, N.
Qed.

Lemma alignAxis2_keeps options d c sr a b :
  isValid (pget sr b) = false ->
  pget (alignAxis2 options d c sr a) b = pget sr b.
Proof.
  intros H.
  assert (D : a = b \/ a <> b)
    by (destruct a, b; (left; reflexivity) || (right; discriminate)).
  destruct D as [->|N].
  - rewrite alignAxis2_invalid by exact H. reflexivity.
  - apply alignAxis2_other, N.
Qed.

(** Both loops skip a rectangle that is not valid. *)
Lemma alignScales_keeps_invalid options d c sr b :
  isValid (pget sr b) = false ->
  pget (snd (alignScales options d (c, sr))) b = pget sr b.
Proof.
  intros H. unfold alignScales, alignScales_pass2, alignScales_pass1.
  cbn [fold_left allAxes snd].
  set (bo := alignScales_backbone options d).
  set (s1 := alignAxis1 d bo (c, sr) yLeft).
  set (s2 := alignAxis1 d bo s1 yRight).
  set (s3 := alignAxis1 d bo s2 xBottom).
  set (s4 := alignAxis1 d bo s3 xTop).
  assert (E1 : pget (snd s1) b = pget sr b)
    by (apply (alignAxis1_keeps d bo (c, sr) yLeft b H)).
  assert (E2 : pget (snd s2) b = pget sr b).
  { unfold s2. rewrite alignAxis1_keeps; [exact E1|]. rewrite E1. exact H. }
  assert (E3 : pget (snd s3) b = pget sr b).
  { unfold s3. rewrite alignAxis1_keeps; [exact E2|]. rewrite E2. exact H. }
  assert (E4 : pget (snd s4) b = pget sr b).
  { unfold s4. rewrite alignAxis1_keeps; [exact E3|]. rewrite E3. exact H. }
  clearbody s4.
  set (c4 := fst s4).
  set (t1 := alignAxis2 options d c4 (snd s4) yLeft).
  set (t2 := alignAxis2 options d c4 t1 yRight).
  set (t3 := alignAxis2 options d c4 t2 xBottom).
  assert (F1 : pget t1 b = pget sr b).
  { unfold t1. rewrite alignAxis2_keeps; [exact E4|]. rewrite E4. exact H. }
  assert (F2 : pget t2 b = pget sr b).
  { unfold t2. rewrite alignAxis2_keeps; [exact F1|]. rewrite F1. exact H. }
  assert (F3 : pget t3 b = pget sr b).
  { unfold t3. rewrite alignAxis2_keeps; [exact F2|]. rewrite F2. exact H. }
  rewrite alignAxis2_keeps; [exact F3|]. rewrite F3. exact H.
Qed.

(** With [alignCanvasToScale] off for an edge, an axis is clipped and
    the canvas stays. *)
Lemma alignAxis1_canvas_off d bo st a :
  (forall e, pget (d_alignCanvasToScales d) e = false) ->
  fst (alignAxis1 d bo st a) = fst st.
Proof.
  intros Hoff. unfold alignAxis1. destruct st as [c sr].
  destruct (negb (isValid (pget sr a))); [reflexivity|].
  unfold alignLeft, alignRight, alignBottom, alignTop.
  rewrite !Hoff. cbn [andb].
  destruct (isXAxis a).
  - destruct (isValid (pget sr yLeft)), (isValid (pget sr yRight));
      repeat match goal with
             | |- context [if ?c then _ else _] => destruct c
             end; reflexivity.
  - destruct (isValid (pget sr xBottom)), (isValid (pget sr xTop));
      repeat match goal with
             | |- context [if ?c then _ else _] => destruct c
             end; reflexivity.
Qed.

(** X13: with [alignCanvasToScale] off for all four edges, as the
    constructor leaves it, [alignScales] returns the canvas it was
    given: only rectangles of axes are clipped. *)
Theorem alignScales_keeps_canvas (options : Z) (d : PrivateData)
    (canvasRect : QRectF) (scaleRect : PerAxis QRectF) :
  (forall axis, pget (d_alignCanvasToScales d) axis = false) ->
  fst (alignScales options d (canvasRect, scaleRect)) = canvasRect.
Proof.
  intros Hoff. rewrite alignScales_canvas. unfold alignScales_pass1.
  cbn [fold_left allAxes].
  rewrite !alignAxis1_canvas_off by exact Hoff. reflexivity.
Qed.

Lemma alignScales_keeps_canvas_witness :
  (forall axis, pget (d_alignCanvasToScales labelledLayout) axis = false)
  /\ fst (alignScales 0 labelledLayout
            (mkQRectF 40 0 360 280,
             mkPerAxis (mkQRectF 0 0 40 280) QRectF_null
               (mkQRectF 40 280 360 20) QRectF_null))
     = mkQRectF 40 0 360 280.
Proof.
  assert (H : forall axis,
             pget (d_alignCanvasToScales labelledLayout) axis = false)
    by (intros axis; destruct axis; vm_compute; reflexivity).
  split; [exact H|].
  exact (alignScales_keeps_canvas 0 labelledLayout (mkQRectF 40 0 360 280)
           (mkPerAxis (mkQRectF 0 0 40 280) QRectF_null
              (mkQRectF 40 280 360 20) QRectF_null) H).
Defined.

(** One round of the second loop puts the rectangle of an axis whose
    edge has [alignCanvasToScale] set against the canvas. *)
Lemma alignAxis2_meets options d c sr axis :
  pget (d_alignCanvasToScales d) axis = true ->
  isValid (pget sr axis) = true ->
  match axis with
  | yLeft => (right (pget (alignAxis2 options d c sr axis) axis) == left c)%Q
  | yRight => (left (pget (alignAxis2 options d c sr axis) axis) == right c)%Q
  | xBottom => (top (pget (alignAxis2 options d c sr axis) axis) == bottom c)%Q
  | xTop => (bottom (pget (alignAxis2 options d c sr axis) axis) == top c)%Q
  end.
Proof.
  intros Hal Hv. unfold alignAxis2. rewrite Hv, Hal. cbn [negb].
  rewrite pget_pset_same.
  destruct axis; cbn [isXAxis];
    repeat match goal with
           | |- context [if ?c then _ else _] => destruct c
           end;
    unfold right, left, top, bottom, setRight, setLeft, setTop, setBottom;
    cbn [xp yp w h]; ring.
Qed.

(** X14: for a canvas and axis rectangles on the pixel grid and tick
    offsets in whole pixels: after [alignScales], the rectangle of an axis whose edge has
    [alignCanvasToScale] set, and which the first loop left valid, ends
    where the canvas begins: the left axis with its right edge at the
    left edge of the canvas, the right axis with its left edge at the
    right edge of the canvas, and so for bottom and top.  (On the grid
    every edge is an integer, on which the arithmetic of the code is
    exact.) *)
Theorem alignScales_scale_meets_canvas (options : Z) (d : PrivateData)
    (canvasRect : QRectF) (scaleRect : PerAxis QRectF) (axis : Axis) :
  pixelAligned canvasRect ->
  (forall a, pixelAligned (pget scaleRect a)) ->
  wholeTicks d ->
  pget (d_alignCanvasToScales d) axis = true ->
  isValid (pget (snd (alignScales_pass1 options d (canvasRect, scaleRect)))
             axis) = true ->
  match axis with
  | yLeft =>
      (right (pget (snd (alignScales options d (canvasRect, scaleRect))) axis)
       == left (fst (alignScales options d (canvasRect, scaleRect))))%Q
  | yRight =>
      (left (pget (snd (alignScales options d (canvasRect, scaleRect))) axis)
       == right (fst (alignScales options d (canvasRect, scaleRect))))%Q
  | xBottom =>
      (top (pget (snd (alignScales options d (canvasRect, scaleRect))) axis)
       == bottom (fst (alignScales options d (canvasRect, scaleRect))))%Q
  | xTop =>
      (bottom (pget (snd (alignScales options d (canvasRect, scaleRect))) axis)
       == top (fst (alignScales options d (canvasRect, scaleRect))))%Q
  end.
Proof.
  intros _ _ _ Hal Hv. unfold alignScales, alignScales_pass2.
  set (s := alignScales_pass1 options d (canvasRect, scaleRect)) in *.
  clearbody s. destruct s as [c sr]. cbn [fst snd fold_left allAxes] in *.
  set (t1 := alignAxis2 options d c sr yLeft).
  set (t2 := alignAxis2 options d c t1 yRight).
  set (t3 := alignAxis2 options d c t2 xBottom).
  destruct axis.
  - unfold t3, t2. rewrite !alignAxis2_other by discriminate.
    apply (alignAxis2_meets options d c sr yLeft Hal Hv).
  - unfold t3. rewrite !alignAxis2_other by discriminate.
    apply (alignAxis2_meets options d c t1 yRight Hal).
    unfold t1. rewrite alignAxis2_other by discriminate. exact Hv.
  - rewrite !alignAxis2_other by discriminate.
    apply (alignAxis2_meets options d c t2 xBottom Hal).
    unfold t2, t1. rewrite !alignAxis2_other by discriminate. exact Hv.
  - apply (alignAxis2_meets options d c t3 xTop Hal).
    unfold t3, t2, t1. rewrite !alignAxis2_other by discriminate. exact Hv.
Qed.

Lemma alignScales_scale_meets_canvas_witness :
  pixelAligned (mkQRectF 40 0 360 280)
  /\ (forall a,
        pixelAligned
          (pget (mkPerAxis (mkQRectF 0 0 40 280) QRectF_null
                   (mkQRectF 40 280 360 20) QRectF_null) a))
  /\ wholeTicks alignLayout
  /\ pget (d_alignCanvasToScales alignLayout) xBottom = true
  /\ isValid (pget (snd (alignScales_pass1 0 alignLayout
                           (mkQRectF 40 0 360 280,
                            mkPerAxis (mkQRectF 0 0 40 280) QRectF_null
                              (mkQRectF 40 280 360 20) QRectF_null)))
                xBottom) = true
  /\ (top (pget (snd (alignScales 0 alignLayout
                        (mkQRectF 40 0 360 280,
                         mkPerAxis (mkQRectF 0 0 40 280) QRectF_null
                           (mkQRectF 40 280 360 20) QRectF_null)))
             xBottom)
      == bottom (fst (alignScales 0 alignLayout
                        (mkQRectF 40 0 360 280,
                         mkPerAxis (mkQRectF 0 0 40 280) QRectF_null
                           (mkQRectF 40 280 360 20) QRectF_null))))%Q.
Proof.
  assert (G1 : pixelAligned (mkQRectF 40 0 360 280)).
  { exists 40, 0, 360, 280. unfold maxPixels.
    split; [reflexivity|]. lia. }
  assert (G2 : forall a,
             pixelAligned
               (pget (mkPerAxis (mkQRectF 0 0 40 280) QRectF_null
                        (mkQRectF 40 280 360 20) QRectF_null) a)).
  { intros a. destruct a; cbn [pget atYLeft atYRight atXBottom atXTop].
    - exists 0, 0, 40, 280. unfold maxPixels. split; [reflexivity|]. lia.
    - exists 0, 0, 0, 0. unfold maxPixels. split; [reflexivity|]. lia.
    - exists 40, 280, 360, 20. unfold maxPixels. split; [reflexivity|]. lia.
    - exists 0, 0, 0, 0. unfold maxPixels. split; [reflexivity|]. lia. }
  assert (G3 : wholeTicks alignLayout).
  { intros a. exists 0. destruct a; vm_compute; reflexivity. }
  assert (H1 : pget (d_alignCanvasToScales alignLayout) xBottom = true)
    by (vm_compute; reflexivity).
  assert (H2 : isValid (pget (snd (alignScales_pass1 0 alignLayout
                           (mkQRectF 40 0 360 280,
                            mkPerAxis (mkQRectF 0 0 40 280) QRectF_null
                              (mkQRectF 40 280 360 20) QRectF_null)))
                xBottom) = true) by (vm_compute; reflexivity).
  split; [exact G1|]. split; [exact G2|]. split; [exact G3|].
  split; [exact H1|]. split; [exact H2|].
  exact (alignScales_scale_meets_canvas 0 alignLayout (mkQRectF 40 0 360 280)
           (mkPerAxis (mkQRectF 0 0 40 280) QRectF_null
              (mkQRectF 40 280 360 20) QRectF_null) xBottom G1 G2 G3 H1 H2).
Defined.
(** ** alignScales: the bottom end of a vertical axis *)

(** The second loop puts the bottom edge of a vertical axis, with the
    canvas aligned to the bottom scale, at the bottom of the canvas less
    one plus the end border distance of the axis, less the frame of the
    canvas. *)
Lemma alignAxis2_bottom options d c sr axis :
  isYAxis axis = true ->
  pget (d_alignCanvasToScales d) xBottom = true ->
  isValid (pget sr axis) = true ->
  (bottom (pget (alignAxis2 options d c sr axis) axis)
   == bottom c - 1 + inject_Z (end_ (pget (scale (d_layoutData d)) axis))
      - (if negb (hasOption options IgnoreFrames)
         then inject_Z (pget (contentsMargins (canvas (d_layoutData d)))
                          xBottom)
         else 0))%Q.
Proof.
  intros Hy Hal Hv. unfold alignAxis2. rewrite Hv, Hal. cbn [negb].
  rewrite pget_pset_same.
  destruct axis; try discriminate Hy; cbn [isXAxis];
    repeat match goal with
           | |- context [if ?c then _ else _] => destruct c
           end;
    unfold right, left, top, bottom, setRight, setLeft, setTop, setBottom;
    cbn [xp yp w h]; ring.
Qed.

(** The same after the whole pass. *)
Lemma alignScales_axis_bottom options d canvasRect scaleRect axis :
  isYAxis axis = true ->
  pget (d_alignCanvasToScales d) xBottom = true ->
  isValid (pget (snd (alignScales_pass1 options d (canvasRect, scaleRect)))
             axis) = true ->
  (bottom (pget (snd (alignScales options d (canvasRect, scaleRect))) axis)
   == bottom (fst (alignScales options d (canvasRect, scaleRect))) - 1
      + inject_Z (end_ (pget (scale (d_layoutData d)) axis))
      - (if negb (hasOption options IgnoreFrames)
         then inject_Z (pget (contentsMargins (canvas (d_layoutData d)))
                          xBottom)
         else 0))%Q.
Proof.
  intros Hy Hal Hv. unfold alignScales, alignScales_pass2.
  set (s := alignScales_pass1 options d (canvasRect, scaleRect)) in *.
  clearbody s. destruct s as [c sr]. cbn [fst snd fold_left allAxes] in *.
  set (t1 := alignAxis2 options d c sr yLeft).
  destruct axis; try discriminate Hy.
  - rewrite !alignAxis2_other by discriminate.
    apply (alignAxis2_bottom options d c sr yLeft eq_refl Hal Hv).
  - rewrite !alignAxis2_other by discriminate.
    apply (alignAxis2_bottom options d c t1 yRight eq_refl Hal).
    unfold t1. rewrite alignAxis2_other by discriminate. exact Hv.
Qed.

(** C2: with [alignCanvasToScale] set for the bottom edge, for a
    vertical axis with a valid rectangle whose clearance at the bottom
    is negative (the backbone offset of the bottom edge, less the end
    border distance of the axis, plus one, plus the height of the
    rectangle of the bottom scale when that is valid), the block of
    lines 1116-1152 sets the bottom edge of the canvas to the smaller of
    what it was and the bottom of the axis plus the clearance, and
    leaves the rectangle of the axis as it is.  For rectangles on the
    pixel grid and tick offsets in whole pixels (where the arithmetic of
    the code is exact), the canvas that [alignScales] returns has its
    bottom edge at most there and never below where it was, the first
    loop leaves the bottom edge of the axis where it was, and the second
    loop puts it, when the first loop left the rectangle valid, the end
    border distance less one, less the frame of the canvas, below the
    bottom edge of the canvas. *)
Theorem alignScales_bottom_accommodates (options : Z) (d : PrivateData)
    (canvasRect : QRectF) (scaleRect : PerAxis QRectF) (axis : Axis) :
  isYAxis axis = true ->
  pget (d_alignCanvasToScales d) xBottom = true ->
  isValid (pget scaleRect axis) = true ->
  let bo := alignScales_backbone options d in
  let endDist := end_ (pget (scale (d_layoutData d)) axis) in
  let dy := bottomClearance d bo endDist (pget scaleRect xBottom) in
  (dy < 0)%Q ->
  alignBottom d bo endDist (pget scaleRect xBottom)
    (canvasRect, pget scaleRect axis)
  = (setBottom (qwtMinF (bottom canvasRect)
                  (bottom (pget scaleRect axis) + dy)%Q) canvasRect,
     pget scaleRect axis)
  /\ (pixelAligned canvasRect ->
      (forall a, pixelAligned (pget scaleRect a)) ->
      wholeTicks d ->
      let st1 := alignScales_pass1 options d (canvasRect, scaleRect) in
      let st := alignScales options d (canvasRect, scaleRect) in
      (bottom (fst st) <= bottom (pget scaleRect axis) + dy)%Q
      /\ (bottom (fst st) <= bottom canvasRect)%Q
      /\ (bottom (pget (snd st1) axis) == bottom (pget scaleRect axis))%Q
      /\ (isValid (pget (snd st1) axis) = true ->
          (bottom (pget (snd st) axis)
           == bottom (fst st) - 1 + inject_Z endDist
              - (if negb (hasOption options IgnoreFrames)
                 then inject_Z
                        (pget (contentsMargins (canvas (d_layoutData d)))
                           xBottom)
                 else 0))%Q)).
Proof.
  intros Hy Hal Hv bo endDist dy Hdy. split.
  - exact (alignBottom_needs_more d bo endDist (pget scaleRect xBottom)
             canvasRect (pget scaleRect axis) Hal Hdy).
  - intros _ _ _ st1 st.
    destruct (alignScales_bottom_edges options d canvasRect scaleRect axis
                Hy Hal Hv Hdy) as (E1 & E2 & E3).
    split; [exact E1|]. split; [exact E2|]. split; [exact E3|].
    intros Hv1.
    exact (alignScales_axis_bottom options d canvasRect scaleRect axis
             Hy Hal Hv1).
Qed.

(** On [alignLayout]: the left axis needs 30 pixels below its last
    tick, the bottom scale is 20 pixels high, the clearance is -9; the
    canvas ends at 271 instead of 280, and the rectangle of the axis
    ends at 300 = 271 - 1 + 30. *)
Lemma alignScales_bottom_accommodates_witness :
  isYAxis yLeft = true
  /\ pget (d_alignCanvasToScales alignLayout) xBottom = true
  /\ isValid (mkQRectF 0 0 40 280) = true
  /\ (bottomClearance alignLayout (alignScales_backbone 0 alignLayout)
        (end_ (pget (scale (d_layoutData alignLayout)) yLeft))
        (mkQRectF 40 280 360 20) == - (9))%Q
  /\ pixelAligned (mkQRectF 40 0 360 280)
  /\ (forall a,
        pixelAligned
          (pget (mkPerAxis (mkQRectF 0 0 40 280) QRectF_null
                   (mkQRectF 40 280 360 20) QRectF_null) a))
  /\ wholeTicks alignLayout
  /\ (bottom (fst (alignScales 0 alignLayout
                     (mkQRectF 40 0 360 280,
                      mkPerAxis (mkQRectF 0 0 40 280) QRectF_null
                        (mkQRectF 40 280 360 20) QRectF_null)))
      <= bottom (mkQRectF 0 0 40 280) + - (9))%Q
  /\ (bottom (pget (snd (alignScales 0 alignLayout
                           (mkQRectF 40 0 360 280,
                            mkPerAxis (mkQRectF 0 0 40 280) QRectF_null
                              (mkQRectF 40 280 360 20) QRectF_null))) yLeft)
      == bottom (fst (alignScales 0 alignLayout
                        (mkQRectF 40 0 360 280,
                         mkPerAxis (mkQRectF 0 0 40 280) QRectF_null
                           (mkQRectF 40 280 360 20) QRectF_null)))
         - 1 + 30 - 0)%Q.
Proof.
  assert (G1 : pixelAligned (mkQRectF 40 0 360 280)).
  { exists 40, 0, 360, 280. unfold maxPixels.
    split; [reflexivity|]. lia. }
  assert (G2 : forall a,
             pixelAligned
               (pget (mkPerAxis (mkQRectF 0 0 40 280) QRectF_null
                        (mkQRectF 40 280 360 20) QRectF_null) a)).
  { intros a. destruct a; cbn [pget atYLeft atYRight atXBottom atXTop].
    - exists 0, 0, 40, 280. unfold maxPixels. split; [reflexivity|]. lia.
    - exists 0, 0, 0, 0. unfold maxPixels. split; [reflexivity|]. lia.
    - exists 40, 280, 360, 20. unfold maxPixels. split; [reflexivity|]. lia.
    - exists 0, 0, 0, 0. unfold maxPixels. split; [reflexivity|]. lia. }
  assert (G3 : wholeTicks alignLayout).
  { intros a. exists 0. destruct a; vm_compute; reflexivity. }
  assert (H1 : isYAxis yLeft = true) by reflexivity.
  assert (H2 : pget (d_alignCanvasToScales alignLayout) xBottom = true)
    by (vm_compute; reflexivity).
  assert (H3 : isValid (pget (mkPerAxis (mkQRectF 0 0 40 280) QRectF_null
                                (mkQRectF 40 280 360 20) QRectF_null) yLeft)
               = true) by (vm_compute; reflexivity).
  assert (H4 : (bottomClearance alignLayout (alignScales_backbone 0 alignLayout)
                  (end_ (pget (scale (d_layoutData alignLayout)) yLeft))
                  (pget (mkPerAxis (mkQRectF 0 0 40 280) QRectF_null
                           (mkQRectF 40 280 360 20) QRectF_null) xBottom)
                == - (9))%Q) by (vm_compute; reflexivity).
  assert (H5 : (bottomClearance alignLayout (alignScales_backbone 0 alignLayout)
                  (end_ (pget (scale (d_layoutData alignLayout)) yLeft))
                  (pget (mkPerAxis (mkQRectF 0 0 40 280) QRectF_null
                           (mkQRectF 40 280 360 20) QRectF_null) xBottom)
                < 0)%Q) by (vm_compute; reflexivity).
  assert (H6 : isValid
                 (pget (snd (alignScales_pass1 0 alignLayout
                               (mkQRectF 40 0 360 280,
                                mkPerAxis (mkQRectF 0 0 40 280) QRectF_null
                                  (mkQRectF 40 280 360 20) QRectF_null)))
                    yLeft) = true) by (vm_compute; reflexivity).
  assert (H7 : end_ (pget (scale (d_layoutData alignLayout)) yLeft) = 30)
    by (vm_compute; reflexivity).
  split; [exact H1|]. split; [exact H2|]. split; [exact H3|].
  split; [exact H4|]. split; [exact G1|]. split; [exact G2|].
  split; [exact G3|].
  destruct (alignScales_bottom_accommodates 0 alignLayout
              (mkQRectF 40 0 360 280)
              (mkPerAxis (mkQRectF 0 0 40 280) QRectF_null
                 (mkQRectF 40 280 360 20) QRectF_null)
              yLeft H1 H2 H3 H5) as (_ & K).
  destruct (K G1 G2 G3) as (A & _ & _ & B).
  split.
  - cbn [pget atYLeft] in A. rewrite H4 in A. exact A.
  - specialize (B H6). rewrite H7 in B. exact B.
Defined.

(** C2, as it is worded, fails in its premise: the canvas margin is not
    what the border distance is measured against.  On [clipLayout] the
    canvas is aligned to the bottom scale, the canvas margin at the
    bottom is 4, the border distances of the bottom axis are 20 and the
    end border distance of the left axis is 10, all more than the
    margin; but the bottom scale is 20 pixels high, the clearance of the
    left axis is 0 - 10 + 1 + 20 = 11, and the test at line 1123 fails:
    lines 1134-1137 bound the rectangle of the axis by the top of the
    bottom scale plus its tick offset (282 instead of 289) and the
    bottom edge of the canvas stays at 280, through the second loop (the
    axis then ends at 289) and for [activate] as a whole. *)
Lemma alignScales_bottom_stays :
  alignCanvasToScale 2 clipLayout = true
  /\ canvasMargin 2 clipLayout = 4
  /\ start (pget (scale (d_layoutData clipLayout)) xBottom) = 20
  /\ end_ (pget (scale (d_layoutData clipLayout)) xBottom) = 20
  /\ end_ (pget (scale (d_layoutData clipLayout)) yLeft) = 10
  /\ (bottomClearance clipLayout (alignScales_backbone 0 clipLayout) 10
        (mkQRectF 40 280 360 20) == 11)%Q
  /\ (bottom (fst (alignScales 0 clipLayout
                     (mkQRectF 40 0 360 280,
                      mkPerAxis (mkQRectF 0 0 40 280) QRectF_null
                        (mkQRectF 40 280 360 20) QRectF_null)))
      == 280)%Q
  /\ (bottom (pget (snd (alignScales_pass1 0 clipLayout
                           (mkQRectF 40 0 360 280,
                            mkPerAxis (mkQRectF 0 0 40 280) QRectF_null
                              (mkQRectF 40 280 360 20) QRectF_null))) yLeft)
      == 282)%Q
  /\ (bottom (pget (snd (alignScales 0 clipLayout
                           (mkQRectF 40 0 360 280,
                            mkPerAxis (mkQRectF 0 0 40 280) QRectF_null
                              (mkQRectF 40 280 360 20) QRectF_null))) yLeft)
      == 289)%Q
  /\ activate 3 clipPlot (mkQRectF 0 0 400 300) 0
       (setAlignCanvasToScale 2 true freshLayout) = Some clipLayout
  /\ (bottom (canvasRect clipLayout) == 280)%Q
  /\ (top (scaleRect 2 clipLayout) == 280)%Q
  /\ (height (scaleRect 2 clipLayout) == 20)%Q.
Proof.
  split; [vm_compute; reflexivity|].
  split; [vm_compute; reflexivity|].
  split; [vm_compute; reflexivity|].
  split; [vm_compute; reflexivity|].
  split; [vm_compute; reflexivity|].
  split; [vm_compute; reflexivity|].
  split; [vm_compute; reflexivity|].
  split; [vm_compute; reflexivity|].
  split; [vm_compute; reflexivity|].
  split; [vm_compute; reflexivity|].
  split; [vm_compute; reflexivity|].
  split; [vm_compute; reflexivity|].
  vm_compute; reflexivity.
Qed.

(** ** activate: the parts that are left out *)

Lemma activate_title_skip dims d rect :
  (dimTitle dims = 0 ->
   d_titleRect (fst (activate_title dims (d, rect))) = d_titleRect d)
  /\ d_footerRect (fst (activate_title dims (d, rect))) = d_footerRect d
  /\ d_legendRect (fst (activate_title dims (d, rect))) = d_legendRect d
  /\ d_scaleRect (fst (activate_title dims (d, rect))) = d_scaleRect d.
Proof.
  unfold activate_title. destruct (0 <? dimTitle dims) eqn:E.
  - repeat split. intros H. rewrite H in E. discriminate.
  - repeat split.
Qed.

Lemma activate_footer_skip dims d rect :
  (dimFooter dims = 0 ->
   d_footerRect (fst (activate_footer dims (d, rect))) = d_footerRect d)
  /\ d_titleRect (fst (activate_footer dims (d, rect))) = d_titleRect d
  /\ d_legendRect (fst (activate_footer dims (d, rect))) = d_legendRect d
  /\ d_scaleRect (fst (activate_footer dims (d, rect))) = d_scaleRect d.
Proof.
  unfold activate_footer. destruct (0 <? dimFooter dims) eqn:E.
  - repeat split. intros H. rewrite H in E. discriminate.
  - repeat split.
Qed.

Lemma activate_scale_keeps dims d a b :
  pget (dimAxis dims) b = 0 ->
  pget (d_scaleRect (activate_scale dims d a)) b = pget (d_scaleRect d) b.
Proof.
  intros H. unfold activate_scale.
  destruct (pget (dimAxis dims) a =? 0) eqn:E; cbn [negb]; [reflexivity|].
  cbn [d_scaleRect with_scaleRect]. apply pget_pset_other.
  intros ->. rewrite H in E. discriminate.
Qed.

Lemma activate_scales_keep dims d b :
  pget (dimAxis dims) b = 0 ->
  pget (d_scaleRect (fold_left (activate_scale dims) allAxes d)) b
  = pget (d_scaleRect d) b.
Proof.
  intros H. cbn [fold_left allAxes].
  rewrite !activate_scale_keeps by exact H. reflexivity.
Qed.

(** The frame of [activate_canvas] and of the write-back of
    [alignScales], for the rectangles of the axes. *)
Lemma activate_canvas_scaleRect dims rect d :
  d_scaleRect (activate_canvas dims rect d) = d_scaleRect d.
Proof. reflexivity. Qed.

Lemma aligned_scaleRect (c : QRectF) (sr : PerAxis QRectF) d :
  d_scaleRect (with_scaleRect sr (with_canvasRect c d)) = sr.
Proof. reflexivity. Qed.

Lemma with_legendRect_scaleRect (l : QRectF) d :
  d_scaleRect (with_legendRect l d) = d_scaleRect d.
Proof. reflexivity. Qed.

Lemma activate_finish_skips options dims d1 r1 :
  (dimTitle dims = 0 ->
   d_titleRect (activate_finish options dims (d1, r1)) = d_titleRect d1)
  /\ (dimFooter dims = 0 ->
      d_footerRect (activate_finish options dims (d1, r1)) = d_footerRect d1)
  /\ (isEmpty (d_legendRect d1) = true ->
      d_legendRect (activate_finish options dims (d1, r1)) = d_legendRect d1)
  /\ (forall b,
        pget (dimAxis dims) b = 0 ->
        isValid (pget (d_scaleRect d1) b) = false ->
        pget (d_scaleRect (activate_finish options dims (d1, r1))) b
        = pget (d_scaleRect d1) b).
Proof.
  unfold activate_finish.
  destruct (activate_title_skip dims d1 r1) as (T1 & T2 & T3 & T4).
  destruct (activate_title dims (d1, r1)) as [d2 r2].
  cbn [fst] in T1, T2, T3, T4.
  destruct (activate_footer_skip dims d2 r2) as (F1 & F2 & F3 & F4).
  destruct (activate_footer dims (d2, r2)) as [d3 r3].
  cbn [fst] in F1, F2, F3, F4.
  destruct (activate_canvas_frame dims r3 d3) as (K1 & K2 & K3 & _).
  pose proof (activate_canvas_scaleRect dims r3 d3) as K4.
  set (d4 := activate_canvas dims r3 d3) in *. clearbody d4.
  destruct (activate_scales_config dims d4) as (_ & _ & _ & S4 & S5 & S6).
  pose proof (activate_scales_keep dims d4) as S7.
  set (d5 := fold_left (activate_scale dims) allAxes d4) in *. clearbody d5.
  pose proof (alignScales_keeps_invalid options d5 (d_canvasRect d5)
                (d_scaleRect d5)) as A.
  set (st := alignScales options d5 (d_canvasRect d5, d_scaleRect d5)) in *.
  clearbody st.
  destruct (aligned_frame (fst st) (snd st) d5) as (_ & E6t & E6f & E6l & _).
  pose proof (aligned_scaleRect (fst st) (snd st) d5) as E6s.
  set (d6 := with_scaleRect (snd st) (with_canvasRect (fst st) d5)) in *.
  clearbody d6.
  assert (Pt : d_titleRect d6 = d_titleRect d2) by congruence.
  assert (Pf : d_footerRect d6 = d_footerRect d3) by congruence.
  assert (Pl : d_legendRect d6 = d_legendRect d1) by congruence.
  assert (Ps : forall b,
             pget (dimAxis dims) b = 0 ->
             isValid (pget (d_scaleRect d1) b) = false ->
             pget (d_scaleRect d6) b = pget (d_scaleRect d1) b).
  { intros b Hb Hv. rewrite E6s.
    assert (E5 : pget (d_scaleRect d5) b = pget (d_scaleRect d1) b).
    { rewrite (S7 b Hb), K4, F4, T4. reflexivity. }
    rewrite A; [exact E5|]. rewrite E5. exact Hv. }
  destruct (negb (isEmpty (d_legendRect d6))) eqn:El.
  - destruct (with_legendRect_frame
                (alignLegend (d_canvasRect d6) (d_legendRect d6) d6) d6)
      as (_ & W2 & W3 & W4).
    rewrite W2, W3, W4, with_legendRect_scaleRect.
    split; [intros H; rewrite Pt; apply T1, H|].
    split; [intros H; rewrite Pf, (F1 H); exact T2|].
    split; [|exact Ps].
    intros H. rewrite Pl, H in El. discriminate.
  - split; [intros H; rewrite Pt; apply T1, H|].
    split; [intros H; rewrite Pf, (F1 H); exact T2|].
    split; [intros _; exact Pl | exact Ps].
Qed.

(** What [activate] starts from: every rectangle is [QRect()]. *)
Lemma activate_start_null plot plotRect options d :
  let d1 := fst (activate_legend plot options plotRect
                   (with_layoutData
                      (LayoutData_init plot plotRect
                         (d_layoutData (invalidate d)))
                      (invalidate d))) in
  d_titleRect d1 = QRectF_null /\ d_footerRect d1 = QRectF_null
  /\ (hasOption options IgnoreLegend = true \/ hasLegend plot = false ->
      d_legendRect d1 = QRectF_null)
  /\ (forall b, pget (d_scaleRect d1) b = QRectF_null).
Proof.
  cbv zeta. unfold activate_legend.
  destruct (hasOption options IgnoreLegend) eqn:I;
    destruct (hasLegend plot) eqn:L; cbn [negb andb fst];
    repeat split; try (intros b; destruct b; reflexivity);
    intros [C|C]; discriminate.
Qed.

(** X15: [activate] leaves out what the options or the plot exclude:
    the title and the footer rectangle stay [QRect()] with [IgnoreTitle]
    or [IgnoreFooter] set or an empty text, the legend rectangle with
    [IgnoreLegend] set or no (or an empty) legend, and the rectangle of
    every axis that is not enabled. *)
Theorem activate_leaves_out (fuel : nat) (plot : QwtPlot)
    (plotRect : QRectF) (options : Z) (d d' : PrivateData) :
  activate fuel plot plotRect options d = Some d' ->
  (hasOption options IgnoreTitle = true
   \/ text_isEmpty (fst (init_label (plot_titleLabel plot))) = true ->
   titleRect d' = QRectF_null)
  /\ (hasOption options IgnoreFooter = true
      \/ text_isEmpty (fst (init_label (plot_footerLabel plot))) = true ->
      footerRect d' = QRectF_null)
  /\ (hasOption options IgnoreLegend = true \/ hasLegend plot = false ->
      legendRect d' = QRectF_null)
  /\ (forall axis,
        plot_axisEnabled plot axis = false ->
        pget (d_scaleRect d') axis = QRectF_null).
Proof.
  intros H.
  destruct (activate_stages _ _ _ _ _ _ H)
    as (d0 & d1 & r1 & dims & E0 & E1 & E2 & E3).
  destruct (activate_start_null plot plotRect options d)
    as (N1 & N2 & N3 & N4).
  rewrite <- E0, E1 in N1, N2, N3, N4. cbn [fst] in N1, N2, N3, N4.
  destruct (activate_legend_config plot options plotRect d0) as [_ Ll].
  rewrite E1 in Ll. cbn [fst] in Ll.
  destruct (expandLineBreaks_untouched _ _ _ _ _ E2) as (U1 & U2 & U3).
  rewrite Ll, E0 in U1, U2, U3.
  cbn [d_layoutData with_layoutData LayoutData_init title footer scale
       tl_text ft_text] in U1, U2, U3.
  destruct (activate_finish_skips options dims d1 r1) as (S1 & S2 & S3 & S4).
  rewrite <- E3 in S1, S2, S3, S4.
  unfold titleRect, footerRect, legendRect.
  split; [intros C; rewrite (S1 (U1 C)); exact N1|].
  split; [intros C; rewrite (S2 (U2 C)); exact N2|].
  split.
  - intros C. rewrite S3; rewrite (N3 C); reflexivity.
  - intros axis Ha. rewrite S4.
    + apply N4.
    + apply U3. destruct axis; cbn [pget atYLeft atYRight atXBottom atXTop];
        unfold init_scale; rewrite Ha; reflexivity.
    + rewrite N4. reflexivity.
Qed.

Lemma activate_leaves_out_witness :
  activate 3 labelledPlot (mkQRectF 0 0 400 300) 0 freshLayout
  = Some labelledLayout
  /\ pget (d_scaleRect labelledLayout) yRight = QRectF_null
  /\ pget (d_scaleRect labelledLayout) xTop = QRectF_null.
Proof.
  assert (H : activate 3 labelledPlot (mkQRectF 0 0 400 300) 0 freshLayout
              = Some labelledLayout) by (vm_compute; reflexivity).
  split; [exact H|].
  split;
    apply (activate_leaves_out 3 labelledPlot (mkQRectF 0 0 400 300) 0
             freshLayout labelledLayout H); reflexivity.
Defined.

(** ** activate: the canvas within the plot rectangle *)

(** What is left of a rectangle on the pixel grid when the legend is
    taken, less the spacing, lies within the rectangle unless it is
    empty. *)
Lemma remaining_inside X Y W H sp pos l r1 :
  - maxPixels <= X <= maxPixels -> - maxPixels <= Y <= maxPixels ->
  0 <= W <= maxPixels -> 0 <= H <= maxPixels -> 0 <= sp ->
  (if pos =? LeftLegend
   then setLeft
          (left (QRectF_of_QRect
                   (subtractedBoundingRect
                      (toRect (mkQRectF (inject_Z X) (inject_Z Y)
                                 (inject_Z W) (inject_Z H)))
                      (toRect l))) + inject_Z sp)%Q
          (QRectF_of_QRect
             (subtractedBoundingRect
                (toRect (mkQRectF (inject_Z X) (inject_Z Y)
                           (inject_Z W) (inject_Z H)))
                (toRect l)))
   else if pos =? RightLegend
   then setRight
          (right (QRectF_of_QRect
                    (subtractedBoundingRect
                       (toRect (mkQRectF (inject_Z X) (inject_Z Y)
                                  (inject_Z W) (inject_Z H)))
                       (toRect l))) - inject_Z sp)%Q
          (QRectF_of_QRect
             (subtractedBoundingRect
                (toRect (mkQRectF (inject_Z X) (inject_Z Y)
                           (inject_Z W) (inject_Z H)))
                (toRect l)))
   else if pos =? TopLegend
   then setTop
          (top (QRectF_of_QRect
                  (subtractedBoundingRect
                     (toRect (mkQRectF (inject_Z X) (inject_Z Y)
                                (inject_Z W) (inject_Z H)))
                     (toRect l))) + inject_Z sp)%Q
          (QRectF_of_QRect
             (subtractedBoundingRect
                (toRect (mkQRectF (inject_Z X) (inject_Z Y)
                           (inject_Z W) (inject_Z H)))
                (toRect l)))
   else if pos =? BottomLegend
   then setBottom
          (bottom (QRectF_of_QRect
                     (subtractedBoundingRect
                        (toRect (mkQRectF (inject_Z X) (inject_Z Y)
                                   (inject_Z W) (inject_Z H)))
                        (toRect l))) - inject_Z sp)%Q
          (QRectF_of_QRect
             (subtractedBoundingRect
                (toRect (mkQRectF (inject_Z X) (inject_Z Y)
                           (inject_Z W) (inject_Z H)))
                (toRect l)))
   else QRectF_of_QRect
          (subtractedBoundingRect
             (toRect (mkQRectF (inject_Z X) (inject_Z Y)
                        (inject_Z W) (inject_Z H)))
             (toRect l)))
  = r1 ->
  (0 < w r1)%Q -> (0 < h r1)%Q ->
  inside r1 (mkQRectF (inject_Z X) (inject_Z Y) (inject_Z W) (inject_Z H)).
Proof.
  intros HX HY HW HH Hsp E Pw Ph.
  assert (Qsp : (0 <= inject_Z sp)%Q)
    by (change 0%Q with (inject_Z 0); rewrite <- Zle_Qle; exact Hsp).
  pose proof (rest_cases X Y W H HX HY HW HH l) as RC. cbv beta zeta in RC.
  set (r := QRectF_of_QRect _) in *.
  destruct RC
    as [N|(b & _ & B1 & B2 & B3 & B4 & I1 & I2 & I3 & I4 & _)].
  - exfalso. clearbody r. subst r.
    repeat match type of E with
           | (if ?c then _ else _) = _ => destruct c
           end; subst r1;
      unfold setLeft, setRight, setTop, setBottom, left, right, top, bottom,
        QRectF_null in Pw, Ph; cbn [xp yp w h] in Pw, Ph; lra.
  - assert (Q1 : (inject_Z X <= inject_Z (x1 b))%Q)
      by (rewrite <- Zle_Qle; exact I1).
    assert (Q2 : (inject_Z (x2 b + 1) <= inject_Z X + inject_Z W)%Q)
      by (rewrite <- inject_Z_plus, <- Zle_Qle; lia).
    assert (Q3 : (inject_Z Y <= inject_Z (y1 b))%Q)
      by (rewrite <- Zle_Qle; exact I3).
    assert (Q4 : (inject_Z (y2 b + 1) <= inject_Z Y + inject_Z H)%Q)
      by (rewrite <- inject_Z_plus, <- Zle_Qle; lia).
    clearbody r.
    repeat match type of E with
           | (if ?c then _ else _) = _ => destruct c
           end; subst r1;
      unfold inside, setLeft, setRight, setTop, setBottom, left, right, top,
        bottom in *; cbn [xp yp w h] in *;
      clear - Qsp B1 B2 B3 B4 Q1 Q2 Q3 Q4 Pw Ph; repeat split; lra.
Qed.

Lemma activate_legend_inside plot options X Y W H d0 d1 r1 :
  - maxPixels <= X <= maxPixels -> - maxPixels <= Y <= maxPixels ->
  0 <= W <= maxPixels -> 0 <= H <= maxPixels -> 0 <= d_spacing d0 ->
  activate_legend plot options
    (mkQRectF (inject_Z X) (inject_Z Y) (inject_Z W) (inject_Z H)) d0
  = (d1, r1) ->
  (0 < w r1)%Q -> (0 < h r1)%Q ->
  inside r1 (mkQRectF (inject_Z X) (inject_Z Y) (inject_Z W) (inject_Z H)).
Proof.
  intros HX HY HW HH Hsp Hact Pw Ph. unfold activate_legend in Hact.
  destruct (negb (hasOption options IgnoreLegend) && hasLegend plot).
  - cbn [d_legendRect d_legendPos d_spacing with_legendRect] in Hact.
    injection Hact as _ Er.
    exact (remaining_inside X Y W H (d_spacing d0) (d_legendPos d0) _ r1
             HX HY HW HH Hsp Er Pw Ph).
  - injection Hact as _ <-. apply inside_refl.
Qed.

(** X16: after a pass of a layout object over a plot rectangle with
    integer coordinates, a valid canvas lies within the plot
    rectangle. *)
Theorem activate_canvas_within_plotRect (fuel : nat) (plot : QwtPlot)
    (plotRect : QRectF) (options : Z) (d d' : PrivateData) :
  Reachable d ->
  pixelAligned plotRect ->
  activate fuel plot plotRect options d = Some d' ->
  isValid (canvasRect d') = true ->
  (left plotRect <= left (canvasRect d'))%Q
  /\ (right (canvasRect d') <= right plotRect)%Q
  /\ (top plotRect <= top (canvasRect d'))%Q
  /\ (bottom (canvasRect d') <= bottom plotRect)%Q.
Proof.
  intros HR (X & Y & W & H & -> & HX & HY & HW & HH) Hact Hv.
  destruct (Reachable_config d HR) as (Hs & _).
  destruct (activate_stages _ _ _ _ _ _ Hact)
    as (d0 & d1 & r1 & dims & E0 & E1 & E2 & E3).
  assert (W0 : scales_in_range d0).
  { rewrite E0. apply init_scales_in_range. }
  destruct (activate_legend_config plot options
              (mkQRectF (inject_Z X) (inject_Z Y) (inject_Z W) (inject_Z H))
              d0) as [Lc Ll].
  destruct (activate_legend_frame plot options
              (mkQRectF (inject_Z X) (inject_Z Y) (inject_Z W) (inject_Z H))
              d0) as [Lt Lf].
  rewrite E1 in Lc, Ll, Lt, Lf. cbn [fst] in Lc, Ll, Lt, Lf.
  assert (W1 : scales_in_range d1).
  { intros axis. rewrite Ll. apply W0. }
  pose proof (expandLineBreaks_range _ _ _ _ _ W1 E2) as R.
  unfold config in Lc. injection Lc as _ _ C3 _ _.
  assert (S0 : 0 <= d_spacing d0) by (rewrite E0; exact Hs).
  assert (S1 : 0 <= d_spacing d1) by (rewrite C3; exact S0).
  assert (T1 : d_titleRect d1 = QRectF_null).
  { rewrite Lt, E0. apply QRect_null_as_QRectF. }
  assert (F1 : d_footerRect d1 = QRectF_null).
  { rewrite Lf, E0. apply QRect_null_as_QRectF. }
  destruct (activate_finish_geometry options dims d1 r1 S1 R T1 F1)
    as (G1 & _ & _).
  unfold canvasRect in *. rewrite <- E3 in G1.
  destruct (isValid_positive _ Hv) as [Wc Hc].
  destruct (inside_extent _ _ G1) as [Iw Ih].
  assert (Pw : (0 < w r1)%Q) by lra.
  assert (Ph : (0 < h r1)%Q) by lra.
  exact (inside_trans _ _ _ G1
           (activate_legend_inside plot options X Y W H d0 d1 r1
              HX HY HW HH S0 E1 Pw Ph)).
Qed.

Lemma activate_canvas_within_plotRect_witness :
  Reachable freshLayout
  /\ pixelAligned (mkQRectF 0 0 400 300)
  /\ activate 3 labelledPlot (mkQRectF 0 0 400 300) 0 freshLayout
     = Some labelledLayout
  /\ isValid (canvasRect labelledLayout) = true
  /\ (right (canvasRect labelledLayout) <= right (mkQRectF 0 0 400 300))%Q.
Proof.
  assert (H1 : Reachable freshLayout) by apply R_new.
  assert (H2 : pixelAligned (mkQRectF 0 0 400 300)).
  { exists 0, 0, 400, 300. unfold maxPixels.
    split; [reflexivity|]. lia. }
  assert (H4 : activate 3 labelledPlot (mkQRectF 0 0 400 300) 0 freshLayout
               = Some labelledLayout) by (vm_compute; reflexivity).
  assert (H5 : isValid (canvasRect labelledLayout) = true)
    by (vm_compute; reflexivity).
  split; [exact H1|]. split; [exact H2|]. split; [exact H4|].
  split; [exact H5|].
  apply (activate_canvas_within_plotRect 3 labelledPlot
           (mkQRectF 0 0 400 300) 0 freshLayout labelledLayout H1 H2 H4 H5).
Defined.

(** ** activate: the axes beside the canvas *)

Lemma besideCanvas_intersects axis c r :
  isValid c = true -> besideCanvas axis c r -> intersects c r = false.
Proof.
  intros Hv B. destruct (isValid_positive c Hv) as [Wc Hc].
  destruct (norm_positive_w c Wc) as [NL NR].
  destruct (norm_positive_h c Hc) as [NT NB].
  destruct axis; destruct B as [P B].
  - apply intersects_apartX. right.
    destruct (norm_positive_w r P) as [_ ->]. rewrite NL. exact B.
  - apply intersects_apartX. left.
    destruct (norm_positive_w r P) as [-> _]. rewrite NR. exact B.
  - apply intersects_apartY. left.
    destruct (norm_positive_h r P) as [-> _]. rewrite NB. exact B.
  - apply intersects_apartY. right.
    destruct (norm_positive_h r P) as [_ ->]. rewrite NT. exact B.
Qed.

(** The first loop moves the ends of an axis along the axis only. *)
Lemma alignLeft_axisRect d bo sD lsr c ar :
  yp (snd (alignLeft d bo sD lsr (c, ar))) = yp ar
  /\ h (snd (alignLeft d bo sD lsr (c, ar))) = h ar.
Proof. unfold alignLeft. repeat case_if; split; reflexivity. Qed.

Lemma alignRight_axisRect d bo eD rsr c ar :
  yp (snd (alignRight d bo eD rsr (c, ar))) = yp ar
  /\ h (snd (alignRight d bo eD rsr (c, ar))) = h ar.
Proof. unfold alignRight. repeat case_if; split; reflexivity. Qed.

Lemma alignBottom_axisRect d bo eD bsr c ar :
  xp (snd (alignBottom d bo eD bsr (c, ar))) = xp ar
  /\ w (snd (alignBottom d bo eD bsr (c, ar))) = w ar.
Proof. unfold alignBottom. repeat case_if; split; reflexivity. Qed.

Lemma alignTop_axisRect d bo sD tsr c ar :
  xp (snd (alignTop d bo sD tsr (c, ar))) = xp ar
  /\ w (snd (alignTop d bo sD tsr (c, ar))) = w ar.
Proof. unfold alignTop. repeat case_if; split; reflexivity. Qed.

Lemma alignAxis1_across d bo st a :
  if isXAxis a
  then yp (pget (snd (alignAxis1 d bo st a)) a) = yp (pget (snd st) a)
       /\ h (pget (snd (alignAxis1 d bo st a)) a) = h (pget (snd st) a)
  else xp (pget (snd (alignAxis1 d bo st a)) a) = xp (pget (snd st) a)
       /\ w (pget (snd (alignAxis1 d bo st a)) a) = w (pget (snd st) a).
Proof.
  unfold alignAxis1. destruct st as [c sr]. cbn [snd].
  destruct (negb (isValid (pget sr a))).
  { cbn [snd]. destruct (isXAxis a); split; reflexivity. }
  destruct (isXAxis a).
  - pose proof (alignLeft_axisRect d bo
                  (start (pget (scale (d_layoutData d)) a)) (pget sr yLeft)
                  c (pget sr a)) as [L1 L2].
    destruct (alignLeft _ _ _ _ _) as [c1 ar1]. cbn [snd] in L1, L2.
    pose proof (alignRight_axisRect d bo
                  (end_ (pget (scale (d_layoutData d)) a)) (pget sr yRight)
                  c1 ar1) as [R1 R2].
    destruct (alignRight _ _ _ _ _) as [c2 ar2]. cbn [snd] in *.
    rewrite pget_pset_same. split; congruence.
  - pose proof (alignBottom_axisRect d bo
                  (end_ (pget (scale (d_layoutData d)) a)) (pget sr xBottom)
                  c (pget sr a)) as [L1 L2].
    destruct (alignBottom _ _ _ _ _) as [c1 ar1]. cbn [snd] in L1, L2.
    pose proof (alignTop_axisRect d bo
                  (start (pget (scale (d_layoutData d)) a)) (pget sr xTop)
                  c1 ar1) as [R1 R2].
    destruct (alignTop _ _ _ _ _) as [c2 ar2]. cbn [snd] in *.
    rewrite pget_pset_same. split; congruence.
Qed.

(** A round of the first loop keeps the axes beside the canvas. *)
Lemma alignAxis1_beside d bo st a b :
  besideCanvas b (fst st) (pget (snd st) b) ->
  besideCanvas b (fst (alignAxis1 d bo st a))
    (pget (snd (alignAxis1 d bo st a)) b).
Proof.
  intros B. pose proof (alignAxis1_inside d bo st a) as (I1 & I2 & I3 & I4).
  assert (D : a = b \/ a <> b)
    by (destruct a, b; (left; reflexivity) || (right; discriminate)).
  destruct D as [->|N].
  - pose proof (alignAxis1_across d bo st b) as A.
    set (st' := alignAxis1 d bo st b) in *. clearbody st'.
    destruct b; cbn [isXAxis] in A; destruct A as [A1 A2];
      unfold besideCanvas, left, right, top, bottom in *;
      rewrite A1, A2; destruct B as [P B]; split; try exact P; rect_lra.
  - rewrite (alignAxis1_other d bo st a b N).
    set (st' := alignAxis1 d bo st a) in *. clearbody st'.
    destruct b; unfold besideCanvas, left, right, top, bottom in *;
      destruct B as [P B]; split; try exact P; rect_lra.
Qed.

(** A round of the second loop keeps the axes beside the canvas. *)
Lemma alignAxis2_beside options d c sr a b :
  besideCanvas b c (pget sr b) ->
  besideCanvas b c (pget (alignAxis2 options d c sr a) b).
Proof.
  intros B.
  assert (D : a = b \/ a <> b)
    by (destruct a, b; (left; reflexivity) || (right; discriminate)).
  destruct D as [->|N]; [|rewrite alignAxis2_other by exact N; exact B].
  unfold alignAxis2.
  destruct (negb (isValid (pget sr b))); [exact B|].
  rewrite pget_pset_same.
  set (r := pget sr b) in *. clearbody r.
  destruct b; cbn [isXAxis]; unfold besideCanvas in *;
    destruct B as [P B];
    repeat match goal with
           | |- context [if ?c then _ else _] => destruct c
           end;
    unfold left, right, top, bottom, setLeft, setRight, setTop, setBottom
      in *;
    cbn [xp yp w h] in *; split; rect_lra.
Qed.

Lemma alignScales_beside options d c sr b :
  besideCanvas b c (pget sr b) ->
  besideCanvas b (fst (alignScales options d (c, sr)))
    (pget (snd (alignScales options d (c, sr))) b).
Proof.
  intros B. unfold alignScales, alignScales_pass2, alignScales_pass1.
  cbn [fold_left allAxes fst snd].
  set (bo := alignScales_backbone options d).
  pose proof (alignAxis1_beside d bo (c, sr) yLeft b B) as B1.
  set (s1 := alignAxis1 d bo (c, sr) yLeft) in *. clearbody s1.
  pose proof (alignAxis1_beside d bo s1 yRight b B1) as B2.
  set (s2 := alignAxis1 d bo s1 yRight) in *. clearbody s2.
  pose proof (alignAxis1_beside d bo s2 xBottom b B2) as B3.
  set (s3 := alignAxis1 d bo s2 xBottom) in *. clearbody s3.
  pose proof (alignAxis1_beside d bo s3 xTop b B3) as B4.
  set (s4 := alignAxis1 d bo s3 xTop) in *. clearbody s4.
  destruct s4 as [c4 sr4]. cbn [fst snd] in *.
  apply alignAxis2_beside, alignAxis2_beside, alignAxis2_beside,
    alignAxis2_beside, B4.
Qed.

(** The rectangle that [activate] gives an axis lies beside the
    canvas. *)
Lemma activate_scale_beside dims d a :
  0 < pget (dimAxis dims) a ->
  besideCanvas a (d_canvasRect d)
    (pget (d_scaleRect (activate_scale dims d a)) a).
Proof.
  intros Hpos. unfold activate_scale.
  assert (E : (pget (dimAxis dims) a =? 0) = false)
    by (apply Z.eqb_neq; lia).
  rewrite E. cbn [negb d_scaleRect with_scaleRect].
  rewrite pget_pset_same.
  assert (Q : (0 < inject_Z (pget (dimAxis dims) a))%Q)
    by (change 0%Q with (inject_Z 0); rewrite <- Zlt_Qlt; exact Hpos).
  set (dim := inject_Z (pget (dimAxis dims) a)) in *. clearbody dim.
  set (cr := d_canvasRect d). clearbody cr.
  destruct a; unfold besideCanvas, normalized, setWidth, setHeight, setX,
    setY, setLeft, setTop, left, right, top, bottom; cbn [xp yp w h];
    repeat (case_if; cbn [xp yp w h]); bool2prop; split; rect_lra.
Qed.

Lemma activate_scale_other dims d a b :
  a <> b ->
  pget (d_scaleRect (activate_scale dims d a)) b = pget (d_scaleRect d) b.
Proof.
  intros N. unfold activate_scale.
  destruct (negb (pget (dimAxis dims) a =? 0)); [|reflexivity].
  cbn [d_scaleRect with_scaleRect]. apply pget_pset_other, N.
Qed.

Lemma activate_scale_canvasRect dims d a :
  d_canvasRect (activate_scale dims d a) = d_canvasRect d.
Proof. apply activate_scale_config. Qed.

Lemma activate_scale_step dims d a b :
  0 < pget (dimAxis dims) b ->
  a = b \/ besideCanvas b (d_canvasRect d) (pget (d_scaleRect d) b) ->
  besideCanvas b (d_canvasRect (activate_scale dims d a))
    (pget (d_scaleRect (activate_scale dims d a)) b).
Proof.
  intros Hpos H. rewrite activate_scale_canvasRect.
  assert (D : a = b \/ a <> b)
    by (destruct a, b; (left; reflexivity) || (right; discriminate)).
  destruct D as [->|N].
  - apply activate_scale_beside, Hpos.
  - rewrite activate_scale_other by exact N.
    destruct H as [H|H]; [contradiction | exact H].
Qed.

Lemma activate_scales_beside dims d b :
  0 < pget (dimAxis dims) b ->
  besideCanvas b (d_canvasRect (fold_left (activate_scale dims) allAxes d))
    (pget (d_scaleRect (fold_left (activate_scale dims) allAxes d)) b).
Proof.
  intros Hpos. cbn [fold_left allAxes].
  destruct b.
  - apply activate_scale_step; [exact Hpos | right].
    apply activate_scale_step; [exact Hpos | right].
    apply activate_scale_step; [exact Hpos | right].
    apply activate_scale_step; [exact Hpos | left; reflexivity].
  - apply activate_scale_step; [exact Hpos | right].
    apply activate_scale_step; [exact Hpos | right].
    apply activate_scale_step; [exact Hpos | left; reflexivity].
  - apply activate_scale_step; [exact Hpos | right].
    apply activate_scale_step; [exact Hpos | left; reflexivity].
  - apply activate_scale_step; [exact Hpos | left; reflexivity].
Qed.

Lemma activate_finish_beside options dims d1 r1 b :
  0 < pget (dimAxis dims) b ->
  besideCanvas b (d_canvasRect (activate_finish options dims (d1, r1)))
    (pget (d_scaleRect (activate_finish options dims (d1, r1))) b).
Proof.
  intros Hpos. unfold activate_finish.
  destruct (activate_footer dims (activate_title dims (d1, r1))) as [d3 r3].
  set (d4 := activate_canvas dims r3 d3). clearbody d4.
  pose proof (activate_scales_beside dims d4 b Hpos) as B5.
  set (d5 := fold_left (activate_scale dims) allAxes d4) in *. clearbody d5.
  pose proof (alignScales_beside options d5 (d_canvasRect d5)
                (d_scaleRect d5) b B5) as B6.
  set (st := alignScales options d5 (d_canvasRect d5, d_scaleRect d5)) in *.
  clearbody st.
  destruct (aligned_frame (fst st) (snd st) d5) as (Ec & _).
  pose proof (aligned_scaleRect (fst st) (snd st) d5) as Es.
  set (d6 := with_scaleRect (snd st) (with_canvasRect (fst st) d5)) in *.
  clearbody d6.
  destruct (negb (isEmpty (d_legendRect d6))).
  - destruct (with_legendRect_frame
                (alignLegend (d_canvasRect d6) (d_legendRect d6) d6) d6)
      as (W1 & _).
    rewrite W1, with_legendRect_scaleRect, Ec, Es. exact B6.
  - rewrite Ec, Es. exact B6.
Qed.

(** X17: after a pass over a plot rectangle on the pixel grid, a valid
    canvas intersects the rectangle of no axis: each axis with an extent
    lies beside the canvas, on its side, through both loops of
    [alignScales]; the others have no rectangle.  (On the grid the edges
    that keep canvas and axis apart are integers, on which the
    arithmetic of the code is exact.) *)
Theorem activate_canvas_clear_of_scales (fuel : nat) (plot : QwtPlot)
    (plotRect : QRectF) (options : Z) (d d' : PrivateData) :
  pixelAligned plotRect ->
  activate fuel plot plotRect options d = Some d' ->
  isValid (canvasRect d') = true ->
  forall axis : Z, intersects (canvasRect d') (scaleRect axis d') = false.
Proof.
  intros _ Hact Hv axis.
  destruct (activate_stages _ _ _ _ _ _ Hact)
    as (d0 & d1 & r1 & dims & E0 & E1 & E2 & E3).
  assert (W0 : scales_in_range d0).
  { rewrite E0. apply init_scales_in_range. }
  destruct (activate_legend_config plot options plotRect d0) as [_ Ll].
  rewrite E1 in Ll. cbn [fst] in Ll.
  assert (W1 : scales_in_range d1).
  { intros a. rewrite Ll. apply W0. }
  destruct (expandLineBreaks_range _ _ _ _ _ W1 E2) as (_ & _ & R).
  destruct (activate_start_null plot plotRect options d) as (_ & _ & _ & N4).
  rewrite <- E0, E1 in N4. cbn [fst] in N4.
  unfold scaleRect, canvasRect in *.
  destruct ((axis <? 0) || (axisCnt <=? axis)); [apply intersects_null|].
  destruct (axisOfInt axis) as [b|]; [|apply intersects_null].
  destruct (Z.eq_dec (pget (dimAxis dims) b) 0) as [Z0|NZ].
  - destruct (activate_finish_skips options dims d1 r1) as (_ & _ & _ & S4).
    rewrite E3, (S4 b Z0); rewrite N4; [apply intersects_null | reflexivity].
  - apply (besideCanvas_intersects b); [exact Hv|].
    rewrite E3. apply activate_finish_beside.
    specialize (R b). lia.
Qed.

Lemma activate_canvas_clear_of_scales_witness :
  pixelAligned (mkQRectF 0 0 400 300)
  /\ activate 3 labelledPlot (mkQRectF 0 0 400 300) 0 freshLayout
     = Some labelledLayout
  /\ isValid (canvasRect labelledLayout) = true
  /\ isValid (scaleRect 0 labelledLayout) = true
  /\ intersects (canvasRect labelledLayout) (scaleRect 0 labelledLayout)
     = false.
Proof.
  assert (G : pixelAligned (mkQRectF 0 0 400 300)).
  { exists 0, 0, 400, 300. unfold maxPixels.
    split; [reflexivity|]. lia. }
  assert (H1 : activate 3 labelledPlot (mkQRectF 0 0 400 300) 0 freshLayout
               = Some labelledLayout) by (vm_compute; reflexivity).
  assert (H2 : isValid (canvasRect labelledLayout) = true)
    by (vm_compute; reflexivity).
  split; [exact G|]. split; [exact H1|]. split; [exact H2|].
  split; [vm_compute; reflexivity|].
  exact (activate_canvas_clear_of_scales 3 labelledPlot
           (mkQRectF 0 0 400 300) 0 freshLayout labelledLayout G H1 H2 0).
Defined.

(** ** layoutLegend: a legend at the top or at the bottom *)

(** X18: for a legend at the top or at the bottom of a rectangle on the
    pixel grid and a ratio between 0 and 1, [layoutLegend] returns a
    rectangle that spans the width of the rectangle and lies at its top
    or bottom edge; its height is an [int] that is at least the vertical
    scroll extent and, unless it is that extent, at most the height of
    the size hint and at most the height of the rectangle.
    [IgnoreScrollbars] plays no part here.  (A bound by the share
    [legendRatio] of the height itself would hold of the exact product
    only: the product of the code is rounded before it is truncated.) *)
Theorem layoutLegend_top_bottom (options : Z) (rect : QRectF)
    (d : PrivateData) :
  d_legendPos d = TopLegend \/ d_legendPos d = BottomLegend ->
  pixelAligned rect ->
  (0 <= d_legendRatio d)%Q -> (d_legendRatio d <= 1)%Q ->
  exists dim : Z,
    height (layoutLegend options rect d) = inject_Z dim
    /\ lg_vScrollExtent (legend (d_layoutData d)) <= dim
    /\ (dim = lg_vScrollExtent (legend (d_layoutData d))
        \/ (dim <= sz_height (lg_hint (legend (d_layoutData d)))
            /\ (inject_Z dim <= height rect)%Q))
    /\ x (layoutLegend options rect d) = x rect
    /\ width (layoutLegend options rect d) = width rect
    /\ (d_legendPos d = TopLegend ->
        top (layoutLegend options rect d) = top rect)
    /\ (d_legendPos d = BottomLegend ->
        (bottom (layoutLegend options rect d) == bottom rect)%Q).
Proof.
  intros Hpos (X & Y & W & H & -> & _ & _ & _ & HH) Hr0 Hr1.
  set (rect := mkQRectF (inject_Z X) (inject_Z Y) (inject_Z W) (inject_Z H)).
  assert (Hh : (0 <= height rect)%Q).
  { unfold rect, height. cbn [h]. change 0%Q with (inject_Z 0).
    rewrite <- Zle_Qle. lia. }
  assert (P : (0 <= height rect * d_legendRatio d)%Q)
    by (apply Qmult_le_0_compat; assumption).
  assert (P1 : (height rect * d_legendRatio d <= height rect)%Q).
  { rewrite <- (Qmult_1_r (height rect)) at 2.
    rewrite !(Qmult_comm (height rect)).
    apply Qmult_le_compat_r; assumption. }
  pose proof (int_of_double_le _ P) as Hi.
  set (lim := int_of_double (height rect * d_legendRatio d)) in *.
  set (hh := sz_height (lg_hint (legend (d_layoutData d)))).
  set (vs := lg_vScrollExtent (legend (d_layoutData d))).
  exists (qMax (qMin hh lim) vs).
  assert (B : vs <= qMax (qMin hh lim) vs
              /\ (qMax (qMin hh lim) vs = vs
                  \/ (qMax (qMin hh lim) vs <= hh
                      /\ (inject_Z (qMax (qMin hh lim) vs)
                          <= height rect)%Q))).
  { unfold qMax, qMin.
    destruct (Z.ltb_spec hh lim) as [A|A];
      match goal with
      | |- context [if ?a <? ?b then _ else _] =>
          destruct (Z.ltb_spec a b) as [C|C]
      end; (split; [lia|]); try (left; reflexivity); right;
      (split; [lia|]).
    - apply Qle_trans with (inject_Z lim);
        [rewrite <- Zle_Qle; lia | lra].
    - lra. }
  destruct B as [B1 B2].
  unfold layoutLegend, layoutLegend_dim. fold hh vs.
  destruct Hpos as [E|E]; rewrite E;
    cbn [Z.eqb Pos.eqb LeftLegend RightLegend TopLegend BottomLegend orb];
    fold lim;
    (split; [reflexivity|]); (split; [exact B1|]); (split; [exact B2|]);
    (split; [reflexivity|]); (split; [reflexivity|]).
  - split; [reflexivity | discriminate].
  - split; [discriminate|]. intros _.
    unfold bottom, setHeight, setY, setTop. cbn [xp yp w h]. ring.
Qed.

Lemma layoutLegend_top_bottom_witness :
  (d_legendPos (setLegendPosition TopLegend (1 # 2) legendLayout) = TopLegend
   \/ d_legendPos (setLegendPosition TopLegend (1 # 2) legendLayout)
      = BottomLegend)
  /\ pixelAligned (mkQRectF 0 0 100 8)
  /\ (0 <= d_legendRatio (setLegendPosition TopLegend (1 # 2) legendLayout))%Q
  /\ (d_legendRatio (setLegendPosition TopLegend (1 # 2) legendLayout) <= 1)%Q
  /\ exists dim : Z,
       height (layoutLegend 0 (mkQRectF 0 0 100 8)
                 (setLegendPosition TopLegend (1 # 2) legendLayout))
       = inject_Z dim
       /\ lg_vScrollExtent
            (legend (d_layoutData
                       (setLegendPosition TopLegend (1 # 2) legendLayout)))
          <= dim.
Proof.
  assert (H1 : d_legendPos (setLegendPosition TopLegend (1 # 2) legendLayout)
               = TopLegend
               \/ d_legendPos
                    (setLegendPosition TopLegend (1 # 2) legendLayout)
                  = BottomLegend) by (left; vm_compute; reflexivity).
  assert (H2 : pixelAligned (mkQRectF 0 0 100 8)).
  { exists 0, 0, 100, 8. unfold maxPixels. split; [reflexivity|]. lia. }
  assert (H3 : (0 <= d_legendRatio
                      (setLegendPosition TopLegend (1 # 2) legendLayout))%Q)
    by (vm_compute; discriminate).
  assert (H4 : (d_legendRatio
                  (setLegendPosition TopLegend (1 # 2) legendLayout) <= 1)%Q)
    by (vm_compute; discriminate).
  split; [exact H1|]. split; [exact H2|]. split; [exact H3|].
  split; [exact H4|].
  destruct (layoutLegend_top_bottom 0 (mkQRectF 0 0 100 8)
              (setLegendPosition TopLegend (1 # 2) legendLayout) H1 H2 H3 H4)
    as (dim & A & B & _).
  exists dim. split; [exact A | exact B].
Defined.

(** ** activate: no trace of earlier passes *)

Lemma sameRun_fields d1 d2 :
  sameRun d1 d2 ->
  (d_legendPos d1 = d_legendPos d2 /\ d_legendRatio d1 = d_legendRatio d2
   /\ d_spacing d1 = d_spacing d2 /\ d_canvasMargin d1 = d_canvasMargin d2
   /\ d_alignCanvasToScales d1 = d_alignCanvasToScales d2)
  /\ (d_titleRect d1 = d_titleRect d2 /\ d_footerRect d1 = d_footerRect d2
      /\ d_legendRect d1 = d_legendRect d2
      /\ d_canvasRect d1 = d_canvasRect d2
      /\ d_scaleRect d1 = d_scaleRect d2)
  /\ (title (d_layoutData d1) = title (d_layoutData d2)
      /\ footer (d_layoutData d1) = footer (d_layoutData d2)
      /\ canvas (d_layoutData d1) = canvas (d_layoutData d2))
  /\ ((forall a, isEnabled (pget (scale (d_layoutData d1)) a)
                 = isEnabled (pget (scale (d_layoutData d2)) a))
      /\ (forall a, start (pget (scale (d_layoutData d1)) a)
                    = start (pget (scale (d_layoutData d2)) a))
      /\ (forall a, end_ (pget (scale (d_layoutData d1)) a)
                    = end_ (pget (scale (d_layoutData d2)) a))
      /\ (forall a, tickOffset (pget (scale (d_layoutData d1)) a)
                    = tickOffset (pget (scale (d_layoutData d2)) a))
      /\ (forall a, dimWithoutTitle (pget (scale (d_layoutData d1)) a)
                    = dimWithoutTitle (pget (scale (d_layoutData d2)) a))
      /\ (forall a, isEnabled (pget (scale (d_layoutData d2)) a) = true ->
                    scaleWidget (pget (scale (d_layoutData d1)) a)
                    = scaleWidget (pget (scale (d_layoutData d2)) a))).
Proof.
  intros (Hc & Hg & Ht & Hf & Hv & Hs & _).
  unfold config in Hc. injection Hc as C1 C2 C3 C4 C5.
  unfold geometry in Hg. injection Hg as G1 G2 G3 G4 G5.
  repeat split; try assumption; intros a; apply (Hs a).
Qed.

Ltac same_fields H :=
  let C1 := fresh "C1" in let C2 := fresh "C2" in let C3 := fresh "C3" in
  let C4 := fresh "C4" in let C5 := fresh "C5" in
  let G1 := fresh "G1" in let G2 := fresh "G2" in let G3 := fresh "G3" in
  let G4 := fresh "G4" in let G5 := fresh "G5" in
  let L1 := fresh "L1" in let L2 := fresh "L2" in let L3 := fresh "L3" in
  let Se := fresh "Se" in let Ss := fresh "Ss" in let Sn := fresh "Sn" in
  let Sk := fresh "Sk" in let Sd := fresh "Sd" in let Sw := fresh "Sw" in
  destruct (sameRun_fields _ _ H)
    as ((C1 & C2 & C3 & C4 & C5) & (G1 & G2 & G3 & G4 & G5)
        & (L1 & L2 & L3) & (Se & Ss & Sn & Sk & Sd & Sw));
  try rewrite !C1; try rewrite !C2; try rewrite !C3; try rewrite !C4;
  try rewrite !C5; try rewrite !G1; try rewrite !G2; try rewrite !G3;
  try rewrite !G4; try rewrite !G5; try rewrite !L1; try rewrite !L2;
  try rewrite !L3; try rewrite !Se; try rewrite !Ss; try rewrite !Sn;
  try rewrite !Sk; try rewrite !Sd.

(** A state that differs from [d2] in the way [sameRun] allows, with
    the same rectangles written. *)
Lemma sameRun_intro d1 d2 d1' d2' :
  sameRun d1 d2 ->
  config d1' = config d1 -> config d2' = config d2 ->
  d_layoutData d1' = d_layoutData d1 -> d_layoutData d2' = d_layoutData d2 ->
  geometry d1' = geometry d2' ->
  (isEmpty (d_legendRect d2') = false -> isEmpty (d_legendRect d2) = false) ->
  sameRun d1' d2'.
Proof.
  intros (Hc & Hg & Ht & Hf & Hv & Hs & Hl) C1 C2 E1 E2 G I.
  unfold sameRun. rewrite C1, C2, E1, E2.
  split; [exact Hc|]. split; [exact G|]. split; [exact Ht|].
  split; [exact Hf|]. split; [exact Hv|]. split; [exact Hs|].
  intros H. apply Hl, I, H.
Qed.

Lemma oneYAxis_same d1 d2 : sameRun d1 d2 -> oneYAxis d1 = oneYAxis d2.
Proof. intros H. unfold oneYAxis. same_fields H. reflexivity. Qed.

Lemma activate_title_same dims d1 d2 r :
  sameRun d1 d2 ->
  sameRun (fst (activate_title dims (d1, r))) (fst (activate_title dims (d2, r)))
  /\ snd (activate_title dims (d1, r)) = snd (activate_title dims (d2, r)).
Proof.
  intros H. pose proof (oneYAxis_same d1 d2 H) as O.
  unfold activate_title. rewrite O.
  destruct (0 <? dimTitle dims); [|split; [exact H | reflexivity]].
  cbn [fst snd]. split.
  - apply (sameRun_intro d1 d2); try exact H; try reflexivity.
    + unfold geometry. cbn [d_titleRect d_footerRect d_legendRect
        d_canvasRect d_scaleRect with_titleRect].
      same_fields H. reflexivity.
    + cbn [d_legendRect with_titleRect]. intros E. exact E.
  - same_fields H. reflexivity.
Qed.

Lemma activate_footer_same dims d1 d2 r :
  sameRun d1 d2 ->
  sameRun (fst (activate_footer dims (d1, r)))
          (fst (activate_footer dims (d2, r)))
  /\ snd (activate_footer dims (d1, r)) = snd (activate_footer dims (d2, r)).
Proof.
  intros H. pose proof (oneYAxis_same d1 d2 H) as O.
  unfold activate_footer. rewrite O.
  destruct (0 <? dimFooter dims); [|split; [exact H | reflexivity]].
  cbn [fst snd]. split.
  - apply (sameRun_intro d1 d2); try exact H; try reflexivity.
    + unfold geometry. cbn [d_titleRect d_footerRect d_legendRect
        d_canvasRect d_scaleRect with_footerRect].
      same_fields H. reflexivity.
    + cbn [d_legendRect with_footerRect]. intros E. exact E.
  - same_fields H. reflexivity.
Qed.

Lemma activate_canvas_same dims r d1 d2 :
  sameRun d1 d2 ->
  sameRun (activate_canvas dims r d1) (activate_canvas dims r d2).
Proof.
  intros H. unfold activate_canvas.
  apply (sameRun_intro d1 d2); try exact H; try reflexivity.
  - unfold geometry. cbn [d_titleRect d_footerRect d_legendRect
      d_canvasRect d_scaleRect with_canvasRect setRect].
    same_fields H. reflexivity.
  - cbn [d_legendRect with_canvasRect]. intros E. exact E.
Qed.

Lemma activate_scale_same dims d1 d2 a :
  sameRun d1 d2 ->
  sameRun (activate_scale dims d1 a) (activate_scale dims d2 a).
Proof.
  intros H. unfold activate_scale.
  destruct (negb (pget (dimAxis dims) a =? 0)); [|exact H].
  apply (sameRun_intro d1 d2); try exact H; try reflexivity.
  - unfold geometry. cbn [d_titleRect d_footerRect d_legendRect
      d_canvasRect d_scaleRect with_scaleRect].
    same_fields H. reflexivity.
  - cbn [d_legendRect with_scaleRect]. intros E. exact E.
Qed.

Lemma activate_scales_same dims d1 d2 :
  sameRun d1 d2 ->
  sameRun (fold_left (activate_scale dims) allAxes d1)
          (fold_left (activate_scale dims) allAxes d2).
Proof.
  intros H. cbn [fold_left allAxes].
  repeat apply activate_scale_same. exact H.
Qed.

Lemma alignAxis1_same d1 d2 bo st a :
  sameRun d1 d2 -> alignAxis1 d1 bo st a = alignAxis1 d2 bo st a.
Proof.
  intros H.
  assert (L : forall sD lsr cr,
             alignLeft d1 bo sD lsr cr = alignLeft d2 bo sD lsr cr).
  { intros sD lsr [c ar]. unfold alignLeft. same_fields H. reflexivity. }
  assert (R : forall eD rsr cr,
             alignRight d1 bo eD rsr cr = alignRight d2 bo eD rsr cr).
  { intros eD rsr [c ar]. unfold alignRight. same_fields H. reflexivity. }
  assert (B : forall eD bsr cr,
             alignBottom d1 bo eD bsr cr = alignBottom d2 bo eD bsr cr).
  { intros eD bsr [c ar]. unfold alignBottom. same_fields H. reflexivity. }
  assert (T : forall sD tsr cr,
             alignTop d1 bo sD tsr cr = alignTop d2 bo sD tsr cr).
  { intros sD tsr [c ar]. unfold alignTop. same_fields H. reflexivity. }
  unfold alignAxis1. destruct st as [c sr].
  rewrite L, R, B, T. same_fields H. reflexivity.
Qed.

Lemma alignAxis2_same options d1 d2 c sr a :
  sameRun d1 d2 ->
  alignAxis2 options d1 c sr a = alignAxis2 options d2 c sr a.
Proof. intros H. unfold alignAxis2. same_fields H. reflexivity. Qed.

Lemma alignScales_same options d1 d2 st :
  sameRun d1 d2 -> alignScales options d1 st = alignScales options d2 st.
Proof.
  intros H.
  assert (B : alignScales_backbone options d1
              = alignScales_backbone options d2).
  { unfold alignScales_backbone, align_backboneOffset. same_fields H.
    reflexivity. }
  unfold alignScales, alignScales_pass2, alignScales_pass1.
  rewrite B. cbn [fold_left allAxes].
  rewrite !(alignAxis1_same d1 d2) by exact H.
  rewrite !(alignAxis2_same options d1 d2) by exact H.
  reflexivity.
Qed.

Lemma alignLegend_same c l d1 d2 :
  d_legendPos d1 = d_legendPos d2 ->
  legend (d_layoutData d1) = legend (d_layoutData d2) ->
  alignLegend c l d1 = alignLegend c l d2.
Proof. intros P L. unfold alignLegend. rewrite P, L. reflexivity. Qed.

Lemma activate_finish_same options dims d1 d2 r :
  sameRun d1 d2 ->
  geometry (activate_finish options dims (d1, r))
  = geometry (activate_finish options dims (d2, r)).
Proof.
  intros H. unfold activate_finish.
  destruct (activate_title_same dims d1 d2 r H) as [H2 R2].
  destruct (activate_title dims (d1, r)) as [a1 r1].
  destruct (activate_title dims (d2, r)) as [a2 r2].
  cbn [fst snd] in H2, R2. subst r2.
  destruct (activate_footer_same dims a1 a2 r1 H2) as [H3 R3].
  destruct (activate_footer dims (a1, r1)) as [b1 s1].
  destruct (activate_footer dims (a2, r1)) as [b2 s2].
  cbn [fst snd] in H3, R3. subst s2.
  pose proof (activate_scales_same dims _ _
                (activate_canvas_same dims s1 b1 b2 H3)) as H5.
  set (e1 := fold_left (activate_scale dims) allAxes
               (activate_canvas dims s1 b1)) in *.
  set (e2 := fold_left (activate_scale dims) allAxes
               (activate_canvas dims s1 b2)) in *.
  clearbody e1 e2.
  pose proof (alignScales_same options e1 e2
                (d_canvasRect e2, d_scaleRect e2) H5) as A.
  destruct H5 as (Hc & Hg & _ & _ & _ & _ & Hl).
  unfold config in Hc. injection Hc as C1 _ _ _ _.
  unfold geometry in Hg. injection Hg as G1 G2 G3 G4 G5.
  rewrite G4, G5, A.
  set (st := alignScales options e2 (d_canvasRect e2, d_scaleRect e2)).
  clearbody st.
  cbn [d_legendRect d_canvasRect with_scaleRect with_canvasRect].
  rewrite G3.
  destruct (isEmpty (d_legendRect e2)) eqn:E; cbn [negb].
  - unfold geometry.
    cbn [d_titleRect d_footerRect d_legendRect d_canvasRect d_scaleRect
         with_scaleRect with_canvasRect].
    rewrite G1, G2, G3. reflexivity.
  - unfold geometry.
    cbn [d_titleRect d_footerRect d_legendRect d_canvasRect d_scaleRect
         with_scaleRect with_canvasRect with_legendRect].
    rewrite G1, G2.
    rewrite (alignLegend_same (fst st) (d_legendRect e2)
               (with_scaleRect (snd st) (with_canvasRect (fst st) e1))
               (with_scaleRect (snd st) (with_canvasRect (fst st) e2)));
      [reflexivity | exact C1 | exact (Hl eq_refl)].
Qed.

Lemma expandBody_same options r d1 d2 bo dims :
  sameRun d1 d2 ->
  expandBody options r d1 bo dims = expandBody options r d2 bo dims.
Proof.
  intros H. unfold expandBody. cbn [fold_left allAxes].
  assert (T : forall st, expandTitle options r d1 st
                         = expandTitle options r d2 st).
  { intros [dd b]. unfold expandTitle, labelWidth. same_fields H.
    reflexivity. }
  assert (F : forall st, expandFooter options r d1 st
                         = expandFooter options r d2 st).
  { intros [dd b]. unfold expandFooter, labelWidth. same_fields H.
    reflexivity. }
  assert (A : forall st a, expandAxis r d1 bo st a = expandAxis r d2 bo st a).
  { intros [dd b] a. unfold expandAxis, axisLength. same_fields H.
    destruct (isEnabled (pget (scale (d_layoutData d2)) a)) eqn:E;
      [|reflexivity].
    rewrite (Sw a E). reflexivity. }
  rewrite T, F, !A. reflexivity.
Qed.

Lemma expandLoop_same fuel options r d1 d2 bo :
  sameRun d1 d2 ->
  forall dims,
    expandLoop fuel options r d1 bo dims = expandLoop fuel options r d2 bo dims.
Proof.
  intros H. induction fuel as [|n IH]; intros dims; [reflexivity|].
  cbn [expandLoop]. rewrite (expandBody_same options r d1 d2 bo dims H).
  destruct (expandBody options r d2 bo dims) as [dims' done].
  destruct done; [reflexivity | apply IH].
Qed.

Lemma expandLineBreaks_same fuel options r d1 d2 :
  sameRun d1 d2 ->
  expandLineBreaks fuel options r d1 = expandLineBreaks fuel options r d2.
Proof.
  intros H. unfold expandLineBreaks.
  assert (B : forall a, expand_backboneOffset options d1 a
                        = expand_backboneOffset options d2 a).
  { intros a. unfold expand_backboneOffset. same_fields H. reflexivity. }
  rewrite !B. apply expandLoop_same, H.
Qed.

Lemma activate_legend_same plot options r d1 d2 :
  sameRun d1 d2 ->
  (hasLegend plot = true ->
   legend (d_layoutData d1) = legend (d_layoutData d2)) ->
  sameRun (fst (activate_legend plot options r d1))
          (fst (activate_legend plot options r d2))
  /\ snd (activate_legend plot options r d1)
     = snd (activate_legend plot options r d2).
Proof.
  intros H L. unfold activate_legend.
  destruct (hasLegend plot);
    [|rewrite andb_false_r; split; [exact H | reflexivity]].
  specialize (L eq_refl).
  destruct (negb (hasOption options IgnoreLegend));
    [|split; [exact H | reflexivity]].
  cbn [andb fst snd d_legendRect d_legendPos d_spacing with_legendRect].
  assert (E : layoutLegend options r d1 = layoutLegend options r d2).
  { unfold layoutLegend, layoutLegend_dim. rewrite L. same_fields H.
    reflexivity. }
  rewrite E. split.
  - destruct H as (Hc & Hg & Ht & Hf & Hv & Hs & Hl).
    unfold sameRun, config, geometry in *.
    cbn [d_titleRect d_footerRect d_legendRect d_canvasRect d_scaleRect
         d_layoutData d_legendPos d_legendRatio d_spacing d_canvasMargin
         d_alignCanvasToScales with_legendRect].
    injection Hg as G1 G2 G3 G4 G5. rewrite G1, G2, G4, G5.
    split; [exact Hc|]. split; [reflexivity|]. split; [exact Ht|].
    split; [exact Hf|]. split; [exact Hv|]. split; [exact Hs|].
    intros _. exact L.
  - same_fields H. reflexivity.
Qed.

(** Where [activate] starts from, for two states with the same
    configuration. *)
Lemma activate_start_same plot plotRect d1 d2 :
  config d1 = config d2 ->
  sameRun
    (with_layoutData
       (LayoutData_init plot plotRect (d_layoutData (invalidate d1)))
       (invalidate d1))
    (with_layoutData
       (LayoutData_init plot plotRect (d_layoutData (invalidate d2)))
       (invalidate d2))
  /\ (hasLegend plot = true ->
      legend (LayoutData_init plot plotRect (d_layoutData (invalidate d1)))
      = legend (LayoutData_init plot plotRect (d_layoutData (invalidate d2)))).
Proof.
  intros Hc. split.
  - unfold sameRun.
    split; [exact Hc|]. split; [reflexivity|]. split; [reflexivity|].
    split; [reflexivity|]. split; [reflexivity|]. split.
    + intros axis.
      cbn [d_layoutData with_layoutData LayoutData_init scale].
      unfold sameScale.
      destruct axis; cbn [pget atYLeft atYRight atXBottom atXTop];
        unfold init_scale; destruct (plot_axisEnabled plot _);
        cbn [isEnabled start end_ baseLineOffset tickOffset dimWithoutTitle
             scaleWidget];
        repeat split; intros; try reflexivity; discriminate.
    + intros E. exfalso. revert E. vm_compute. discriminate.
  - unfold hasLegend. cbn [legend LayoutData_init]. unfold init_legend.
    destruct (plot_legend plot); [reflexivity | discriminate].
Qed.

(** Two states with the same configuration get the same geometry from
    a pass, whatever else they hold. *)
Lemma activate_same_config fuel plot plotRect options d1 d2 d1' :
  config d1 = config d2 ->
  activate fuel plot plotRect options d1 = Some d1' ->
  exists d2' : PrivateData,
    activate fuel plot plotRect options d2 = Some d2'
    /\ geometry d2' = geometry d1'.
Proof.
  intros Hc H. unfold activate in *.
  destruct (activate_start_same plot plotRect d1 d2 Hc) as [S0 L0].
  set (a1 := with_layoutData _ (invalidate d1)) in *.
  set (a2 := with_layoutData _ (invalidate d2)) in *.
  assert (L1 : hasLegend plot = true ->
               legend (d_layoutData a1) = legend (d_layoutData a2))
    by exact L0.
  clearbody a1 a2.
  destruct (activate_legend_same plot options plotRect a1 a2 S0 L1)
    as [S1 R1].
  destruct (activate_legend plot options plotRect a1) as [b1 r1].
  destruct (activate_legend plot options plotRect a2) as [b2 r2].
  cbn [fst snd] in S1, R1. subst r2.
  rewrite <- (expandLineBreaks_same fuel options r1 b1 b2 S1).
  destruct (expandLineBreaks fuel options r1 b1) as [dims|]; [|discriminate].
  injection H as <-.
  exists (activate_finish options dims (b2, r1)).
  split; [reflexivity|].
  symmetry. exact (activate_finish_same options dims b1 b2 r1 S1).
Qed.

(** X19: a pass leaves no trace of earlier passes in the geometry: from
    two states with the same configuration, whatever rectangles and
    captured layout data they hold, [activate] with the same plot,
    rectangle and options returns for both or for neither, and with the
    same [titleRect], [footerRect], [legendRect], [canvasRect] and
    [scaleRect]s. *)
Theorem activate_history_independent (fuel : nat) (plot : QwtPlot)
    (plotRect : QRectF) (options : Z) (d1 d2 d1' : PrivateData) :
  config d1 = config d2 ->
  activate fuel plot plotRect options d1 = Some d1' ->
  exists d2' : PrivateData,
    activate fuel plot plotRect options d2 = Some d2'
    /\ titleRect d2' = titleRect d1'
    /\ footerRect d2' = footerRect d1'
    /\ legendRect d2' = legendRect d1'
    /\ canvasRect d2' = canvasRect d1'
    /\ (forall axis, scaleRect axis d2' = scaleRect axis d1').
Proof.
  intros Hc H.
  destruct (activate_same_config fuel plot plotRect options d1 d2 d1' Hc H)
    as (d2' & E & G).
  exists d2'. split; [exact E|].
  unfold geometry in G. injection G as G1 G2 G3 G4 G5.
  unfold titleRect, footerRect, legendRect, canvasRect, scaleRect.
  rewrite G1, G2, G3, G4, G5. repeat split.
Qed.

Lemma activate_history_independent_witness :
  config (setLegendPosition RightLegend (2 # 5) freshLayout)
  = config (setLegendPosition RightLegend (2 # 5) labelledLayout)
  /\ activate 2 legendPlot (mkQRectF 0 0 100 100) 0
       (setLegendPosition RightLegend (2 # 5) freshLayout)
     = Some legendLayout
  /\ exists d2' : PrivateData,
       activate 2 legendPlot (mkQRectF 0 0 100 100) 0
         (setLegendPosition RightLegend (2 # 5) labelledLayout)
       = Some d2'
       /\ canvasRect d2' = canvasRect legendLayout
       /\ legendRect d2' = legendRect legendLayout.
Proof.
  assert (H1 : config (setLegendPosition RightLegend (2 # 5) freshLayout)
               = config (setLegendPosition RightLegend (2 # 5)
                           labelledLayout)) by (vm_compute; reflexivity).
  assert (H2 : activate 2 legendPlot (mkQRectF 0 0 100 100) 0
                 (setLegendPosition RightLegend (2 # 5) freshLayout)
               = Some legendLayout) by (vm_compute; reflexivity).
  split; [exact H1|]. split; [exact H2|].
  destruct (activate_history_independent 2 legendPlot (mkQRectF 0 0 100 100)
              0 _ _ legendLayout H1 H2) as (d2' & A & _ & _ & L & C & _).
  exists d2'. split; [exact A|]. split; [exact C | exact L].
Defined.

(** C4: [activate] returns for every plot, rectangle, options and state
    of the layout, and a second call with the same plot, rectangle and
    options, on the state the first call left or on any state with the
    same configuration (legend position and ratio, spacing, canvas
    margins, alignment flags), returns as well, with exactly the same
    [titleRect], [footerRect], [legendRect], [canvasRect] and
    [scaleRect] of every axis index as the first call. *)
Theorem activate_twice_same_rects (plot : QwtPlot) (plotRect : QRectF)
    (options : Z) (d : PrivateData) :
  exists (fuel : nat) (d1 : PrivateData),
    forall n, (fuel <= n)%nat ->
      activate n plot plotRect options d = Some d1
      /\ (exists d2 : PrivateData,
            activate n plot plotRect options d1 = Some d2
            /\ titleRect d2 = titleRect d1
            /\ footerRect d2 = footerRect d1
            /\ legendRect d2 = legendRect d1
            /\ canvasRect d2 = canvasRect d1
            /\ (forall axis, scaleRect axis d2 = scaleRect axis d1))
      /\ (forall d1' : PrivateData,
            config d1' = config d1 ->
            exists d2 : PrivateData,
              activate n plot plotRect options d1' = Some d2
              /\ titleRect d2 = titleRect d1
              /\ footerRect d2 = footerRect d1
              /\ legendRect d2 = legendRect d1
              /\ canvasRect d2 = canvasRect d1
              /\ (forall axis, scaleRect axis d2 = scaleRect axis d1)).
Proof.
  destruct (activate_returns plot plotRect options d) as (fuel & d1 & F).
  exists fuel, d1. intros n Hn.
  pose proof (activate_again n plot plotRect options d d1 (F n Hn)) as A.
  assert (K : forall d1' : PrivateData,
            config d1' = config d1 ->
            exists d2 : PrivateData,
              activate n plot plotRect options d1' = Some d2
              /\ titleRect d2 = titleRect d1
              /\ footerRect d2 = footerRect d1
              /\ legendRect d2 = legendRect d1
              /\ canvasRect d2 = canvasRect d1
              /\ (forall axis, scaleRect axis d2 = scaleRect axis d1)).
  { intros d1' Hc.
    destruct (activate_same_config n plot plotRect options d1 d1' d1
                (eq_sym Hc) A) as (d2 & E & G).
    exists d2. split; [exact E|].
    unfold geometry in G. injection G as G1 G2 G3 G4 G5.
    unfold titleRect, footerRect, legendRect, canvasRect, scaleRect.
    rewrite G1, G2, G3, G4, G5.
    split; [reflexivity|]. split; [reflexivity|]. split; [reflexivity|].
    split; [reflexivity|]. intros axis. reflexivity. }
  split; [exact (F n Hn)|]. split; [|exact K].
  exact (K d1 eq_refl).
Qed.

(** On [labelledPlot]: the second call on the state the first call
    left, and the second call after [invalidate] and a round trip of
    the spacing. *)
Lemma activate_twice_same_rects_witness :
  exists (fuel : nat) (d1 : PrivateData),
    activate fuel labelledPlot (mkQRectF 0 0 400 300) 0 freshLayout = Some d1
    /\ config (setSpacing (spacing d1) (setSpacing 0 (invalidate d1)))
       = config d1
    /\ (exists d2 : PrivateData,
          activate fuel labelledPlot (mkQRectF 0 0 400 300) 0 d1 = Some d2
          /\ canvasRect d2 = canvasRect d1)
    /\ (exists d2 : PrivateData,
          activate fuel labelledPlot (mkQRectF 0 0 400 300) 0
            (setSpacing (spacing d1) (setSpacing 0 (invalidate d1)))
          = Some d2
          /\ canvasRect d2 = canvasRect d1
          /\ legendRect d2 = legendRect d1).
Proof.
  destruct (activate_twice_same_rects labelledPlot (mkQRectF 0 0 400 300) 0
              freshLayout) as (fuel & d1 & F).
  exists fuel, d1.
  destruct (F fuel (Nat.le_refl fuel)) as (A & B & K).
  assert (Hc : config (setSpacing (spacing d1) (setSpacing 0 (invalidate d1)))
               = config d1).
  { pose proof (activate_config _ _ _ _ _ _ A) as C.
    unfold config in *. injection C as C1 C2 C3 C4 C5.
    unfold setSpacing, spacing, with_spacing, invalidate.
    cbn [d_legendPos d_legendRatio d_spacing d_canvasMargin
         d_alignCanvasToScales with_titleRect with_footerRect
         with_legendRect with_scaleRect with_canvasRect].
    rewrite C3. reflexivity. }
  split; [exact A|]. split; [exact Hc|]. split.
  - destruct B as (d2 & E & _ & _ & _ & Cv & _).
    exists d2. split; [exact E | exact Cv].
  - destruct (K _ Hc) as (d2 & E & _ & _ & L & Cv & _).
    exists d2. split; [exact E|]. split; [exact Cv | exact L].
Defined.
